(** * List detection for BabelDOC: a shallow embedding of [list_detector.py]

    The module recognises list items (bullets, numbers, letters, Roman
    numerals) at the start of a line of text and re-emits them around a
    translated content.  The development below embeds

    - the Python values the module works on: [str] as a list of code points,
      [int] as [Z], the [float] coordinate by its class and exact value,
      with the rounding of binary64 arithmetic where the module divides it,
      exceptions as an error result;
    - the backtracking regular-expression matcher behind [re.compile(..).match],
      with lazy and greedy repetition, groups and look-ahead, and the four
      entries of [ListDetector.PATTERNS] written as syntax trees of it;
    - [ListDetector.detect_list_item], [_roman_to_int], [_int_to_roman],
      [reconstruct_list_text] and [ListGroup];

    and then states and proves the properties of the specification. *)

From Stdlib Require Import String Ascii DecimalString DecimalFacts DecimalPos DecimalN.
From Stdlib Require Import List ZArith NArith Bool Lia Permutation.
Import ListNotations.

Set Implicit Arguments.

(** ** Python values *)

(** A character is a Unicode code point, a string a sequence of them. *)
Definition char := N.
Definition str := list char.

(** An ASCII literal as a Python string. *)
Definition ustr (s : string) : str := map N_of_ascii (list_ascii_of_string s).
Definition uchr (a : ascii) : char := N_of_ascii a.

(** The exceptions the built-ins used by the module can raise. *)
Inductive exn :=
| ValueError | IndexError | TypeError | AttributeError | OverflowError
| MemoryError.

Inductive result (A : Type) : Type :=
| Ok (a : A)
| Raise (e : exn).
Arguments Ok {A} a.
Arguments Raise {A} e.

Definition bind {A B} (r : result A) (f : A -> result B) : result B :=
  match r with
  | Ok a => f a
  | Raise e => Raise e
  end.

Notation "x <- r ;; k" := (bind r (fun x => k))
  (at level 61, r at next level, right associativity).

(** [str.isspace] of one character, which is also [\s] of [re] on [str]
    patterns: the characters of bidirectional class WS, B or S, or of general
    category Zs. *)
Definition isspace (c : char) : bool :=
  (((9 <=? c) && (c <=? 13)) || ((28 <=? c) && (c <=? 32)) ||
   (c =? 133) || (c =? 160) || (c =? 5760) ||
   ((8192 <=? c) && (c <=? 8202)) ||
   (c =? 8232) || (c =? 8233) || (c =? 8239) || (c =? 8287) || (c =? 12288))%N.

Fixpoint dropwhile (p : char -> bool) (s : str) : str :=
  match s with
  | [] => []
  | c :: s' => if p c then dropwhile p s' else s
  end.

Definition lstrip (s : str) : str := dropwhile isspace s.
Definition rstrip (s : str) : str := rev (dropwhile isspace (rev s)).
Definition strip (s : str) : str := rstrip (lstrip s).

(** [s[i:j]] for [0 <= i], [0 <= j]. *)
Definition slice (s : str) (i j : nat) : str := firstn (j - i) (skipn i s).

(** [c in s] for a one-character [c]. *)
Definition contains (s : str) (c : char) : bool := existsb (N.eqb c) s.

(** [s.find(c)] for a one-character [c]; [None] stands for -1. *)
Fixpoint str_find (s : str) (c : char) : option nat :=
  match s with
  | [] => None
  | x :: s' => if (x =? c)%N then Some O
               else match str_find s' c with
                    | Some i => Some (S i)
                    | None => None
                    end
  end.

Definition is_ascii (c : char) : bool := (c <? 128)%N.
Definition between (lo hi : ascii) (c : char) : bool :=
  ((uchr lo <=? c) && (c <=? uchr hi))%N.

Definition ascii_upper (c : char) : char :=
  if between "a" "z" c then (c - 32)%N else c.
Definition ascii_lower (c : char) : char :=
  if between "A" "Z" c then (c + 32)%N else c.

(** ** The interpreter

    What the module's behaviour depends on and the repository does not fix:
    the tables of the Unicode database outside ASCII, the limit on the
    digits of a conversion between [int] and [str]
    ([sys.get_int_max_str_digits()], 0 when disabled), the order in which
    this process iterates over the set [BULLET_CHARS] (string hashes are
    salted per process), the largest index of the platform ([sys.maxsize])
    and the lengths of string the process is granted memory for. *)
Record Interp := {
  int_max_str_digits : nat;
  decimal_ext : char -> option Z;
  upper_ext : str -> str;
  lower_ext : str -> str;
  set_iter : list char;
  maxsize : N;
  grants : Z -> bool
}.

Section Runtime.

Variable py : Interp.

(** The decimal value of a character of category Nd, which is what [\d]
    matches and [int] accepts. *)
Definition todecimal (c : char) : option Z :=
  if is_ascii c
  then if between "0" "9" c then Some (Z.of_N (c - 48)) else None
  else decimal_ext py c.

Definition isdecimal (c : char) : bool :=
  match todecimal c with Some _ => true | None => false end.

(** [s.upper()] and [s.lower()]. *)
Definition upper (s : str) : str :=
  if forallb is_ascii s then map ascii_upper s else upper_ext py s.
Definition lower (s : str) : str :=
  if forallb is_ascii s then map ascii_lower s else lower_ext py s.

(** The check of a conversion of [n] digits against the digit limit; the
    interpreter only looks at the limit above 640 digits. *)
Definition over_digit_limit (n : nat) : bool :=
  (640 <? n)%nat && (0 <? int_max_str_digits py)%nat
  && (int_max_str_digits py <? n)%nat.

Fixpoint digits_value (acc : Z) (s : str) : option Z :=
  match s with
  | [] => Some acc
  | c :: s' => match todecimal c with
               | Some d => digits_value (10 * acc + d) s'
               | None => None
               end
  end.

(** [int(s)] of a string.  The detector passes a run of [\d] characters; the
    signs, blanks and underscores [int] accepts besides are not modelled and
    fall under the error case. *)
Definition int_of_str (s : str) : result Z :=
  match s with
  | [] => Raise ValueError
  | _ => match digits_value 0 s with
         | None => Raise ValueError
         | Some v => if over_digit_limit (length s) then Raise ValueError
                     else Ok v
         end
  end.

(** [str(z)], the decimal numeral of an [int]. *)
Definition decimal_digits (z : Z) : str :=
  ustr (NilZero.string_of_uint (N.to_uint (Z.abs_N z))).

Definition str_of_int (z : Z) : result str :=
  let ds := decimal_digits z in
  if over_digit_limit (length ds) then Raise ValueError
  else Ok (if (z <? 0)%Z then ustr "-" ++ ds else ds).

(** [s * n].  The count has to fit an index, or [OverflowError] is raised.
    A count below 1 gives the empty string and a count of 1 the string
    itself.  Otherwise the length of the product has to fit an index too
    ([OverflowError] again), and the process has to be granted the memory
    for it ([MemoryError]). *)
Definition str_mul (s : str) (n : Z) : result str :=
  let top := Z.of_N (maxsize py) in
  if ((n <? - top - 1) || (top <? n))%Z then Raise OverflowError
  else if (n <? 1)%Z then Ok []
  else if (n =? 1)%Z then Ok s
  else match s with
       | [] => Ok []
       | _ :: _ =>
           if (top / n <? Z.of_nat (length s))%Z then Raise OverflowError
           else if grants py (Z.of_nat (length s) * n)%Z
                then Ok (concat (repeat s (Z.to_nat n)))
                else Raise MemoryError
       end.

(** The f-string [f"{indent}..."]: the parts are joined into a new string,
    whose length has to fit an index ([OverflowError]) and for which the
    process has to be granted the memory ([MemoryError]).  Memory for
    strings of the length of the arguments is taken for granted, here as
    everywhere in the module: the check bears on a line that holds an
    indentation of two levels or more, the one string whose length no
    argument bounds. *)
Definition fstring (indent tail : str) : result str :=
  let n := Z.of_nat (length indent + length tail) in
  if (length indent <=? 4)%nat then Ok (indent ++ tail)
  else if (Z.of_N (maxsize py) <? n)%Z then Raise OverflowError
  else if grants py n then Ok (indent ++ tail)
  else Raise MemoryError.

End Runtime.

(** [ord(s)]: the code point of a string of length one. *)
Definition ord (s : str) : result Z :=
  match s with
  | [c] => Ok (Z.of_N c)
  | _ => Raise TypeError
  end.

(** [chr(i)]: the argument is read as a C [int] first, and then has to be in
    [range(0x110000)]. *)
Definition chr (i : Z) : result char :=
  if ((i <? - 2 ^ 31) || (2 ^ 31 <=? i))%Z then Raise OverflowError
  else if ((0 <=? i) && (i <? 1114112))%Z then Ok (Z.to_N i)
  else Raise ValueError.

(** *** The coordinate

    [x_coord] is annotated [float] and defaults to the [int] 0.  A finite
    float is kept as the dyadic rational [m * 2^e] it denotes. *)
Inductive pyfloat :=
| Fnan
| Finf (negative : bool)
| Ffin (m e : Z).

Inductive number :=
| PyInt (z : Z)
| PyFloat (f : pyfloat).

(** [bool(x)]: zero is false, NaN and the infinities are true. *)
Definition truthy (x : number) : bool :=
  match x with
  | PyInt z => negb (z =? 0)%Z
  | PyFloat (Ffin m _) => negb (m =? 0)%Z
  | PyFloat _ => true
  end.

(** The value [m * 2^e] as a fraction: its numerator and denominator. *)
Definition fnum (m e : Z) : Z := (if 0 <=? e then m * 2 ^ e else m)%Z.
Definition fden (e : Z) : Z := (if 0 <=? e then 1 else 2 ^ (- e))%Z.

(** The integer nearest to [n / d], for [0 <= n] and [0 < d]; of two
    nearest, the even one. *)
Definition round_half_even (n d : Z) : Z :=
  (let f := n / d in
   let r := n mod d in
   if 2 * r <? d then f
   else if d <? 2 * r then f + 1
   else if Z.even f then f else f + 1)%Z.

(** The binary64 nearest to the fraction [n / d] (ties to even), as the
    pair [(m, e)] of the value [m * 2^e], for a fraction that is 0 or of
    magnitude from 1 to below 2^1024: 53 significant bits are kept.  The
    float operations below round nothing else: what they compute from a
    binary64 is an integer, or a quotient or a difference of magnitude at
    least 1 and at most that of the operand plus 1, so that neither the
    subnormal range nor an overflow is met. *)
Definition round53 (n d : Z) : Z * Z :=
  (if n =? 0 then (0, 0)
   else
     let a := Z.abs n in
     let k := Z.log2 (a / d) - 52 in
     (Z.sgn n * (if 0 <=? k then round_half_even a (d * 2 ^ k)
                 else round_half_even (a * 2 ^ (- k)) d), k))%Z.

(** [x // 40] of a finite [float] [x = m * 2^e]: the interpreter converts
    40 to 40.0 and computes, in binary64 ([float_floor_div] through
    [_float_div_mod]),

    - [mod = fmod(x, 40.0)], which is exact and has the sign of [x]: with
      [t] the quotient truncated towards zero, [mod = x - 40 * t];
    - [div = (x - mod) / 40.0], a subtraction and a division, each rounded;
    - [div -= 1.0], rounded, when [mod] is not zero and negative (its sign
      differs from that of the divisor);
    - when [div] is not zero, [floor(div)], which is exact, and that floor
      plus 1.0, rounded, when [div - floor(div) > 0.5]; a zero otherwise.

    The sign of a zero does not show in what [int] makes of the result. *)
Definition float_floordiv40 (m e : Z) : Z * Z :=
  (let n := fnum m e in
   let d := fden e in
   let t := Z.quot n (40 * d) in
   let '(m1, e1) := round53 (40 * t) 1 in
   let '(m2, e2) := round53 (fnum m1 e1) (40 * fden e1) in
   let '(m3, e3) := if n - 40 * d * t <? 0
                    then round53 (fnum m2 e2 - fden e2) (fden e2)
                    else (m2, e2) in
   if m3 =? 0 then (0, 0)
   else
     let fl := fnum m3 e3 / fden e3 in
     if fden e3 <? 2 * (fnum m3 e3 - fl * fden e3) then round53 (fl + 1) 1
     else (fl, 0))%Z.

(** [x // 40].  On [int] it is floor division; on [float] the quotient of a
    NaN or an infinity is NaN, and that of a finite value is the binary64
    above. *)
Definition floordiv40 (x : number) : number :=
  match x with
  | PyInt z => PyInt (z / 40)
  | PyFloat (Ffin m e) =>
      let '(q, k) := float_floordiv40 m e in PyFloat (Ffin q k)
  | PyFloat _ => PyFloat Fnan
  end.

(** [int(f)] of the finite float [m * 2^e]: truncation towards zero. *)
Definition float_trunc (m e : Z) : Z :=
  (if 0 <=? e then m * 2 ^ e else Z.quot m (2 ^ (- e)))%Z.

(** [int(x)] of a number: truncation of a finite float, an error on the
    others. *)
Definition int_of_number (x : number) : result Z :=
  match x with
  | PyInt z => Ok z
  | PyFloat (Ffin m e) => Ok (float_trunc m e)
  | PyFloat (Finf _) => Raise OverflowError
  | PyFloat Fnan => Raise ValueError
  end.

(** ** Regular expressions

    The fragment of [re] syntax the patterns are written in.  A group carries
    its number. *)
Inductive regex :=
| Bol                                       (* ^ *)
| Cls (p : char -> bool)                    (* a character or a class *)
| Cat (r1 r2 : regex)                       (* r1 r2 *)
| Alt (r1 r2 : regex)                       (* r1 | r2 *)
| Rep (r : regex) (lo : nat) (hi : option nat) (greedy : bool)
                                            (* r{lo,hi}, r{lo,hi}? *)
| Grp (i : nat) (r : regex)                 (* ( r ) *)
| Ahead (r : regex).                        (* (?= r ) *)

(** Where the matcher stands: the position, the text from there on, and the
    spans of the groups closed so far (the last one first). *)
Record cursor := {
  at_pos : nat;
  rest : str;
  caps : list (nat * (nat * nat))
}.

Definition advance (c : cursor) (s : str) : cursor :=
  {| at_pos := S (at_pos c); rest := s; caps := caps c |}.
Definition close_group (i : nat) (c0 c1 : cursor) : cursor :=
  {| at_pos := at_pos c1; rest := rest c1;
     caps := (i, (at_pos c0, at_pos c1)) :: caps c1 |}.
Definition look_back (c0 c1 : cursor) : cursor :=
  {| at_pos := at_pos c0; rest := rest c0; caps := caps c1 |}.

Definition below (n : nat) (hi : option nat) : bool :=
  match hi with
  | None => true
  | Some h => (n <? h)%nat
  end.

(** A repetition [body{lo,hi}] followed by [k], after [n] iterations: a
    greedy one tries one more iteration before it tries to stop, a lazy one
    the reverse.  [fuel] bounds the iterations still to make. *)
Section Repetition.

Variable R : Type.
Variable body : cursor -> (cursor -> option R) -> option R.
Variables (lo : nat) (hi : option nat) (greedy : bool).
Variable k : cursor -> option R.

Fixpoint rep_loop (fuel n : nat) (c : cursor) {struct fuel} : option R :=
  let stop (_ : unit) := if (lo <=? n)%nat then k c else None in
  let more (_ : unit) :=
    match fuel with
    | O => None
    | S fuel' =>
        if below n hi then body c (fun c1 => rep_loop fuel' (S n) c1)
        else None
    end in
  if greedy then
    match more tt with
    | Some x => Some x
    | None => stop tt
    end
  else
    match stop tt with
    | Some x => Some x
    | None => more tt
    end.

End Repetition.

(** The backtracking matcher, in continuation-passing style: [exec r c k] is
    the first success, in the order [re] tries them, of matching [r] at [c]
    and then [k] from where [r] stopped.  A repetition makes at most as many
    iterations as there are characters left, which is all of them when each
    iteration consumes a character, as in every pattern below. *)
Fixpoint exec (r : regex) (R : Type) (c : cursor) (k : cursor -> option R)
  {struct r} : option R :=
  match r with
  | Bol => if (at_pos c =? 0)%nat then k c else None
  | Cls p =>
      match rest c with
      | x :: s => if p x then k (advance c s) else None
      | [] => None
      end
  | Cat r1 r2 => exec r1 c (fun c1 => exec r2 c1 k)
  | Alt r1 r2 =>
      match exec r1 c k with
      | Some x => Some x
      | None => exec r2 c k
      end
  | Grp i r1 => exec r1 c (fun c1 => k (close_group i c c1))
  | Ahead r1 =>
      match exec r1 c (fun c1 => Some c1) with
      | Some c1 => k (look_back c c1)
      | None => None
      end
  | Rep r1 lo hi greedy =>
      rep_loop (fun c1 k1 => exec r1 c1 k1) lo hi greedy k
               (length (rest c)) O c
  end.

(** A match object: the text, where the match ends, and the groups. *)
Record Match := {
  m_string : str;
  m_end : nat;
  m_groups : list (nat * (nat * nat))
}.

Definition start (text : str) : cursor :=
  {| at_pos := 0; rest := text; caps := [] |}.

(** [pattern.match(text)]: a match that starts at position 0. *)
Definition re_match (r : regex) (text : str) : option Match :=
  exec r (start text)
       (fun c => Some {| m_string := text; m_end := at_pos c;
                         m_groups := caps c |}).

Fixpoint span_of (i : nat) (l : list (nat * (nat * nat))) : option (nat * nat) :=
  match l with
  | [] => None
  | (j, sp) :: l' => if (i =? j)%nat then Some sp else span_of i l'
  end.

(** [match.group(0)], the text matched, and [match.end()]. *)
Definition group0 (m : Match) : str := firstn (m_end m) (m_string m).

(** [match.group(i)]; [None] is Python's [None], of a group that took no part
    in the match. *)
Definition group (m : Match) (i : nat) : option str :=
  match i with
  | O => Some (group0 m)
  | _ => match span_of i (m_groups m) with
         | Some (a, b) => Some (slice (m_string m) a b)
         | None => None
         end
  end.

Declare Scope re_scope.
Delimit Scope re_scope with re.
Bind Scope re_scope with regex.
Notation "r1 >> r2" := (Cat r1 r2)
  (at level 41, right associativity) : re_scope.
Notation "r1 <|> r2" := (Alt r1 r2)
  (at level 42, right associativity) : re_scope.

Definition lit (a : ascii) : regex := Cls (N.eqb (uchr a)).
Definition one_of (s : str) : regex := Cls (contains s).
Definition lazy_star (r : regex) : regex := Rep r 0 None false.
Definition plus (r : regex) : regex := Rep r 1 None true.
Definition opt (r : regex) : regex := Rep r 0 (Some 1%nat) true.
Definition up_to (n : nat) (r : regex) : regex := Rep r 0 (Some n) true.
Definition space : regex := Cls isspace.

(** ** The data model *)

Inductive ListType := NONE | BULLET | NUMBERED | LETTERED | ROMAN.

Definition ListType_eqb (a b : ListType) : bool :=
  match a, b with
  | NONE, NONE | BULLET, BULLET | NUMBERED, NUMBERED
  | LETTERED, LETTERED | ROMAN, ROMAN => true
  | _, _ => false
  end.

Module ListItemInfo.

Record t := {
  item_type : ListType;
  marker : str;
  content : str;
  level : Z;
  index : Z;
  is_continuation : bool
}.

End ListItemInfo.

Import ListItemInfo.
Abbreviation ListItemInfo := ListItemInfo.t.

(** ** ListDetector *)

(** The characters of the class of the bullet pattern, as the source lists
    them, and the members of the set [BULLET_CHARS]. *)
Definition bullet_class : str :=
  [8226; 45; 42; 9679; 9675; 9632; 9642; 9643; 8227; 8259; 8268; 8269;
   10686; 10687; 43]%N.

Definition BULLET_CHARS : list char :=
  [8226; 9679; 9675; 9632; 9642; 9643; 8227; 8259; 8268; 8269; 10686; 10687;
   45; 42; 43]%N.

Definition letter (c : char) : bool := between "a" "z" c || between "A" "Z" c.

(** The tail every pattern ends with: [[\.\)]\s+]. *)
Definition dot_or_paren : regex := one_of (ustr ".)").

Section Detector.

Variable py : Interp.

Open Scope re_scope.

(** [^[\s]*?([...])\s+] *)
Definition BULLET_PATTERN : regex :=
  Bol >> lazy_star space >> Grp 1 (one_of bullet_class) >> plus space.

(** [^[\s]*?(\d+)[\.\)]\s+] *)
Definition NUMBERED_PATTERN : regex :=
  Bol >> lazy_star space >> Grp 1 (plus (Cls (isdecimal py)))
      >> dot_or_paren >> plus space.

(** [^[\s]*?([a-zA-Z])[\.\)]\s+] *)
Definition LETTERED_PATTERN : regex :=
  Bol >> lazy_star space >> Grp 1 (Cls letter) >> dot_or_paren >> plus space.

(** [^[\s]*?(?=[MDCLXVI])(M{0,4}(CM|CD|D?C{0,3})(XC|XL|L?X{0,3})(IX|IV|V?I{0,3}))[\.\)]\s+] *)
Definition ROMAN_PATTERN : regex :=
  Bol >> lazy_star space >> Ahead (one_of (ustr "MDCLXVI"))
      >> Grp 1 (up_to 4 (lit "M")
                >> Grp 2 (lit "C" >> lit "M" <|> lit "C" >> lit "D"
                          <|> opt (lit "D") >> up_to 3 (lit "C"))
                >> Grp 3 (lit "X" >> lit "C" <|> lit "X" >> lit "L"
                          <|> opt (lit "L") >> up_to 3 (lit "X"))
                >> Grp 4 (lit "I" >> lit "X" <|> lit "I" >> lit "V"
                          <|> opt (lit "V") >> up_to 3 (lit "I")))
      >> dot_or_paren >> plus space.

(** The dictionary [PATTERNS], in insertion order, which is the order
    [.items()] yields. *)
Definition PATTERNS : list (ListType * regex) :=
  [ (BULLET, BULLET_PATTERN);
    (NUMBERED, NUMBERED_PATTERN);
    (LETTERED, LETTERED_PATTERN);
    (ROMAN, ROMAN_PATTERN) ].

Close Scope re_scope.

Definition roman_numerals : list (char * Z) :=
  [ (uchr "I", 1); (uchr "V", 5); (uchr "X", 10); (uchr "L", 50);
    (uchr "C", 100); (uchr "D", 500); (uchr "M", 1000) ]%Z.

(** [d.get(c, default)] *)
Fixpoint dict_get (d : list (char * Z)) (c : char) (default : Z) : Z :=
  match d with
  | [] => default
  | (k, v) :: d' => if (k =? c)%N then v else dict_get d' c default
  end.

(** One turn of the loop of [_roman_to_int] on the pair
    [(result, prev_value)]. *)
Definition roman_step (st : Z * Z) (ch : char) : Z * Z :=
  let value := dict_get roman_numerals ch 0 in
  ((if (value <? snd st)%Z then fst st - value else fst st + value)%Z, value).

Definition _roman_to_int (roman : str) : Z :=
  fst (fold_left roman_step (rev (upper py roman)) (0, 0)%Z).

Definition val : list Z :=
  [1000; 900; 500; 400; 100; 90; 50; 40; 10; 9; 5; 4; 1]%Z.

Definition syb : list str :=
  map ustr ["M"; "CM"; "D"; "CD"; "C"; "XC"; "L"; "XL"; "X"; "IX"; "V"; "IV";
            "I"]%string.

(** The [for] loop of [_int_to_roman]: [n] turns, each appending the symbol
    and subtracting its value. *)
Definition for_range (n : nat) (v : Z) (s : str) (st : str * Z) : str * Z :=
  Nat.iter n (fun st => (fst st ++ s, snd st - v)%Z) st.

(** The [while] loop of [_int_to_roman].  The index [i] only grows by one a
    turn, so the loop is written on what is left of the two tables,
    [val[i:]] and [syb[i:]]; reading past their end is the [IndexError] of
    [val[i]]. *)
Fixpoint int_to_roman_loop (vs : list Z) (ss : list str) (num : Z)
  (roman_num : str) : result str :=
  if (num >? 0)%Z then
    match vs, ss with
    | v :: vs', s :: ss' =>
        let st := for_range (Z.to_nat (num / v)) v s (roman_num, num) in
        int_to_roman_loop vs' ss' (snd st) (fst st)
    | _, _ => Raise IndexError
    end
  else Ok roman_num.

Definition _int_to_roman (num : Z) : result str :=
  int_to_roman_loop val syb num [].

(** The index of a matched item, by kind. *)
Definition index_of (list_type : ListType) (m : Match) : result Z :=
  if ListType_eqb list_type NUMBERED then
    match group m 1 with
    | Some g => int_of_str py g
    | None => Raise TypeError
    end
  else if ListType_eqb list_type LETTERED then
    match group m 1 with
    | Some g => o <- ord (lower py g) ;; Ok (o - 97 + 1)%Z
    | None => Raise AttributeError
    end
  else if ListType_eqb list_type ROMAN then
    match group m 1 with
    | Some g => Ok (_roman_to_int (upper py g))
    | None => Raise AttributeError
    end
  else Ok 0%Z.

(** The loop over [PATTERNS.items()]: [None] when it runs to its end, the
    value (or the exception) of the first pattern that matches otherwise. *)
Fixpoint try_patterns (ps : list (ListType * regex)) (text : str) (lvl : Z)
  : option (result ListItemInfo) :=
  match ps with
  | [] => None
  | (list_type, pattern) :: ps' =>
      match re_match pattern text with
      | Some m =>
          let marker := strip (group0 m) in
          let content := strip (skipn (m_end m) text) in
          Some (index <- index_of list_type m ;;
                Ok {| item_type := list_type; marker := marker;
                      content := content; level := lvl; index := index;
                      is_continuation := false |})
      | None => try_patterns ps' text lvl
      end
  end.

(** The loop over [BULLET_CHARS], in the order [bs]. *)
Fixpoint scan_bullets (bs : list char) (text first_non_space : str) (lvl : Z)
  : option ListItemInfo :=
  match bs with
  | [] => None
  | bullet :: bs' =>
      if contains first_non_space bullet then
        match str_find text bullet with
        | Some bullet_pos =>
            Some {| item_type := BULLET;
                    marker := firstn (bullet_pos + 1) text;
                    content := strip (skipn (bullet_pos + 1) text);
                    level := lvl; index := 0;
                    is_continuation := false |}
        | None => scan_bullets bs' text first_non_space lvl
        end
      else scan_bullets bs' text first_non_space lvl
  end.

(** [int(x_coord // 40) if x_coord else 0]; nothing in it depends on the
    interpreter. *)
Definition level_of (py : Interp) (x_coord : number) : result Z :=
  if truthy x_coord then int_of_number (floordiv40 x_coord) else Ok 0%Z.

Definition detect_list_item (text : str) (x_coord : number)
  : result (option ListItemInfo) :=
  match text with
  | [] => Ok None
  | _ =>
      match strip text with
      | [] => Ok None
      | _ =>
          lvl <- level_of py x_coord ;;
          match try_patterns PATTERNS text lvl with
          | Some r => item <- r ;; Ok (Some item)
          | None =>
              Ok (scan_bullets (set_iter py) text
                               (firstn 10 (lstrip text)) lvl)
          end
      end
  end.

(** [reconstruct_list_text]; [target_lang] defaults to ["en"]. *)
Definition reconstruct_list_text (list_info : ListItemInfo)
  (translated_content : str) (target_lang : str) : result str :=
  indent <- str_mul py (ustr "    ") (level list_info) ;;
  if ListType_eqb (item_type list_info) BULLET then
    fstring py indent ([8226%N] ++ ustr " " ++ translated_content)
  else if ListType_eqb (item_type list_info) NUMBERED then
    idx <- str_of_int py (index list_info) ;;
    fstring py indent (idx ++ ustr ". " ++ translated_content)
  else if ListType_eqb (item_type list_info) LETTERED then
    ltr <- chr (97 + index list_info - 1) ;;
    fstring py indent ([ltr] ++ ustr ". " ++ translated_content)
  else if ListType_eqb (item_type list_info) ROMAN then
    roman <- _int_to_roman (index list_info) ;;
    fstring py indent (roman ++ ustr ". " ++ translated_content)
  else fstring py indent translated_content.

End Detector.

(** ** ListGroup *)

Module ListGroup.

Record t := {
  items : list ListItemInfo;
  list_type : ListType;
  level : Z
}.

Definition add_item (self : t) (item : ListItemInfo) : t :=
  {| items := items self ++ [item];
     list_type := list_type self;
     level := level self |}.

Definition is_continuation (self : t) (item : ListItemInfo) : bool :=
  ListType_eqb (item_type item) (list_type self)
  && (ListItemInfo.level item =? level self)%Z.

End ListGroup.

(** An interpreter to run examples on: the default digit limit, the set
    iterated in the order the source writes it, nothing known of Unicode
    beyond ASCII, the indices of a 64-bit platform and memory for strings
    of up to 2^32 characters. *)
Definition py0 : Interp :=
  {| int_max_str_digits := 4300;
     decimal_ext := fun _ => None;
     upper_ext := fun s => s;
     lower_ext := fun s => s;
     set_iter := BULLET_CHARS;
     maxsize := 9223372036854775807;
     grants := fun n => (n <=? 4294967296)%Z |}.

(** The round trip of one number through the two Roman conversions, as a
    check that can be run. *)
Definition roman_round_trip_at (py : Interp) (n : nat) : bool :=
  match _int_to_roman (Z.of_nat n) with
  | Ok r => (_roman_to_int py r =? Z.of_nat n)%Z
  | Raise _ => false
  end.

(** No glyph of [BULLET_CHARS] occurs in the window [w]; none but [b] does. *)
Definition no_glyph (w : str) : bool :=
  forallb (fun b => negb (contains w b)) BULLET_CHARS.
Definition only_glyph (b : char) (w : str) : bool :=
  contains w b && forallb (fun b' => implb (contains w b') (b' =? b)%N) BULLET_CHARS.

(** ** What a pattern matches

    The declarative reading of the syntax: [matches r c c'] when [r] can
    take the matcher from the cursor [c] to the cursor [c'].  The matcher
    returns one of these, chosen by its priorities. *)
Inductive iter (M : cursor -> cursor -> Prop) : nat -> cursor -> cursor -> Prop :=
| iter_O c : iter M 0 c c
| iter_S n c c1 c2 : M c c1 -> iter M n c1 c2 -> iter M (S n) c c2.

Definition within (n : nat) (hi : option nat) : Prop :=
  match hi with
  | None => True
  | Some h => n <= h
  end.

#[warnings="-register-all"]
Inductive matches : regex -> cursor -> cursor -> Prop :=
| M_bol c : at_pos c = 0 -> matches Bol c c
| M_cls p c x s :
    rest c = x :: s -> p x = true -> matches (Cls p) c (advance c s)
| M_cat r1 r2 c c1 c2 :
    matches r1 c c1 -> matches r2 c1 c2 -> matches (Cat r1 r2) c c2
| M_alt_l r1 r2 c c1 : matches r1 c c1 -> matches (Alt r1 r2) c c1
| M_alt_r r1 r2 c c1 : matches r2 c c1 -> matches (Alt r1 r2) c c1
| M_grp i r c c1 : matches r c c1 -> matches (Grp i r) c (close_group i c c1)
| M_ahead r c c1 : matches r c c1 -> matches (Ahead r) c (look_back c c1)
| M_rep r lo hi g n c c1 :
    lo <= n -> within n hi -> iter (matches r) n c c1 ->
    matches (Rep r lo hi g) c c1.

(** The cursor [c] stands in [text]. *)
Definition stands_in (text : str) (c : cursor) : Prop :=
  at_pos c <= length text /\ rest c = skipn (at_pos c) text.

Fixpoint groupless (r : regex) : bool :=
  match r with
  | Bol | Cls _ => true
  | Cat r1 r2 | Alt r1 r2 => groupless r1 && groupless r2
  | Rep r1 _ _ _ | Ahead r1 => groupless r1
  | Grp _ _ => false
  end.

(** A pattern that takes at least one character whenever it matches. *)
Fixpoint consuming (r : regex) : bool :=
  match r with
  | Cls _ => true
  | Cat r1 r2 => consuming r1 || consuming r2
  | Alt r1 r2 => consuming r1 && consuming r2
  | Grp _ r1 => consuming r1
  | Rep r1 lo _ _ => (0 <? lo)%nat && consuming r1
  | Bol | Ahead _ => false
  end.

(** The patterns on which the matcher is complete: what a repetition
    iterates takes a character, and a look-ahead closes no group. *)
Fixpoint steady (r : regex) : bool :=
  match r with
  | Bol | Cls _ => true
  | Cat r1 r2 | Alt r1 r2 => steady r1 && steady r2
  | Grp _ r1 => steady r1
  | Rep r1 _ _ _ => steady r1 && consuming r1
  | Ahead r1 => steady r1 && groupless r1
  end.

(** ** The vocabulary of the properties *)

Definition starts_blank (s : str) : bool :=
  match s with
  | c :: _ => isspace c
  | [] => false
  end.

(** A string with no blank at either end. *)
Definition trimmed (s : str) : Prop :=
  starts_blank s = false /\ starts_blank (rev s) = false.

(** A string that is empty or made of blanks only. *)
Definition blank (s : str) : Prop := forallb isspace s = true.

(** [l] is the floor of [x / 40]: [40 * l <= x < 40 * (l + 1)]. *)
Definition floor_div_40 (x : number) (l : Z) : Prop :=
  match x with
  | PyInt z => (40 * l <= z < 40 * (l + 1))%Z
  | PyFloat (Ffin m e) =>
      if (0 <=? e)%Z then (40 * l <= m * 2 ^ e < 40 * (l + 1))%Z
      else (40 * l * 2 ^ (- e) <= m < 40 * (l + 1) * 2 ^ (- e))%Z
  | PyFloat _ => False
  end.

(** An [int], or a finite [float]. *)
Definition finite (x : number) : Prop :=
  match x with
  | PyInt _ | PyFloat (Ffin _ _) => True
  | PyFloat _ => False
  end.

(** [|m * 2^e| < 2^53]: the floats on which the quotient by 40 is computed
    without rounding. *)
Definition exact53 (m e : Z) : bool :=
  (if 0 <=? e then Z.abs m * 2 ^ e <? 2 ^ 53
   else Z.abs m <? 2 ^ 53 * 2 ^ (- e))%Z.

(** The floor of [m * 2^e / d]. *)
Definition dyadic_floor_div (m e d : Z) : Z :=
  (if 0 <=? e then (m * 2 ^ e) / d else m / (d * 2 ^ (- e)))%Z.

(** An [int], or a [float] of magnitude below 2^53. *)
Definition in_exact_range (x : number) : Prop :=
  match x with
  | PyInt _ => True
  | PyFloat (Ffin m e) => exact53 m e = true
  | PyFloat _ => False
  end.

(** [0 <= x] *)
Definition nonneg (x : number) : Prop :=
  match x with
  | PyInt z => (0 <= z)%Z
  | PyFloat (Ffin m _) => (0 <= m)%Z
  | PyFloat (Finf negative) => negative = false
  | PyFloat Fnan => False
  end.

(** ** Further vocabulary *)

Definition roman_letter (c : char) : bool := contains (ustr "MDCLXVI") c.

(** The numerals below one thousand round-trip, and are written with the
    seven Roman letters only; a check that can be run. *)
Definition roman_below_1000_at (py : Interp) (n : nat) : bool :=
  match _int_to_roman (Z.of_nat n) with
  | Ok r => forallb roman_letter r && (_roman_to_int py r =? Z.of_nat n)%Z
  | Raise _ => false
  end.

(** A pattern with no look-ahead: what it matches is what it consumes. *)
Fixpoint aheadless (r : regex) : bool :=
  match r with
  | Bol | Cls _ => true
  | Cat r1 r2 | Alt r1 r2 => aheadless r1 && aheadless r2
  | Rep r1 _ _ _ | Grp _ r1 => aheadless r1
  | Ahead _ => false
  end.

(** The interpreter's table of decimal digits outside ASCII gives values
    from 0 to 9 and holds no blank, as the Unicode database does (the
    category Nd is disjoint from the blanks). *)
Definition decimals_sound (py : Interp) : Prop :=
  forall c v, decimal_ext py c = Some v ->
              (0 <= v <= 9)%Z /\ isspace c = false.

(** The decimal digit of value [v], put before the numeral [u]. *)
Definition digit_before (v : Z) (u : Decimal.uint) : Decimal.uint :=
  match v with
  | 0%Z => Decimal.D0 u
  | 1%Z => Decimal.D1 u
  | 2%Z => Decimal.D2 u
  | 3%Z => Decimal.D3 u
  | 4%Z => Decimal.D4 u
  | 5%Z => Decimal.D5 u
  | 6%Z => Decimal.D6 u
  | 7%Z => Decimal.D7 u
  | 8%Z => Decimal.D8 u
  | _ => Decimal.D9 u
  end.

(** The words of one decimal place of a Roman numeral, written with the
    letters for one, five and ten of that place: [IX], [IV], and up to one
    [V] before up to three [I]. *)
Definition digit_words (one five ten : ascii) : list str :=
  let o := uchr one in
  let f := uchr five in
  [ [o; uchr ten]; [o; f];
    []; [o]; [o; o]; [o; o; o];
    [f]; [f; o]; [f; o; o]; [f; o; o; o] ].

Definition thousand_words : list str :=
  let m := uchr "M" in [ []; [m]; [m; m]; [m; m; m]; [m; m; m; m] ].

(** The words the group of [ROMAN_PATTERN] can take. *)
Definition roman_words : list str :=
  flat_map (fun m =>
    flat_map (fun h =>
      flat_map (fun t =>
        map (fun o => m ++ h ++ t ++ o) (digit_words "I" "V" "X"))
        (digit_words "X" "L" "C"))
      (digit_words "C" "D" "M"))
    thousand_words.

Fixpoint str_eqb (a b : str) : bool :=
  match a, b with
  | [], [] => true
  | x :: a', y :: b' => (x =? y)%N && str_eqb a' b'
  | _, _ => false
  end.

(** A word of the pattern reads as a number from 1 to 4999 that writes back
    as the same word; a check that can be run. *)
Definition roman_word_ok (py : Interp) (w : str) : bool :=
  match w with
  | [] => true
  | _ =>
      let v := _roman_to_int py (upper py w) in
      (1 <=? v)%Z && (v <=? 4999)%Z && negb (starts_blank w)
      && match _int_to_roman v with
         | Ok w' => str_eqb w' w
         | Raise _ => false
         end
  end.

(** The numbers whose Roman numeral is one letter. *)
Definition one_letter_numerals : list Z := [1; 5; 10; 50; 100; 500; 1000]%Z.

(** The word of the decimal digit [d] of one place, written with the
    letters for one, five and ten of that place. *)
Definition digit_word (one five ten : ascii) (d : Z) : str :=
  let o := uchr one in
  let f := uchr five in
  match d with
  | 1 => [o]
  | 2 => [o; o]
  | 3 => [o; o; o]
  | 4 => [o; f]
  | 5 => [f]
  | 6 => [f; o]
  | 7 => [f; o; o]
  | 8 => [f; o; o; o]
  | 9 => [o; uchr ten]
  | _ => []
  end%Z.

(** The numeral of [n] written place by place: an [M] for each thousand,
    then the hundreds, the tens and the units. *)
Definition numeral_by_places (n : Z) : str :=
  repeat (uchr "M") (Z.to_nat (n / 1000))
  ++ digit_word "C" "D" "M" (n / 100 mod 10)
  ++ digit_word "X" "L" "C" (n / 10 mod 10)
  ++ digit_word "I" "V" "X" (n mod 10).

(** [_int_to_roman] writes [n] place by place; a check that can be run. *)
Definition written_by_places (n : nat) : bool :=
  match _int_to_roman (Z.of_nat n) with
  | Ok r => str_eqb r (numeral_by_places (Z.of_nat n))
  | Raise _ => false
  end.

(** The numeral of [n] is one letter or none exactly when [n] is one of
    the numbers above; a check that can be run. *)
Definition one_letter_at (n : nat) : bool :=
  Bool.eqb (length (numeral_by_places (Z.of_nat n)) <=? 1)%nat
           (existsb (Z.eqb (Z.of_nat n)) one_letter_numerals).

(** Every item of the group has the kind and the level of the group. *)
Definition homogeneous (g : ListGroup.t) : Prop :=
  Forall (fun i => item_type i = ListGroup.list_type g
                   /\ level i = ListGroup.level g)
         (ListGroup.items g).

(** The indentation of [lvl] levels can be built: the level fits an index
    and, from two levels on, so does the length of four characters a level,
    for which the process is granted the memory. *)
Definition indentable (py : Interp) (lvl : Z) : bool :=
  let top := Z.of_N (maxsize py) in
  ((- top - 1 <=? lvl) && (lvl <=? top)
   && ((lvl <=? 1) || ((4 * lvl <=? top) && grants py (4 * lvl))))%Z.

(** Four spaces a level, none below level 1. *)
Definition indentation (lvl : Z) : str := repeat 32%N (4 * Z.to_nat lvl).

(** The line of [lvl] levels of indentation and of [body] can be built: the
    indentation can and, from two levels on, the length of the line fits an
    index and the process is granted the memory for it. *)
Definition writable (py : Interp) (lvl : Z) (body : str) : bool :=
  let top := Z.of_N (maxsize py) in
  let len := (4 * lvl + Z.of_nat (length body))%Z in
  (indentable py lvl
   && ((lvl <=? 1) || ((len <=? top) && grants py len)))%Z.

(** What reconstruction does with an item: it writes the indentation and
    [body] when that line can be built, and raises [OverflowError] or
    [MemoryError] when it cannot. *)
Definition reconstructs (py : Interp) (item : ListItemInfo)
  (translated target body : str) : Prop :=
  if writable py (level item) body
  then reconstruct_list_text py item translated target
       = Ok (indentation (level item) ++ body)
  else exists e, (e = OverflowError \/ e = MemoryError)
                 /\ reconstruct_list_text py item translated target = Raise e.

(** [ds] is a run of decimal digits that stands in [text] after blanks only
    and before a dot or a closing parenthesis and a blank: what the numbered
    pattern captures, and the detector hands to [int]. *)
Definition numbered_head (py : Interp) (text ds : str) : Prop :=
  exists ws d w tl,
    text = ws ++ ds ++ d :: w :: tl /\ blank ws
    /\ ds <> [] /\ forallb (isdecimal py) ds = true
    /\ contains (ustr ".)") d = true /\ isspace w = true.

(** ** Strings *)

Ltac inv H := inversion H; subst; clear H.

Lemma dropwhile_all p s : forallb p s = true -> dropwhile p s = [].
Proof.
  induction s as [|c s IH]; simpl; [reflexivity|].
  destruct (p c); simpl; [assumption | discriminate].
Qed.

Lemma dropwhile_split p s :
  exists w, s = w ++ dropwhile p s /\ forallb p w = true.
Proof.
  induction s as [|c s [w [E F]]]; simpl.
  - exists []. split; reflexivity.
  - destruct (p c) eqn:Pc.
    + exists (c :: w). simpl. rewrite Pc, F. split; [f_equal; exact E | reflexivity].
    + exists []. split; reflexivity.
Qed.

Lemma dropwhile_head p s c t : dropwhile p s = c :: t -> p c = false.
Proof.
  induction s as [|x s IH]; simpl; [discriminate|].
  destruct (p x) eqn:Px; [exact IH|].
  intros E. injection E as -> _. exact Px.
Qed.

Lemma strip_blank s : blank s -> strip s = [].
Proof.
  unfold blank, strip, lstrip, rstrip. intros H.
  rewrite (dropwhile_all _ _ H). reflexivity.
Qed.

(** [s.rstrip()] keeps a prefix of [s]. *)
Lemma rstrip_prefix s : exists w, s = rstrip s ++ w /\ forallb isspace w = true.
Proof.
  unfold rstrip.
  destruct (dropwhile_split isspace (rev s)) as [w [E F]].
  exists (rev w). split.
  - rewrite <- rev_app_distr, <- E, rev_involutive. reflexivity.
  - rewrite forallb_forall in *. intros x Hx. apply F, in_rev, Hx.
Qed.

Lemma strip_trimmed s : trimmed (strip s).
Proof.
  unfold trimmed, strip. split.
  - destruct (rstrip_prefix (lstrip s)) as [w [E _]].
    destruct (rstrip (lstrip s)) as [|c t] eqn:R; [reflexivity|].
    simpl. simpl in E. unfold lstrip in E.
    apply (dropwhile_head _ _ E).
  - unfold rstrip. rewrite rev_involutive.
    destruct (dropwhile isspace (rev (lstrip s))) as [|c t] eqn:D; [reflexivity|].
    simpl. apply (dropwhile_head _ _ D).
Qed.

(** ** The matcher returns matches *)

Lemma rep_loop_sound R body lo hi g (k : cursor -> option R)
  (M : cursor -> cursor -> Prop) :
  (forall c k' x, body c k' = Some x -> exists c1, M c c1 /\ k' c1 = Some x) ->
  forall fuel n c x,
    within n hi ->
    rep_loop body lo hi g k fuel n c = Some x ->
    exists m c', iter M m c c' /\ lo <= n + m /\ within (n + m) hi
                 /\ k c' = Some x.
Proof.
  intros Hbody.
  assert (Hstop : forall n c x, within n hi ->
            (if (lo <=? n)%nat then k c else None) = Some x ->
            exists m c', iter M m c c' /\ lo <= n + m /\ within (n + m) hi
                         /\ k c' = Some x).
  { intros n c x W H. destruct (Nat.leb_spec lo n); [|discriminate].
    exists 0, c. rewrite Nat.add_0_r. repeat split; auto. constructor. }
  induction fuel as [|fuel IH]; intros n c x W H.
  - simpl in H. destruct g; [eauto|].
    destruct (if (lo <=? n)%nat then k c else None) eqn:E; [|discriminate].
    inv H. eauto.
  - assert (Hmore :
      (if below n hi
       then body c (fun c1 => rep_loop body lo hi g k fuel (S n) c1)
       else None) = Some x ->
      exists m c', iter M m c c' /\ lo <= n + m /\ within (n + m) hi
                   /\ k c' = Some x).
    { intros E. destruct (below n hi) eqn:B; [|discriminate].
      apply Hbody in E. destruct E as [c1 [M1 E]].
      apply IH in E.
      - destruct E as [m [c' [I [L [W' K]]]]].
        exists (S m), c'. rewrite Nat.add_succ_r.
        repeat split; auto. econstructor; eauto.
      - destruct hi as [h|]; simpl in *; [|exact I].
        apply Nat.ltb_lt in B. lia. }
    simpl in H. destruct g.
    + destruct (if below n hi then _ else None) eqn:E.
      * inv H. auto.
      * eauto.
    + destruct (if (lo <=? n)%nat then k c else None) eqn:E.
      * inv H. eauto.
      * auto.
Qed.

Lemma exec_sound r : forall R c (k : cursor -> option R) x,
  exec r c k = Some x -> exists c', matches r c c' /\ k c' = Some x.
Proof.
  induction r as [|p|r1 IH1 r2 IH2|r1 IH1 r2 IH2|r1 IH1 lo hi g|i r1 IH1|r1 IH1];
    intros R c k x H; simpl in H.
  - destruct (Nat.eqb_spec (at_pos c) 0); [|discriminate].
    exists c. split; [constructor|]; assumption.
  - destruct (rest c) as [|y s] eqn:E; [discriminate|].
    destruct (p y) eqn:P; [|discriminate].
    exists (advance c s). split; [econstructor; eauto | assumption].
  - apply IH1 in H. destruct H as [c1 [M1 H]].
    apply IH2 in H. destruct H as [c2 [M2 H]].
    exists c2. split; [econstructor; eauto | assumption].
  - destruct (exec r1 c k) eqn:E.
    + inv H. apply IH1 in E. destruct E as [c1 [M1 E]].
      exists c1. split; [apply M_alt_l|]; assumption.
    + apply IH2 in H. destruct H as [c1 [M1 E']].
      exists c1. split; [apply M_alt_r|]; assumption.
  - apply rep_loop_sound with (M := matches r1) in H.
    + destruct H as [m [c' [I [L [W K]]]]]. simpl in L, W.
      exists c'. split; [econstructor; eauto | assumption].
    + intros c0 k' x0 E. apply IH1 in E. exact E.
    + destruct hi; simpl; [lia | exact I].
  - apply IH1 in H. destruct H as [c1 [M1 H]].
    exists (close_group i c c1). split; [constructor|]; assumption.
  - destruct (exec r1 c (fun c1 => Some c1)) as [c1|] eqn:E; [|discriminate].
    apply IH1 in E. destruct E as [c' [M1 E]]. inv E.
    exists (look_back c c1). split; [constructor|]; assumption.
Qed.

Lemma re_match_sound r text m :
  re_match r text = Some m ->
  exists c, matches r (start text) c /\ m_string m = text
            /\ m_end m = at_pos c /\ m_groups m = caps c.
Proof.
  unfold re_match. intros H. apply exec_sound in H.
  destruct H as [c [M E]]. inv E. exists c. simpl. auto.
Qed.

(** ** Cursors along a match *)

Lemma skipn_step (a : nat) : forall (l : str) x s,
  skipn a l = x :: s -> skipn (S a) l = s /\ a < length l.
Proof.
  induction a as [|a IH]; intros [|y l] x s E; simpl in E; try discriminate.
  - inv E. simpl. split; [reflexivity | lia].
  - apply IH in E. destruct E as [E L]. simpl. split; [exact E | lia].
Qed.

Lemma start_stands_in text : stands_in text (start text).
Proof. split; simpl; [lia | reflexivity]. Qed.

Lemma iter_preserves (P : cursor -> Prop) (M : cursor -> cursor -> Prop) :
  (forall c c', M c c' -> P c -> P c') ->
  forall n c c', iter M n c c' -> P c -> P c'.
Proof. intros H n c c' I. induction I; eauto. Qed.

Lemma matches_stands_in text r :
  forall c c', matches r c c' -> stands_in text c -> stands_in text c'.
Proof.
  induction r; intros c c' M S; inv M; eauto.
  - match goal with H : rest c = _ :: _ |- _ => rename H into E end.
    destruct S as [L E0]. rewrite E0 in E. apply skipn_step in E.
    destruct E as [E' L']. split; simpl; [lia | symmetry; exact E'].
  - match goal with H : iter _ _ _ _ |- _ => revert H S end.
    apply iter_preserves. exact IHr.
  - change (stands_in text c1). eauto.
Qed.

Lemma matches_groupless r :
  groupless r = true -> forall c c', matches r c c' -> caps c' = caps c.
Proof.
  induction r; simpl; intros G c c' M; inv M;
    try (apply andb_prop in G; destruct G as [G1 G2]);
    try discriminate; try reflexivity; eauto.
  - match goal with H1 : matches r1 _ ?c1, H2 : matches r2 ?c1 _ |- _ =>
      rewrite (IHr2 G2 _ _ H2); exact (IHr1 G1 _ _ H1) end.
  - match goal with H : iter _ _ _ _ |- _ => rename H into I end.
    assert (K : caps c = caps c -> caps c' = caps c); [|auto].
    revert I. apply iter_preserves with (P := fun c0 => caps c0 = caps c).
    intros c0 c1 M0 E0. rewrite <- E0. apply IHr; assumption.
  - simpl. eauto.
Qed.

Lemma iter_cls p n c c' :
  iter (matches (Cls p)) n c c' ->
  exists ds, rest c = ds ++ rest c' /\ length ds = n
             /\ forallb p ds = true /\ at_pos c' = at_pos c + n.
Proof.
  induction 1 as [c|n c c1 c2 M I IH].
  - exists []. simpl. auto.
  - destruct IH as [ds [E [L [F A]]]]. inv M. simpl in *.
    exists (x :: ds). simpl.
    match goal with H : rest c = _ |- _ => rewrite H end.
    match goal with H : p x = true |- _ => rewrite H end.
    subst s. repeat split; auto. lia.
Qed.

Lemma slice_run text c ds tl :
  stands_in text c -> rest c = ds ++ tl ->
  slice text (at_pos c) (at_pos c + length ds) = ds.
Proof.
  intros [_ E] R. unfold slice. rewrite <- E, R.
  replace (at_pos c + length ds - at_pos c) with (length ds) by lia.
  rewrite firstn_app, firstn_all, Nat.sub_diag. simpl. apply app_nil_r.
Qed.

Lemma stands_in_length text c : stands_in text c -> length (rest c) <= length text.
Proof. intros [_ E]. rewrite E, length_skipn. lia. Qed.

(** After a group and a tail without groups, the group's span is the one
    the match reports. *)
Lemma group_then_tail i r tail c1 c3 :
  groupless tail = true ->
  matches (Cat (Grp i r) tail) c1 c3 ->
  exists c2, matches r c1 c2
             /\ span_of i (caps c3) = Some (at_pos c1, at_pos c2).
Proof.
  intros G M. inv M.
  match goal with H : matches (Grp _ _) _ _ |- _ => inv H end.
  match goal with H : matches tail _ _ |- _ =>
    apply matches_groupless in H; [rename H into E | exact G] end.
  eexists. split; [eassumption|]. rewrite E. simpl.
  rewrite Nat.eqb_refl. reflexivity.
Qed.

(** What the patterns begin with: [^[\s]*?]. *)
Lemma anchored_prefix text r c :
  matches (Cat Bol (Cat (lazy_star space) r)) (start text) c ->
  exists c1, stands_in text c1 /\ matches r c1 c.
Proof.
  intros M. inv M.
  match goal with H : matches Bol _ _ |- _ => inv H end.
  match goal with H : matches (Cat _ _) _ _ |- _ => inv H end.
  eexists. split; [|eassumption].
  eapply matches_stands_in; [eassumption | apply start_stands_in].
Qed.

Section Patterns.

Variable py : Interp.

Lemma numbered_group text m :
  re_match (NUMBERED_PATTERN py) text = Some m ->
  exists ds, group m 1 = Some ds /\ ds <> []
             /\ forallb (isdecimal py) ds = true
             /\ length ds <= length text.
Proof.
  intros H. apply re_match_sound in H.
  destruct H as [c [M [Es [_ Eg]]]].
  destruct m as [ms me mg]; simpl in Es, Eg; subst ms mg.
  apply anchored_prefix in M. destruct M as [c1 [S1 M]].
  apply group_then_tail in M; [|reflexivity].
  destruct M as [c2 [M Sp]].
  unfold plus in M. inv M.
  match goal with H : iter _ _ _ _ |- _ => apply iter_cls in H;
    destruct H as [ds [R [L [F A]]]] end.
  exists ds. unfold group. simpl. rewrite Sp, A, <- L.
  rewrite (slice_run _ _ S1 R).
  repeat split; auto.
  - destruct ds; [simpl in L; lia | discriminate].
  - apply stands_in_length in S1. rewrite R, length_app in S1. lia.
Qed.

Lemma lettered_group text m :
  re_match LETTERED_PATTERN text = Some m ->
  exists c, group m 1 = Some [c] /\ letter c = true.
Proof.
  intros H. apply re_match_sound in H.
  destruct H as [c [M [Es [_ Eg]]]].
  destruct m as [ms me mg]; simpl in Es, Eg; subst ms mg.
  apply anchored_prefix in M. destruct M as [c1 [S1 M]].
  apply group_then_tail in M; [|reflexivity].
  destruct M as [c2 [M Sp]]. inv M.
  exists x. unfold group. simpl. rewrite Sp. simpl at_pos.
  replace (S (at_pos c1)) with (at_pos c1 + length [x]) by (simpl; lia).
  match goal with H : rest c1 = x :: s |- _ =>
    rewrite (@slice_run text c1 [x] s S1 H) end.
  split; [reflexivity | assumption].
Qed.

Lemma roman_group text m :
  re_match ROMAN_PATTERN text = Some m -> exists g, group m 1 = Some g.
Proof.
  intros H. apply re_match_sound in H.
  destruct H as [c [M [Es [_ Eg]]]].
  destruct m as [ms me mg]; simpl in Es, Eg; subst ms mg.
  apply anchored_prefix in M. destruct M as [c1 [S1 M]]. inv M.
  match goal with H : matches (Cat (Grp _ _) _) _ _ |- _ =>
    apply group_then_tail in H; [|reflexivity];
    destruct H as [c3 [_ Sp]] end.
  unfold group. simpl. rewrite Sp. eauto.
Qed.

End Patterns.

(** ** The matcher finds a match when there is one *)

Lemma matches_rest_le r :
  forall c c', matches r c c' -> length (rest c') <= length (rest c).
Proof.
  induction r; intros c c' M; inv M; simpl; auto.
  - match goal with H : rest c = _ |- _ => rewrite H end. simpl. lia.
  - match goal with H1 : matches r1 _ ?c1, H2 : matches r2 ?c1 _ |- _ =>
      apply IHr1 in H1; apply IHr2 in H2; lia end.
  - match goal with H : iter _ _ _ _ |- _ => rename H into I end.
    assert (K : length (rest c) <= length (rest c) ->
                length (rest c') <= length (rest c)); [|auto].
    revert I.
    apply iter_preserves
      with (P := fun c0 => length (rest c0) <= length (rest c)).
    intros c0 c1 M0 L0. apply IHr in M0. lia.
Qed.

Lemma iter_count (M : cursor -> cursor -> Prop) :
  (forall c c', M c c' -> length (rest c') < length (rest c)) ->
  forall n c c', iter M n c c' -> n + length (rest c') <= length (rest c).
Proof.
  intros H n c c' I. induction I as [c|n c c1 c2 M1 I IH]; simpl; [lia|].
  apply H in M1. lia.
Qed.

Lemma matches_consuming r :
  consuming r = true ->
  forall c c', matches r c c' -> length (rest c') < length (rest c).
Proof.
  induction r; simpl; intros C c c' M; inv M; try discriminate.
  - match goal with H : rest c = _ |- _ => rewrite H end. simpl. lia.
  - match goal with H1 : matches r1 _ ?c1, H2 : matches r2 ?c1 _ |- _ =>
      pose proof (matches_rest_le H1); pose proof (matches_rest_le H2);
      apply orb_prop in C; destruct C as [C|C];
      [apply (IHr1 C) in H1 | apply (IHr2 C) in H2]; lia end.
  - apply andb_prop in C. destruct C. auto.
  - apply andb_prop in C. destruct C. auto.
  - apply andb_prop in C. destruct C as [L C]. apply Nat.ltb_lt in L.
    match goal with H : iter _ _ _ _ |- _ =>
      apply (iter_count (IHr C)) in H end. lia.
  - simpl. auto.
Qed.

Lemma rep_loop_complete R body lo hi g (k : cursor -> option R)
  (M : cursor -> cursor -> Prop) :
  (forall c c1 (k' : cursor -> option R),
      M c c1 -> k' c1 <> None -> body c k' <> None) ->
  forall m c c', iter M m c c' ->
  forall fuel n,
    m <= fuel -> lo <= n + m -> within (n + m) hi -> k c' <> None ->
    rep_loop body lo hi g k fuel n c <> None.
Proof.
  intros Hbody m c c' I.
  induction I as [c|m c c1 c2 M1 I IH]; intros fuel n Hf Hlo Hhi Hk.
  - rewrite Nat.add_0_r in Hlo. apply Nat.leb_le in Hlo.
    destruct fuel; simpl; rewrite Hlo; destruct g;
      try destruct (if below n hi then _ else None);
      try destruct (k c); congruence.
  - destruct fuel as [|fuel]; [lia|].
    assert (B : below n hi = true).
    { destruct hi as [h|]; simpl in *; [apply Nat.ltb_lt; lia | reflexivity]. }
    assert (More : body c (fun c0 => rep_loop body lo hi g k fuel (S n) c0)
                   <> None).
    { apply Hbody with (c1 := c1); [exact M1|].
      apply IH; try lia; [|exact Hk].
      rewrite Nat.add_succ_comm. exact Hhi. }
    simpl. rewrite B. destruct g.
    + destruct (body c _); congruence.
    + destruct (if (lo <=? n)%nat then k c else None); congruence.
Qed.

Lemma exec_complete r :
  steady r = true ->
  forall R c c' (k : cursor -> option R),
    matches r c c' -> k c' <> None -> exec r c k <> None.
Proof.
  induction r; simpl; intros S R c c' k M K; inv M;
    try (apply andb_prop in S; destruct S as [S1 S2]).
  - match goal with H : at_pos c' = 0 |- _ => rewrite H end. exact K.
  - match goal with H : rest c = _ |- _ => rewrite H end.
    match goal with H : p x = true |- _ => rewrite H end. exact K.
  - match goal with H1 : matches r1 _ ?c1, H2 : matches r2 ?c1 _ |- _ =>
      apply (IHr1 S1 _ _ _ _ H1); apply (IHr2 S2 _ _ _ _ H2); exact K end.
  - match goal with H : matches r1 _ _ |- _ =>
      pose proof (IHr1 S1 _ _ _ _ H K) end.
    destruct (exec r1 c k); congruence.
  - destruct (exec r1 c k); [congruence|]. eauto.
  - match goal with H : iter _ _ _ _ |- _ => rename H into I end.
    apply rep_loop_complete with (M := matches r) (m := n) (c' := c'); auto.
    + intros c0 c1 k' M0 K0. apply (IHr S1 _ _ _ _ M0 K0).
    + apply (iter_count (@matches_consuming r S2)) in I. lia.
  - match goal with H : matches r _ _ |- _ =>
      apply (IHr S _ _ _ _ H); exact K end.
  - match goal with H : matches r _ _ |- _ => rename H into M end.
    destruct (exec r c (fun c1 => Some c1)) as [c1'|] eqn:E.
    + apply exec_sound in E. destruct E as [c2 [M2 E2]]. inv E2.
      replace (look_back c c1') with (look_back c c1); [exact K|].
      unfold look_back. f_equal.
      rewrite (@matches_groupless r S2 _ _ M), (@matches_groupless r S2 _ _ M2).
      reflexivity.
    + exfalso. revert E. apply (IHr S1 _ _ _ _ M). discriminate.
Qed.

(** On a steady pattern [re.match] fails exactly when the pattern has no
    match at the start of the text. *)
Lemma re_match_none_iff r text :
  steady r = true ->
  (re_match r text = None <-> forall c, ~ matches r (start text) c).
Proof.
  intros S. split.
  - intros N c M. revert N. unfold re_match.
    apply (@exec_complete r S _ _ _ _ M). discriminate.
  - intros H. destruct (re_match r text) as [m|] eqn:E; [|reflexivity].
    apply re_match_sound in E. destruct E as [c [M _]].
    destruct (H c M).
Qed.

Lemma patterns_steady py :
  forall kind pattern, In (kind, pattern) (PATTERNS py) -> steady pattern = true.
Proof.
  intros kind pattern H. simpl in H.
  destruct H as [E|[E|[E|[E|[]]]]]; inv E; reflexivity.
Qed.

(** ** The rounded quotient

    What binary64 rounding keeps of the quotient by 40: its sign, and its
    value below 2^53. *)

Section RoundedQuotient.

Local Open Scope Z_scope.

Lemma fden_pos e : 0 < fden e.
Proof.
  unfold fden. destruct (0 <=? e) eqn:E; [lia|].
  apply Z.pow_pos_nonneg; lia.
Qed.

Lemma rhe_bounds n d : 0 < d -> n / d <= round_half_even n d <= n / d + 1.
Proof.
  intros D. unfold round_half_even.
  destruct (2 * (n mod d) <? d); [lia|].
  destruct (d <? 2 * (n mod d)); [lia|].
  destruct (Z.even (n / d)); lia.
Qed.

Lemma rhe_exact q d : 0 < d -> round_half_even (q * d) d = q.
Proof.
  intros D. unfold round_half_even.
  rewrite Z.div_mul, Z.mod_mul by lia.
  destruct (Z.ltb_spec (2 * 0) d); [reflexivity | lia].
Qed.

Lemma round53_zero d : round53 0 d = (0, 0).
Proof. reflexivity. Qed.

Lemma round53_nonneg n d m e :
  0 < d -> 0 <= n -> round53 n d = (m, e) -> 0 <= m.
Proof.
  intros D N. unfold round53. destruct (Z.eqb_spec n 0); intros H.
  - inversion H. lia.
  - rewrite Z.abs_eq in H by lia.
    assert (S : Z.sgn n = 1) by (apply Z.sgn_pos; lia).
    set (k := Z.log2 (n / d) - 52) in *.
    revert H. destruct (Z.leb_spec 0 k) as [Hk|Hk]; intros [= <- <-];
      rewrite S.
    + assert (P : 0 < d * 2 ^ k).
      { apply Z.mul_pos_pos; [lia|]. apply Z.pow_pos_nonneg; lia. }
      pose proof (rhe_bounds n P). pose proof (Z.div_pos n _ N P). lia.
    + assert (P : 0 < 2 ^ (- k)) by (apply Z.pow_pos_nonneg; lia).
      pose proof (rhe_bounds (n * 2 ^ (- k)) D).
      assert (N2 : 0 <= n * 2 ^ (- k)) by lia.
      pose proof (Z.div_pos _ _ N2 D). lia.
Qed.

(** Rounding a quotient of magnitude at least 1 keeps it so. *)
Lemma round53_pos_ge n d :
  0 < d -> d <= n ->
  exists M k, round53 n d = (M, k) /\ 2 ^ 52 <= M /\ k = Z.log2 (n / d) - 52
              /\ -52 <= k.
Proof.
  intros D N. unfold round53.
  destruct (Z.eqb_spec n 0); [lia|]. rewrite Z.abs_eq by lia.
  assert (S : Z.sgn n = 1) by (apply Z.sgn_pos; lia). rewrite S.
  set (k := Z.log2 (n / d) - 52).
  assert (Q : 1 <= n / d).
  { apply Z.div_le_lower_bound; lia. }
  pose proof (Z.log2_nonneg (n / d)) as L0.
  pose proof (Z.log2_spec (n / d) ltac:(lia)) as [L1 L2].
  assert (Hn : 2 ^ Z.log2 (n / d) * d <= n).
  { pose proof (Z.mul_div_le n d D). nia. }
  eexists. exists k. split; [reflexivity|]. split; [|split; [reflexivity | lia]].
  destruct (Z.leb_spec 0 k).
  - assert (P : 0 < 2 ^ k) by (apply Z.pow_pos_nonneg; lia).
    assert (E : 2 ^ Z.log2 (n / d) = 2 ^ 52 * 2 ^ k).
    { rewrite <- Z.pow_add_r by lia. f_equal. lia. }
    assert (0 < d * 2 ^ k) by nia.
    pose proof (rhe_bounds n H0) as RB.
    assert (2 ^ 52 <= n / (d * 2 ^ k)).
    { apply Z.div_le_lower_bound; [lia|]. nia. }
    lia.
  - assert (P : 0 < 2 ^ (- k)) by (apply Z.pow_pos_nonneg; lia).
    assert (E : 2 ^ Z.log2 (n / d) * 2 ^ (- k) = 2 ^ 52).
    { rewrite <- Z.pow_add_r by lia. f_equal. lia. }
    pose proof (rhe_bounds (n * 2 ^ (- k)) D).
    assert (2 ^ 52 <= n * 2 ^ (- k) / d).
    { apply Z.div_le_lower_bound; [lia|]. nia. }
    lia.
Qed.

Lemma round53_opp n d : round53 (- n) d = (- fst (round53 n d), snd (round53 n d)).
Proof.
  unfold round53. destruct (Z.eqb_spec n 0).
  - subst. reflexivity.
  - destruct (Z.eqb_spec (- n) 0); [lia|].
    rewrite Z.abs_opp, Z.sgn_opp. cbn [fst snd]. f_equal. lia.
Qed.

Lemma fnum_nonneg m e : 0 <= m -> 0 <= fnum m e.
Proof.
  intros M. unfold fnum. destruct (Z.leb_spec 0 e); [|lia].
  assert (0 < 2 ^ e) by (apply Z.pow_pos_nonneg; lia). nia.
Qed.

Lemma fnum_opp m e : fnum (- m) e = - fnum m e.
Proof. unfold fnum. destruct (0 <=? e); lia. Qed.

Lemma round53_nonpos n d m e :
  0 < d -> n <= 0 -> round53 n d = (m, e) -> m <= 0.
Proof.
  intros D N H. replace n with (- - n) in H by lia.
  rewrite round53_opp in H.
  destruct (round53 (- n) d) as [m' e'] eqn:R. cbn [fst snd] in H.
  injection H as <- <-.
  pose proof (@round53_nonneg (- n) d m' e' D ltac:(lia) R). lia.
Qed.

Lemma round53_ge1 n d m e :
  0 < d -> d <= n -> round53 n d = (m, e) -> fden e <= fnum m e.
Proof.
  intros D N H. destruct (round53_pos_ge D N) as [M [k [R [B [_ K]]]]].
  rewrite R in H. injection H as <- <-. unfold fden, fnum.
  destruct (Z.leb_spec 0 k).
  - assert (0 < 2 ^ k) by (apply Z.pow_pos_nonneg; lia). nia.
  - assert (2 ^ (- k) <= 2 ^ 52) by (apply Z.pow_le_mono_r; lia). lia.
Qed.

Lemma round53_le_m1 n d m e :
  0 < d -> n <= - d -> round53 n d = (m, e) -> fnum m e <= - fden e.
Proof.
  intros D N H. replace n with (- - n) in H by lia.
  rewrite round53_opp in H.
  destruct (round53 (- n) d) as [m' e'] eqn:R. cbn [fst snd] in H.
  injection H as <- <-. rewrite fnum_opp.
  pose proof (@round53_ge1 (- n) d m' e' D ltac:(lia) R). lia.
Qed.

(** A quotient that is an integer of magnitude below 2^53 is not rounded. *)
Lemma round53_exact q d :
  0 < d -> Z.abs q < 2 ^ 53 ->
  exists m e, round53 (q * d) d = (m, e) /\ fnum m e = q * fden e.
Proof.
  intros D Q. unfold round53. destruct (Z.eqb_spec (q * d) 0) as [E|E].
  - exists 0, 0. split; [reflexivity|]. assert (q = 0) by nia. subst q.
    reflexivity.
  - assert (Nq : q <> 0) by nia.
    assert (A : Z.abs (q * d) = Z.abs q * d) by (rewrite Z.abs_mul; lia).
    rewrite A, Z.div_mul by lia.
    assert (Sg : Z.sgn (q * d) = Z.sgn q).
    { rewrite Z.sgn_mul. rewrite (Z.sgn_pos d) by lia. lia. }
    rewrite Sg.
    set (k := Z.log2 (Z.abs q) - 52).
    assert (K : k <= 0).
    { destruct (Z.log2_spec (Z.abs q) ltac:(lia)) as [L _].
      destruct (Z.le_gt_cases (Z.log2 (Z.abs q)) 52) as [|G]; [lia|].
      assert (2 ^ 53 <= 2 ^ Z.log2 (Z.abs q)) by (apply Z.pow_le_mono_r; lia).
      lia. }
    eexists. exists k. split; [reflexivity|].
    unfold fnum, fden. destruct (Z.leb_spec 0 k).
    + assert (k = 0) by lia. replace k with 0 by lia.
      change (2 ^ 0) with 1. rewrite !Z.mul_1_r, rhe_exact by lia.
      rewrite Z.mul_comm. apply Z.abs_sgn.
    + replace (Z.abs q * d * 2 ^ (- k)) with (Z.abs q * 2 ^ (- k) * d) by lia.
      rewrite rhe_exact by lia.
      rewrite Z.mul_assoc, (Z.mul_comm (Z.sgn q)), Z.abs_sgn. reflexivity.
Qed.

Lemma round53_int_ge40 n m e :
  40 <= n -> round53 n 1 = (m, e) -> 40 * fden e <= fnum m e.
Proof.
  intros N H. destruct (Z.lt_ge_cases n (2 ^ 53)) as [L|G].
  - destruct (@round53_exact n 1 ltac:(lia) ltac:(lia)) as [m' [e' [R V]]].
    rewrite Z.mul_1_r in R. rewrite R in H. injection H as <- <-.
    pose proof (fden_pos e'). nia.
  - destruct (@round53_pos_ge n 1 ltac:(lia) ltac:(lia))
      as [M [k [R [B [K _]]]]].
    rewrite R in H. injection H as <- <-. rewrite Z.div_1_r in K.
    assert (53 <= Z.log2 n) by (apply Z.log2_le_pow2; lia).
    unfold fnum, fden. destruct (Z.leb_spec 0 k); [|lia].
    assert (1 <= 2 ^ k) by (apply Z.pow_le_mono_r with (b := 0) (c := k) (a := 2); lia).
    nia.
Qed.

Lemma round53_int_le_m40 n m e :
  n <= - 40 -> round53 n 1 = (m, e) -> fnum m e <= - (40 * fden e).
Proof.
  intros N H. replace n with (- - n) in H by lia.
  rewrite round53_opp in H.
  destruct (round53 (- n) 1) as [m' e'] eqn:R. cbn [fst snd] in H.
  injection H as <- <-. rewrite fnum_opp.
  pose proof (@round53_int_ge40 (- n) m' e' ltac:(lia) R). lia.
Qed.

Lemma trunc_nonneg m e : 0 <= m -> 0 <= float_trunc m e.
Proof.
  intros M. unfold float_trunc. destruct (Z.leb_spec 0 e).
  - assert (0 < 2 ^ e) by (apply Z.pow_pos_nonneg; lia). nia.
  - assert (0 < 2 ^ (- e)) by (apply Z.pow_pos_nonneg; lia).
    apply Z.quot_pos; lia.
Qed.

Lemma trunc_le_m1 m e : fnum m e <= - fden e -> float_trunc m e <= - 1.
Proof.
  unfold fnum, fden, float_trunc. destruct (Z.leb_spec 0 e) as [He|He]; [lia|].
  intros H. assert (P : 0 < 2 ^ (- e)) by (apply Z.pow_pos_nonneg; lia).
  replace m with (- - m) by lia. rewrite Z.quot_opp_l by lia.
  assert (1 <= Z.quot (- m) (2 ^ (- e))).
  { rewrite Z.quot_div_nonneg by lia. apply Z.div_le_lower_bound; lia. }
  lia.
Qed.

Lemma trunc_exact m e q : fnum m e = q * fden e -> float_trunc m e = q.
Proof.
  unfold fnum, fden, float_trunc. destruct (Z.leb_spec 0 e) as [He|He]; [lia|].
  intros ->. apply Z.quot_mul.
  assert (0 < 2 ^ (- e)) by (apply Z.pow_pos_nonneg; lia). lia.
Qed.

Lemma quot_facts n D :
  0 < D ->
  (0 <= n -> 0 <= Z.quot n D /\ 0 <= n - D * Z.quot n D < D)
  /\ (n <= 0 -> Z.quot n D <= 0 /\ - D < n - D * Z.quot n D <= 0).
Proof.
  intros P. pose proof (Z.quot_rem' n D) as E. split; intros N.
  - pose proof (Z.rem_bound_pos_pos n D P N).
    assert (0 <= Z.quot n D) by (apply Z.quot_pos; lia). lia.
  - pose proof (Z.rem_bound_pos_neg n D P N).
    assert (Z.quot n D <= 0).
    { replace n with (- - n) by lia. rewrite Z.quot_opp_l by lia.
      assert (0 <= Z.quot (- n) D) by (apply Z.quot_pos; lia). lia. }
    lia.
Qed.

Lemma fnum_exact53 m e :
  exact53 m e = true -> Z.abs (fnum m e) < 2 ^ 53 * fden e.
Proof.
  unfold exact53, fnum, fden. destruct (Z.leb_spec 0 e) as [He|He]; intros H.
  - apply Z.ltb_lt in H. rewrite Z.abs_mul.
    assert (0 < 2 ^ e) by (apply Z.pow_pos_nonneg; lia).
    rewrite (Z.abs_eq (2 ^ e)) by lia. lia.
  - apply Z.ltb_lt in H. exact H.
Qed.

Lemma dyadic_floor_div_fnum m e :
  dyadic_floor_div m e 40 = fnum m e / (40 * fden e).
Proof.
  unfold dyadic_floor_div, fnum, fden. destruct (0 <=? e); reflexivity.
Qed.

Lemma float_floordiv40_nonneg m e :
  0 <= m ->
  0 <= float_trunc (fst (float_floordiv40 m e)) (snd (float_floordiv40 m e)).
Proof.
  intros M. unfold float_floordiv40.
  pose proof (fden_pos e) as D. pose proof (fnum_nonneg e M) as N.
  set (n := fnum m e) in *. set (d := fden e) in *.
  destruct (@quot_facts n (40 * d) ltac:(lia)) as [Q _].
  destruct (Q N) as [T R]. clear Q.
  set (t := Z.quot n (40 * d)) in *.
  destruct (round53 (40 * t) 1) as [m1 e1] eqn:R1.
  pose proof (@round53_nonneg (40 * t) 1 m1 e1 ltac:(lia) ltac:(lia) R1) as M1.
  destruct (round53 (fnum m1 e1) (40 * fden e1)) as [m2 e2] eqn:R2.
  pose proof (fden_pos e1) as D1.
  pose proof (@round53_nonneg (fnum m1 e1) (40 * fden e1) m2 e2 ltac:(lia)
                (fnum_nonneg e1 M1) R2) as M2.
  replace (n - 40 * d * t <? 0) with false by (symmetry; apply Z.ltb_ge; lia).
  destruct (Z.eqb_spec m2 0); [cbn; lia|].
  pose proof (fden_pos e2) as D2. pose proof (fnum_nonneg e2 M2) as N2.
  assert (F : 0 <= fnum m2 e2 / fden e2) by (apply Z.div_pos; lia).
  destruct (fden e2 <? 2 * (fnum m2 e2 - fnum m2 e2 / fden e2 * fden e2)).
  - destruct (round53 (fnum m2 e2 / fden e2 + 1) 1) as [m4 e4] eqn:R4.
    cbn [fst snd]. apply trunc_nonneg.
    apply (@round53_nonneg (fnum m2 e2 / fden e2 + 1) 1 m4 e4 ltac:(lia)
             ltac:(lia) R4).
  - cbn [fst snd]. apply trunc_nonneg. exact F.
Qed.

Lemma float_floordiv40_neg m e :
  m < 0 ->
  float_trunc (fst (float_floordiv40 m e)) (snd (float_floordiv40 m e)) <= - 1.
Proof.
  intros M. unfold float_floordiv40.
  pose proof (fden_pos e) as D.
  assert (N : fnum m e < 0).
  { pose proof (@fnum_nonneg (- m) e ltac:(lia)) as H. rewrite fnum_opp in H.
    assert (fnum m e <> 0); [|lia].
    unfold fnum. destruct (Z.leb_spec 0 e); [|lia].
    assert (0 < 2 ^ e) by (apply Z.pow_pos_nonneg; lia). nia. }
  set (n := fnum m e) in *. set (d := fden e) in *.
  destruct (@quot_facts n (40 * d) ltac:(lia)) as [_ Q].
  destruct (Q ltac:(lia)) as [T R]. clear Q.
  set (t := Z.quot n (40 * d)) in *.
  destruct (round53 (40 * t) 1) as [m1 e1] eqn:R1.
  pose proof (@round53_nonpos (40 * t) 1 m1 e1 ltac:(lia) ltac:(lia) R1) as M1.
  pose proof (fden_pos e1) as D1.
  destruct (round53 (fnum m1 e1) (40 * fden e1)) as [m2 e2] eqn:R2.
  pose proof (fden_pos e2) as D2.
  assert (N1 : fnum m1 e1 <= 0).
  { pose proof (@fnum_nonneg (- m1) e1 ltac:(lia)) as H.
    rewrite fnum_opp in H. lia. }
  pose proof (@round53_nonpos (fnum m1 e1) (40 * fden e1) m2 e2 ltac:(lia)
                N1 R2) as M2.
  assert (N2 : fnum m2 e2 <= 0).
  { pose proof (@fnum_nonneg (- m2) e2 ltac:(lia)) as H.
    rewrite fnum_opp in H. lia. }
  assert (V : exists m3 e3,
             (if n - 40 * d * t <? 0
              then round53 (fnum m2 e2 - fden e2) (fden e2)
              else (m2, e2)) = (m3, e3)
             /\ fnum m3 e3 <= - fden e3).
  { destruct (Z.ltb_spec (n - 40 * d * t) 0).
    - destruct (round53 (fnum m2 e2 - fden e2) (fden e2)) as [m3 e3] eqn:R3.
      exists m3, e3. split; [reflexivity|].
      apply (@round53_le_m1 (fnum m2 e2 - fden e2) (fden e2) m3 e3 D2
               ltac:(lia) R3).
    - exists m2, e2. split; [reflexivity|].
      assert (T1 : t <= - 1) by nia.
      pose proof (@round53_int_le_m40 (40 * t) m1 e1 ltac:(lia) R1) as V1.
      apply (@round53_le_m1 (fnum m1 e1) (40 * fden e1) m2 e2 ltac:(lia)
               ltac:(lia) R2). }
  destruct V as [m3 [e3 [-> V]]].
  pose proof (fden_pos e3) as D3.
  destruct (Z.eqb_spec m3 0) as [Z3|Z3].
  { subst m3. exfalso. unfold fnum in V. destruct (0 <=? e3); lia. }
  assert (F : fnum m3 e3 / fden e3 <= - 1).
  { apply Z.div_le_upper_bound; lia. }
  destruct (Z.ltb_spec (fden e3)
              (2 * (fnum m3 e3 - fnum m3 e3 / fden e3 * fden e3))).
  - destruct (round53 (fnum m3 e3 / fden e3 + 1) 1) as [m4 e4] eqn:R4.
    cbn [fst snd]. apply trunc_le_m1.
    apply (@round53_le_m1 (fnum m3 e3 / fden e3 + 1) 1 m4 e4 ltac:(lia)
             ltac:(nia) R4).
  - cbn [fst snd]. unfold float_trunc. change (0 <=? 0) with true. cbv iota.
    change (2 ^ 0) with 1. lia.
Qed.

Lemma float_floordiv40_exact m e :
  exact53 m e = true ->
  float_trunc (fst (float_floordiv40 m e)) (snd (float_floordiv40 m e))
  = dyadic_floor_div m e 40.
Proof.
  intros X. rewrite dyadic_floor_div_fnum. apply fnum_exact53 in X.
  unfold float_floordiv40. pose proof (fden_pos e) as D.
  set (n := fnum m e) in *. set (d := fden e) in *.
  destruct (@quot_facts n (40 * d) ltac:(lia)) as [Qp Qn].
  set (t := Z.quot n (40 * d)) in *.
  assert (R : - (40 * d) < n - 40 * d * t < 40 * d
              /\ (0 <= n -> 0 <= t /\ 0 <= n - 40 * d * t)
              /\ (n <= 0 -> t <= 0 /\ n - 40 * d * t <= 0)).
  { destruct (Z.le_ge_cases 0 n) as [P|P].
    - destruct (Qp P). repeat split; intros; try lia;
        assert (n = 0) by lia; specialize (Qn ltac:(lia)); lia.
    - destruct (Qn P). repeat split; intros; try lia;
        assert (n = 0) by lia; specialize (Qp ltac:(lia)); lia. }
  clear Qp Qn. destruct R as [R [Rp Rn]].
  assert (T : Z.abs (40 * t) < 2 ^ 53 /\ Z.abs t < 2 ^ 53
              /\ Z.abs (t - 1) < 2 ^ 53).
  { destruct (Z.le_ge_cases 0 n) as [P|P].
    - destruct (Rp P). rewrite Z.abs_eq in X by lia. nia.
    - destruct (Rn P). rewrite Z.abs_neq in X by lia. nia. }
  destruct T as [T40 [T1 Tm]].
  destruct (@round53_exact (40 * t) 1 ltac:(lia) T40) as [m1 [e1 [R1 V1]]].
  rewrite Z.mul_1_r in R1. rewrite R1.
  pose proof (fden_pos e1) as D1.
  destruct (@round53_exact t (40 * fden e1) ltac:(lia) T1)
    as [m2 [e2 [R2 V2]]].
  replace (t * (40 * fden e1)) with (fnum m1 e1) in R2 by lia.
  rewrite R2. pose proof (fden_pos e2) as D2.
  assert (V : exists m3 e3,
             (if n - 40 * d * t <? 0
              then round53 (fnum m2 e2 - fden e2) (fden e2)
              else (m2, e2)) = (m3, e3)
             /\ fnum m3 e3 = n / (40 * d) * fden e3).
  { destruct (Z.ltb_spec (n - 40 * d * t) 0) as [L|L].
    - destruct (@round53_exact (t - 1) (fden e2) D2 Tm) as [m3 [e3 [R3 V3]]].
      replace ((t - 1) * fden e2) with (fnum m2 e2 - fden e2) in R3 by lia.
      exists m3, e3. split; [exact R3|]. rewrite V3. f_equal.
      apply Z.div_unique with (r := n - 40 * d * t + 40 * d); lia.
    - exists m2, e2. split; [reflexivity|]. rewrite V2. f_equal.
      apply Z.div_unique with (r := n - 40 * d * t); lia. }
  destruct V as [m3 [e3 [-> V]]]. pose proof (fden_pos e3) as D3.
  destruct (Z.eqb_spec m3 0) as [Z3|Z3].
  - subst m3. cbn [fst snd]. unfold float_trunc. change (0 <=? 0) with true.
    cbv iota. change (0 * 2 ^ 0) with 0.
    assert (fnum 0 e3 = 0) by (unfold fnum; destruct (0 <=? e3); lia).
    nia.
  - rewrite V, Z.div_mul by lia.
    replace (n / (40 * d) * fden e3 - n / (40 * d) * fden e3) with 0 by lia.
    destruct (Z.ltb_spec (fden e3) (2 * 0)); [lia|].
    cbn [fst snd]. unfold float_trunc. change (0 <=? 0) with true. cbv iota.
    change (2 ^ 0) with 1. lia.
Qed.

End RoundedQuotient.

(** ** The detector, path by path *)

Section DetectorFacts.

Variable py : Interp.

Lemma detect_unfold text x :
  detect_list_item py text x =
  match strip text with
  | [] => Ok None
  | _ :: _ =>
      lvl <- level_of py x ;;
      match try_patterns py (PATTERNS py) text lvl with
      | Some r => item <- r ;; Ok (Some item)
      | None => Ok (scan_bullets (set_iter py) text (firstn 10 (lstrip text)) lvl)
      end
  end.
Proof. destruct text; reflexivity. Qed.

Lemma try_patterns_level ps text lvl item :
  try_patterns py ps text lvl = Some (Ok item) -> level item = lvl.
Proof.
  induction ps as [|[list_type pattern] ps IH]; simpl; [discriminate|].
  destruct (re_match pattern text) as [m|]; [|exact IH].
  destruct (index_of py list_type m); simpl; intros H; inv H. reflexivity.
Qed.

Lemma try_patterns_marker ps text lvl item :
  try_patterns py ps text lvl = Some (Ok item) -> trimmed (marker item).
Proof.
  induction ps as [|[list_type pattern] ps IH]; simpl; [discriminate|].
  destruct (re_match pattern text) as [m|]; [|exact IH].
  destruct (index_of py list_type m); simpl; intros H; inv H.
  apply strip_trimmed.
Qed.

Lemma try_patterns_none ps text lvl :
  (forall kind pattern, In (kind, pattern) ps -> re_match pattern text = None) ->
  try_patterns py ps text lvl = None.
Proof.
  induction ps as [|[list_type pattern] ps IH]; simpl; intros H; [reflexivity|].
  rewrite (H list_type pattern) by auto. apply IH. intros k p HIn.
  apply (H k p). auto.
Qed.

Lemma scan_bullets_level bs text w lvl item :
  scan_bullets bs text w lvl = Some item -> level item = lvl.
Proof.
  induction bs as [|b bs IH]; simpl; [discriminate|].
  destruct (contains w b); [|exact IH].
  destruct (str_find text b); [|exact IH].
  intros H. inv H. reflexivity.
Qed.

Lemma scan_bullets_none bs text w lvl :
  (forall b, In b bs -> contains w b = false) ->
  scan_bullets bs text w lvl = None.
Proof.
  induction bs as [|b bs IH]; simpl; intros H; [reflexivity|].
  rewrite (H b) by auto. apply IH. intros b' Hb'. apply H. auto.
Qed.

(** When one glyph only occurs in the window, the scan finds it whatever the
    order of the set. *)
Lemma scan_bullets_only bs text w lvl b pos :
  In b bs -> contains w b = true -> str_find text b = Some pos ->
  (forall b', In b' bs -> contains w b' = true -> b' = b) ->
  scan_bullets bs text w lvl =
  Some {| item_type := BULLET; marker := firstn (pos + 1) text;
          content := strip (skipn (pos + 1) text);
          level := lvl; index := 0; is_continuation := false |}.
Proof.
  intros HIn Hc Hf Hu. induction bs as [|b0 bs IH]; [destruct HIn|].
  simpl. destruct (contains w b0) eqn:C0.
  - rewrite (Hu b0 (or_introl eq_refl) C0), Hf. reflexivity.
  - destruct HIn as [->|HIn]; [congruence|].
    apply IH; [exact HIn|]. intros b' Hb'. apply Hu. right. exact Hb'.
Qed.

Lemma detect_level text x item :
  detect_list_item py text x = Ok (Some item) ->
  level_of py x = Ok (level item).
Proof.
  rewrite detect_unfold. destruct (strip text); [discriminate|].
  destruct (level_of py x) as [lvl|]; cbn [bind]; [|discriminate].
  destruct (try_patterns py (PATTERNS py) text lvl) as [[it|]|] eqn:T;
    cbn [bind]; intros H; inv H.
  - apply try_patterns_level in T. congruence.
  - match goal with H : scan_bullets _ _ _ _ = _ |- _ =>
      apply scan_bullets_level in H; congruence end.
Qed.

Lemma level_of_floor x l :
  level_of py x = Ok l -> in_exact_range x -> floor_div_40 x l.
Proof.
  unfold level_of, in_exact_range, floor_div_40.
  destruct x as [z|[|neg|m e]]; cbn [truthy floordiv40 int_of_number];
    try contradiction.
  - destruct (Z.eqb_spec z 0); cbn [negb]; intros H _; inv H; [lia|].
    pose proof (Z.mul_div_le z 40). pose proof (Z.mul_succ_div_gt z 40). lia.
  - intros H E.
    assert (K : l = dyadic_floor_div m e 40).
    { destruct (Z.eqb_spec m 0) as [Zm|Zm]; cbn [negb] in H.
      - inv H. unfold dyadic_floor_div. destruct (0 <=? e)%Z; reflexivity.
      - pose proof (float_floordiv40_exact m e E) as X.
        destruct (float_floordiv40 m e) as [q k].
        cbn [int_of_number fst snd] in *. inv H. exact X. }
    subst l. unfold dyadic_floor_div. destruct (Z.leb_spec 0 e).
    + pose proof (Z.mul_div_le (m * 2 ^ e) 40).
      pose proof (Z.mul_succ_div_gt (m * 2 ^ e) 40). lia.
    + assert (0 < 2 ^ (- e))%Z by (apply Z.pow_pos_nonneg; lia).
      pose proof (Z.mul_div_le m (40 * 2 ^ (- e))).
      pose proof (Z.mul_succ_div_gt m (40 * 2 ^ (- e))). nia.
Qed.

Lemma level_of_finite x : finite x -> exists l, level_of py x = Ok l.
Proof.
  unfold level_of. destruct x as [z|[|neg|m e]]; simpl; try contradiction;
    intros _.
  - destruct (negb (z =? 0)%Z); eauto.
  - destruct (negb (m =? 0)%Z); [|eauto].
    destruct (float_floordiv40 m e) as [q k]. simpl. eauto.
Qed.

(** The level has the sign of the coordinate. *)
Lemma level_of_sign x l :
  level_of py x = Ok l -> ((0 <= l)%Z <-> nonneg x).
Proof.
  unfold level_of, nonneg.
  destruct x as [z|[|neg|m e]]; cbn [truthy floordiv40 int_of_number].
  - destruct (Z.eqb_spec z 0); cbn [negb]; intros H; inv H; [lia|].
    pose proof (Z.mul_div_le z 40). pose proof (Z.mul_succ_div_gt z 40). lia.
  - discriminate.
  - discriminate.
  - destruct (Z.eqb_spec m 0) as [Zm|Zm]; cbn [negb]; intros H.
    + inv H. lia.
    + pose proof (@float_floordiv40_nonneg m e) as P.
      pose proof (@float_floordiv40_neg m e) as N.
      destruct (float_floordiv40 m e) as [q k].
      cbn [int_of_number fst snd] in *. inv H. lia.
Qed.

End DetectorFacts.

(** ** Conversions never fail on what the patterns capture *)

Section IndexFacts.

Variable py : Interp.

Lemma digits_value_some ds :
  forallb (isdecimal py) ds = true ->
  forall acc, exists v, digits_value py acc ds = Some v.
Proof.
  induction ds as [|d ds IH]; simpl; intros F acc; [eauto|].
  apply andb_prop in F. destruct F as [D F]. unfold isdecimal in D.
  destruct (todecimal py d); [apply IH; exact F | discriminate].
Qed.

Lemma over_digit_limit_mono n m :
  m <= n -> over_digit_limit py n = false -> over_digit_limit py m = false.
Proof.
  unfold over_digit_limit. intros L H.
  destruct (Nat.ltb_spec 640 m); [|reflexivity].
  destruct (Nat.ltb_spec 0 (int_max_str_digits py)); [|reflexivity].
  destruct (Nat.ltb_spec (int_max_str_digits py) m); [|reflexivity].
  destruct (Nat.ltb_spec 640 n); [|lia].
  destruct (Nat.ltb_spec (int_max_str_digits py) n); [discriminate | lia].
Qed.

Lemma int_of_str_digits ds :
  ds <> [] -> forallb (isdecimal py) ds = true ->
  over_digit_limit py (length ds) = false ->
  exists v, int_of_str py ds = Ok v.
Proof.
  intros N F L. unfold int_of_str. destruct ds as [|d ds]; [congruence|].
  destruct (digits_value_some _ F 0%Z) as [v E]. rewrite E, L. eauto.
Qed.

Lemma letter_ascii c : letter c = true -> is_ascii c = true.
Proof.
  unfold letter, between, is_ascii.
  change (uchr "a") with 97%N. change (uchr "z") with 122%N.
  change (uchr "A") with 65%N. change (uchr "Z") with 90%N.
  rewrite orb_true_iff, !andb_true_iff, !N.leb_le, N.ltb_lt. lia.
Qed.

Lemma index_of_total list_type pattern text m :
  In (list_type, pattern) (PATTERNS py) ->
  re_match pattern text = Some m ->
  over_digit_limit py (length text) = false ->
  exists i, index_of py list_type m = Ok i.
Proof.
  intros HIn M L. unfold PATTERNS in HIn. simpl in HIn.
  destruct HIn as [E|[E|[E|[E|[]]]]]; inv E; unfold index_of;
    cbn [ListType_eqb].
  - eauto.
  - destruct (numbered_group _ _ M) as [ds [G [N [F Len]]]]. rewrite G.
    apply int_of_str_digits; auto.
    apply over_digit_limit_mono with (n := length text); assumption.
  - destruct (lettered_group _ M) as [c [G Lc]]. rewrite G.
    unfold lower. cbn [forallb]. rewrite (letter_ascii _ Lc).
    cbn [andb map ord bind]. eauto.
  - destruct (roman_group _ M) as [g G]. rewrite G. eauto.
Qed.

Lemma try_patterns_total ps text lvl r :
  incl ps (PATTERNS py) ->
  over_digit_limit py (length text) = false ->
  try_patterns py ps text lvl = Some r -> exists item, r = Ok item.
Proof.
  intros I L. induction ps as [|[list_type pattern] ps IH]; simpl;
    [discriminate|].
  destruct (re_match pattern text) as [m|] eqn:M.
  - destruct (@index_of_total list_type pattern text m) as [i E]; auto.
    { apply I. left. reflexivity. }
    rewrite E. cbn [bind]. intros H. inv H. eauto.
  - apply IH. intros p Hp. apply I. right. exact Hp.
Qed.

End IndexFacts.

(** ** The fallback scan under any order of the set *)

Section Fallback.

Variable py : Interp.
Hypothesis set_iter_perm : Permutation (set_iter py) BULLET_CHARS.

Lemma detect_fallback text x lvl :
  strip text <> [] -> level_of py x = Ok lvl ->
  try_patterns py (PATTERNS py) text lvl = None ->
  detect_list_item py text x =
  Ok (scan_bullets (set_iter py) text (firstn 10 (lstrip text)) lvl).
Proof.
  intros S L T. rewrite detect_unfold.
  destruct (strip text); [congruence|]. rewrite L. cbn [bind].
  rewrite T. reflexivity.
Qed.

Lemma scan_no_glyph text w lvl :
  no_glyph w = true -> scan_bullets (set_iter py) text w lvl = None.
Proof.
  unfold no_glyph. rewrite forallb_forall. intros H.
  apply scan_bullets_none. intros b Hb.
  apply (Permutation_in _ set_iter_perm) in Hb.
  apply H in Hb. apply negb_true_iff. exact Hb.
Qed.

Lemma scan_only_glyph text w lvl b pos :
  only_glyph b w = true -> In b BULLET_CHARS -> str_find text b = Some pos ->
  scan_bullets (set_iter py) text w lvl =
  Some {| item_type := BULLET; marker := firstn (pos + 1) text;
          content := strip (skipn (pos + 1) text);
          level := lvl; index := 0; is_continuation := false |}.
Proof.
  unfold only_glyph. rewrite andb_true_iff, forallb_forall.
  intros [C U] HIn F. apply scan_bullets_only with (b := b); auto.
  - eapply Permutation_in; [apply Permutation_sym|]; eassumption.
  - intros b' Hb' C'. apply (Permutation_in _ set_iter_perm) in Hb'.
    apply U in Hb'. rewrite C' in Hb'. apply N.eqb_eq. exact Hb'.
Qed.

End Fallback.

(** ** The indentation *)

Lemma str_mul_zero py s : str_mul py s 0 = Ok [].
Proof.
  unfold str_mul.
  destruct (Z.ltb_spec 0 (- Z.of_N (maxsize py) - 1)); [lia|].
  destruct (Z.ltb_spec (Z.of_N (maxsize py)) 0); [lia|]. reflexivity.
Qed.

Lemma concat_repeat_spaces k :
  concat (repeat (ustr "    ") k) = repeat 32%N (4 * k).
Proof.
  induction k as [|k IH]; [reflexivity|].
  replace (4 * S k) with (S (S (S (S (4 * k))))) by lia.
  cbn [repeat concat]. rewrite IH. reflexivity.
Qed.

Lemma str_mul_indent py lvl :
  if indentable py lvl
  then str_mul py (ustr "    ") lvl = Ok (indentation lvl)
  else exists e, (e = OverflowError \/ e = MemoryError)
                 /\ str_mul py (ustr "    ") lvl = Raise e.
Proof.
  unfold indentable, str_mul, indentation.
  set (top := Z.of_N (maxsize py)).
  assert (T : (0 <= top)%Z) by (unfold top; lia).
  change (Z.of_nat (length (ustr "    "))) with 4%Z.
  destruct (Z.ltb_spec lvl (- top - 1)), (Z.leb_spec (- top - 1) lvl);
    try lia; cbn [orb andb]; [eauto|].
  destruct (Z.ltb_spec top lvl), (Z.leb_spec lvl top);
    try lia; cbn [orb andb]; [eauto|].
  destruct (Z.ltb_spec lvl 1).
  { destruct (Z.leb_spec lvl 1); [|lia]. cbn [orb].
    replace (Z.to_nat lvl) with 0 by lia. reflexivity. }
  destruct (Z.eqb_spec lvl 1) as [->|N1].
  { reflexivity. }
  destruct (Z.leb_spec lvl 1); [lia|]. cbn [orb].
  destruct (ustr "    ") as [|c0 l0] eqn:U; [discriminate U|]. rewrite <- U.
  assert (D : (top / lvl < 4 <-> top < 4 * lvl)%Z).
  { split; intros L.
    - destruct (Z.lt_ge_cases top (4 * lvl)) as [|G]; [assumption|].
      assert (4 <= top / lvl)%Z by (apply Z.div_le_lower_bound; lia). lia.
    - apply Z.div_lt_upper_bound; lia. }
  destruct (Z.ltb_spec (top / lvl) 4), (Z.leb_spec (4 * lvl) top);
    try lia; cbn [andb]; [eauto|].
  destruct (grants py (4 * lvl)); [|eauto].
  f_equal. apply concat_repeat_spaces.
Qed.

(** The indentation and the line, one after the other. *)
Lemma write_line py lvl body :
  if writable py lvl body
  then (indent <- str_mul py (ustr "    ") lvl ;; fstring py indent body)
       = Ok (indentation lvl ++ body)
  else exists e, (e = OverflowError \/ e = MemoryError)
                 /\ (indent <- str_mul py (ustr "    ") lvl ;;
                     fstring py indent body) = Raise e.
Proof.
  unfold writable. pose proof (str_mul_indent py lvl) as SI.
  destruct (indentable py lvl); cbn [andb].
  2:{ destruct SI as [e [Ee ->]]. exists e. split; [exact Ee | reflexivity]. }
  rewrite SI. cbn [bind]. unfold fstring, indentation.
  rewrite repeat_length.
  destruct (Nat.leb_spec (4 * Z.to_nat lvl) 4), (Z.leb_spec lvl 1);
    try lia; cbn [orb]; [reflexivity|].
  replace (Z.of_nat (4 * Z.to_nat lvl + length body))
    with (4 * lvl + Z.of_nat (length body))%Z by lia.
  destruct (Z.ltb_spec (Z.of_N (maxsize py))
              (4 * lvl + Z.of_nat (length body))),
           (Z.leb_spec (4 * lvl + Z.of_nat (length body))
              (Z.of_N (maxsize py)));
    try lia; cbn [andb]; [eauto|].
  destruct (grants py (4 * lvl + Z.of_nat (length body))); eauto.
Qed.

Lemma reconstructs_by py item translated target body :
  (forall indent,
      str_mul py (ustr "    ") (level item) = Ok indent ->
      reconstruct_list_text py item translated target
      = fstring py indent body) ->
  reconstructs py item translated target body.
Proof.
  intros H. unfold reconstructs.
  pose proof (write_line py (level item) body) as W.
  destruct (str_mul py (ustr "    ") (level item)) as [indent|e] eqn:SM.
  - rewrite (H indent Logic.eq_refl). exact W.
  - assert (R : reconstruct_list_text py item translated target = Raise e).
    { unfold reconstruct_list_text. rewrite SM. reflexivity. }
    rewrite R. exact W.
Qed.

Lemma indentation_blank lvl : blank (indentation lvl).
Proof.
  unfold blank, indentation. induction (4 * Z.to_nat lvl) as [|k IH];
    [reflexivity | exact IH].
Qed.

(** ** The properties of the specification *)

(** C1.  Round trip of detection and reconstruction: the item detected in
    "2. Example" at coordinate 0, reconstructed around the content
    "Example translated" with the default target language, is the string
    "2. Example translated". *)
Theorem detect_reconstruct_round_trip : forall py : Interp,
  exists item,
    detect_list_item py (ustr "2. Example") (PyInt 0) = Ok (Some item)
    /\ reconstruct_list_text py item (ustr "Example translated") (ustr "en")
       = Ok (ustr "2. Example translated").
Proof.
  intros py.
  exists {| item_type := NUMBERED; marker := ustr "2.";
            content := ustr "Example"; level := 0; index := 2;
            is_continuation := false |}.
  split; [vm_compute; reflexivity|].
  unfold reconstruct_list_text. cbn [level]. rewrite str_mul_zero.
  vm_compute. reflexivity.
Qed.

Lemma roman_round_trip_checked py :
  forallb (roman_round_trip_at py) (seq 1 3999) = true.
Proof. vm_compute. reflexivity. Qed.

Lemma roman_round_trip_at_spec py n :
  roman_round_trip_at py n = true ->
  exists r, _int_to_roman (Z.of_nat n) = Ok r
            /\ _roman_to_int py r = Z.of_nat n.
Proof.
  unfold roman_round_trip_at.
  destruct (_int_to_roman (Z.of_nat n)) as [r|]; [|discriminate].
  intros H. exists r. split; [reflexivity|]. apply Z.eqb_eq, H.
Qed.

Lemma roman_round_trip_in_range py n :
  (1 <= n <= 3999)%Z -> roman_round_trip_at py (Z.to_nat n) = true.
Proof.
  intros Hn. pose proof (roman_round_trip_checked py) as H.
  rewrite forallb_forall in H. apply H, in_seq. lia.
Qed.

(** C2.  Round trip of the Roman conversions: for every integer n from 1 to
    3999, [_int_to_roman n] returns a numeral and [_roman_to_int] of that
    numeral is n. *)
Theorem roman_round_trip : forall (py : Interp) (n : Z),
  (1 <= n <= 3999)%Z ->
  exists r, _int_to_roman n = Ok r /\ _roman_to_int py r = n.
Proof.
  intros py n Hn.
  pose proof (roman_round_trip_at_spec _ _ (roman_round_trip_in_range py Hn))
    as H.
  rewrite Z2Nat.id in H by lia. exact H.
Qed.

Lemma roman_round_trip_witness :
  exists r, _int_to_roman 1994 = Ok r /\ _roman_to_int py0 r = 1994%Z.
Proof. apply (@roman_round_trip py0 1994%Z). lia. Defined.

(** C3, on the failing input.  The line "iv. Fourth clause" is not detected:
    the Roman pattern is written for capital letters only, the lettered one
    wants a single letter before the dot, and the line holds no bullet. *)
Theorem lowercase_roman_not_detected : forall py : Interp,
  Permutation (set_iter py) BULLET_CHARS ->
  detect_list_item py (ustr "iv. Fourth clause") (PyInt 0) = Ok None.
Proof.
  intros py P. rewrite detect_fallback with (lvl := 0%Z).
  - rewrite scan_no_glyph; [reflexivity | exact P | vm_compute; reflexivity].
  - vm_compute. discriminate.
  - reflexivity.
  - vm_compute. reflexivity.
Qed.

Lemma lowercase_roman_not_detected_witness :
  detect_list_item py0 (ustr "iv. Fourth clause") (PyInt 0) = Ok None.
Proof.
  apply (@lowercase_roman_not_detected py0). apply Permutation_refl.
Defined.

(** The same line in capitals is the Roman item 4. *)
Lemma uppercase_roman_detected : forall py : Interp,
  detect_list_item py (ustr "IV. Fourth clause") (PyInt 0)
  = Ok (Some {| item_type := ROMAN; marker := ustr "IV.";
                content := ustr "Fourth clause"; level := 0; index := 4;
                is_continuation := false |}).
Proof. intros py. vm_compute. reflexivity. Qed.

(** The bullet pattern on a line that starts with the glyph. *)
Lemma bullet_item_detected : forall py : Interp,
  detect_list_item py (8226%N :: ustr " First item") (PyInt 0)
  = Ok (Some {| item_type := BULLET; marker := [8226%N];
                content := ustr "First item"; level := 0; index := 0;
                is_continuation := false |}).
Proof. intros py. vm_compute. reflexivity. Qed.

(** And the lettered pattern takes either case. *)
Lemma lettered_either_case : forall py : Interp,
  detect_list_item py (ustr "b) Second option") (PyInt 0)
  = Ok (Some {| item_type := LETTERED; marker := ustr "b)";
                content := ustr "Second option"; level := 0; index := 2;
                is_continuation := false |})
  /\ detect_list_item py (ustr "B) Second option") (PyInt 0)
  = Ok (Some {| item_type := LETTERED; marker := ustr "B)";
                content := ustr "Second option"; level := 0; index := 2;
                is_continuation := false |}).
Proof. intros py. split; vm_compute; reflexivity. Qed.

(** C4.  No item for a blank line, nor for a line that none of the four
    patterns matches and whose first ten characters after the leading
    blanks hold no bullet glyph.  The first holds at any coordinate, the
    second at any coordinate that is an [int] or a finite [float], the
    default 0 among them. *)
Theorem detect_absent : forall (py : Interp) (text : str) (x : number),
  (blank text -> detect_list_item py text x = Ok None)
  /\ (Permutation (set_iter py) BULLET_CHARS ->
      finite x ->
      (forall kind pattern,
          In (kind, pattern) (PATTERNS py) -> re_match pattern text = None) ->
      (forall b, In b BULLET_CHARS ->
                 contains (firstn 10 (lstrip text)) b = false) ->
      detect_list_item py text x = Ok None).
Proof.
  intros py text x. split.
  - intros B. rewrite detect_unfold, (strip_blank B). reflexivity.
  - intros P F M G. rewrite detect_unfold.
    destruct (strip text); [reflexivity|].
    destruct (level_of_finite py x F) as [lvl L]. rewrite L. cbn [bind].
    rewrite (try_patterns_none py _ _ lvl M).
    rewrite scan_bullets_none; [reflexivity|].
    intros b Hb. apply G. eapply Permutation_in; eassumption.
Qed.

Lemma detect_absent_witness :
  detect_list_item py0 (ustr "   ") (PyInt 0) = Ok None
  /\ detect_list_item py0 (ustr "Plain paragraph text.") (PyInt 80) = Ok None.
Proof.
  split.
  - apply (proj1 (detect_absent py0 (ustr "   ") (PyInt 0))).
    reflexivity.
  - apply (proj2 (detect_absent py0 (ustr "Plain paragraph text.") (PyInt 80))).
    + apply Permutation_refl.
    + exact I.
    + intros kind pattern H. simpl in H.
      destruct H as [E|[E|[E|[E|[]]]]]; inversion E; subst; vm_compute;
        reflexivity.
    + intros b H. simpl in H.
      repeat (destruct H as [E|H]; [subst b; vm_compute; reflexivity|]).
      destruct H.
Defined.

(** The same with the patterns read declaratively: a line on which no
    pattern has a match, and with no glyph in the window, is no item. *)
Lemma detect_absent_unmatched : forall (py : Interp) (text : str) (x : number),
  Permutation (set_iter py) BULLET_CHARS ->
  finite x ->
  (forall kind pattern c,
      In (kind, pattern) (PATTERNS py) -> ~ matches pattern (start text) c) ->
  no_glyph (firstn 10 (lstrip text)) = true ->
  detect_list_item py text x = Ok None.
Proof.
  intros py text x P F M G. rewrite detect_unfold.
  destruct (strip text); [reflexivity|].
  destruct (level_of_finite py x F) as [lvl L]. rewrite L. cbn [bind].
  rewrite try_patterns_none.
  - rewrite scan_no_glyph; [reflexivity | exact P | exact G].
  - intros kind pattern HIn.
    apply re_match_none_iff; [exact (@patterns_steady py kind pattern HIn)|].
    intros c0. apply (M kind pattern c0 HIn).
Qed.

(** C5, on the failing input.  In " a* b" no pattern matches and the scan
    finds the asterisk: the marker is the text up to it, leading blank
    included, which is not trimmed. *)
Theorem fallback_marker_not_trimmed : forall py : Interp,
  Permutation (set_iter py) BULLET_CHARS ->
  exists item,
    detect_list_item py (ustr " a* b") (PyInt 0) = Ok (Some item)
    /\ marker item = ustr " a*" /\ ~ trimmed (marker item).
Proof.
  intros py P.
  exists {| item_type := BULLET; marker := ustr " a*"; content := ustr "b";
            level := 0; index := 0; is_continuation := false |}.
  split; [|split].
  - rewrite detect_fallback with (lvl := 0%Z).
    + rewrite scan_only_glyph with (b := 42%N) (pos := 2);
        [reflexivity | exact P | vm_compute; reflexivity
         | vm_compute; tauto | reflexivity].
    + vm_compute. discriminate.
    + reflexivity.
    + vm_compute. reflexivity.
  - reflexivity.
  - intros [H _]. vm_compute in H. discriminate.
Qed.

Lemma fallback_marker_not_trimmed_witness :
  exists item,
    detect_list_item py0 (ustr " a* b") (PyInt 0) = Ok (Some item)
    /\ marker item = ustr " a*" /\ ~ trimmed (marker item).
Proof.
  apply (@fallback_marker_not_trimmed py0). apply Permutation_refl.
Defined.

(** The path of the patterns does trim the marker. *)
Lemma pattern_marker_trimmed : forall py text lvl item,
  try_patterns py (PATTERNS py) text lvl = Some (Ok item) ->
  trimmed (marker item).
Proof. intros py text lvl item. apply try_patterns_marker. Qed.

(** At the coordinate 2^60 the level is 28823037615171176, whatever the
    interpreter. *)
Lemma level_at_2_60 : forall py : Interp,
  detect_list_item py (ustr "3. x") (PyFloat (Ffin 1 60))
  = Ok (Some {| item_type := NUMBERED; marker := ustr "3.";
                content := ustr "x"; level := 28823037615171176;
                index := 3; is_continuation := false |}).
Proof. intros py. vm_compute. reflexivity. Qed.




(** C7 fails at a negative coordinate: "1. x" at -1 is an item of level -1. *)
Lemma negative_coordinate_negative_level :
  exists item,
    detect_list_item py0 (ustr "1. x") (PyInt (-1)) = Ok (Some item)
    /\ ~ (0 <= level item)%Z.
Proof.
  exists {| item_type := NUMBERED; marker := ustr "1."; content := ustr "x";
            level := -1; index := 1; is_continuation := false |}.
  split; [vm_compute; reflexivity | simpl; lia].
Qed.

(** C7, amended.  The level of a detected item is at least 0 exactly when
    the coordinate is, whatever the coordinate, an [int] or a [float] of
    any magnitude: no level is clamped, and rounding keeps the sign. *)
Theorem level_nonneg_iff : forall (py : Interp) text x item,
  detect_list_item py text x = Ok (Some item) ->
  ((0 <= level item)%Z <-> nonneg x).
Proof.
  intros py text x item H.
  apply (level_of_sign py x). apply detect_level with (text := text), H.
Qed.

Lemma level_nonneg_iff_witness :
  (0 <= -2500000000000000000000)%Z
  <-> nonneg (PyFloat (Ffin (-5960464477539062) 24)).
Proof.
  apply (@level_nonneg_iff py0 (ustr "1. x")
           (PyFloat (Ffin (-5960464477539062) 24))
           {| item_type := NUMBERED; marker := ustr "1."; content := ustr "x";
              level := -2500000000000000000000; index := 1;
              is_continuation := false |}).
  vm_compute. reflexivity.
Defined.

Lemma ListType_eqb_eq a b : ListType_eqb a b = true <-> a = b.
Proof. destruct a, b; simpl; split; congruence. Qed.

(** C8.  [is_continuation] holds exactly when the item has the kind and the
    level of the group: it is false when the kinds differ though the levels
    agree, and when the levels differ though the kinds agree. *)
Theorem is_continuation_iff : forall (g : ListGroup.t) (item : ListItemInfo),
  (ListGroup.is_continuation g item = true <->
   item_type item = ListGroup.list_type g /\ level item = ListGroup.level g)
  /\ (item_type item <> ListGroup.list_type g ->
      level item = ListGroup.level g ->
      ListGroup.is_continuation g item = false)
  /\ (level item <> ListGroup.level g ->
      item_type item = ListGroup.list_type g ->
      ListGroup.is_continuation g item = false).
Proof.
  intros g item.
  assert (K : ListGroup.is_continuation g item = true <->
              item_type item = ListGroup.list_type g
              /\ level item = ListGroup.level g).
  { unfold ListGroup.is_continuation.
    rewrite andb_true_iff, ListType_eqb_eq, Z.eqb_eq. reflexivity. }
  split; [exact K|].
  split; intros D _; apply not_true_is_false; rewrite K; tauto.
Qed.

Lemma is_continuation_iff_witness :
  ListGroup.is_continuation
    {| ListGroup.items := []; ListGroup.list_type := NUMBERED;
       ListGroup.level := 1 |}
    {| item_type := BULLET; marker := ustr "-"; content := ustr "dash";
       level := 1; index := 0; is_continuation := false |} = false.
Proof.
  apply (proj1 (proj2 (is_continuation_iff
    {| ListGroup.items := []; ListGroup.list_type := NUMBERED;
       ListGroup.level := 1 |}
    {| item_type := BULLET; marker := ustr "-"; content := ustr "dash";
       level := 1; index := 0; is_continuation := false |}))).
  - simpl. discriminate.
  - reflexivity.
Defined.

(** C9.  The target language does not change the reconstructed text. *)
Theorem target_language_ignored :
  forall (py : Interp) (item : ListItemInfo) (translated l1 l2 : str),
    reconstruct_list_text py item translated l1
    = reconstruct_list_text py item translated l2.
Proof. intros. reflexivity. Qed.

(** C10 fails at a coordinate that is not a number: the floor quotient of
    NaN is NaN, which [int] refuses. *)
Lemma detect_raises_on_nan :
  detect_list_item py0 (ustr "1. x") (PyFloat Fnan) = Raise ValueError.
Proof. vm_compute. reflexivity. Qed.

Lemma detect_raises_on_infinity : forall negative : bool,
  detect_list_item py0 (ustr "1. x") (PyFloat (Finf negative))
  = Raise ValueError.
Proof. intros negative. vm_compute. reflexivity. Qed.

(** It fails too, under the default limit of 4300 digits, on a number that
    long. *)
Lemma detect_raises_over_digit_limit :
  detect_list_item py0 (repeat (uchr "9") 4301 ++ ustr ". x") (PyInt 0)
  = Raise ValueError.
Proof. vm_compute. reflexivity. Qed.

(** * Beyond the specification: what the code shows besides *)

(** ** The Roman conversions on every integer *)

Lemma concat_repeat_snoc (s : str) n :
  concat (repeat s n) ++ s = s ++ concat (repeat s n).
Proof.
  induction n as [|n IH]; simpl; [rewrite app_nil_r; reflexivity|].
  rewrite <- app_assoc, IH. reflexivity.
Qed.

Lemma for_range_spec n v s r num :
  for_range n v s (r, num)
  = (r ++ concat (repeat s n), (num - Z.of_nat n * v)%Z).
Proof.
  induction n as [|n IH].
  - unfold for_range. simpl. rewrite app_nil_r. f_equal. lia.
  - change (for_range (S n) v s (r, num))
      with (fst (for_range n v s (r, num)) ++ s,
            (snd (for_range n v s (r, num)) - v)%Z).
    rewrite IH. cbn [fst snd repeat concat].
    rewrite <- app_assoc, concat_repeat_snoc. f_equal. lia.
Qed.

(** One turn of the [while] loop leaves the remainder of the division. *)
Lemma int_to_roman_loop_step v vs s ss num r :
  (0 < num)%Z -> (0 < v)%Z ->
  int_to_roman_loop (v :: vs) (s :: ss) num r
  = int_to_roman_loop vs ss (num mod v)
      (r ++ concat (repeat s (Z.to_nat (num / v)))).
Proof.
  intros Hn Hv. cbn [int_to_roman_loop].
  destruct (Z.gtb_spec num 0); [|lia].
  rewrite for_range_spec. cbn [fst snd]. f_equal.
  rewrite Z2Nat.id by (apply Z.div_pos; lia).
  rewrite Z.mod_eq by lia. lia.
Qed.

Lemma int_to_roman_loop_nonpositive vs ss num r :
  (num <= 0)%Z -> int_to_roman_loop vs ss num r = Ok r.
Proof.
  intros H. destruct vs; simpl; destruct (Z.gtb_spec num 0); try lia;
    reflexivity.
Qed.

Lemma int_to_roman_loop_total vs :
  forall ss num r,
    length vs = length ss -> Forall (fun v => 0 < v)%Z vs ->
    (vs = [] -> num <= 0)%Z -> last vs 1%Z = 1%Z ->
    exists w, int_to_roman_loop vs ss num r = Ok w.
Proof.
  induction vs as [|v vs IH]; intros ss num r L P N E.
  - rewrite int_to_roman_loop_nonpositive; eauto.
  - destruct (Z.le_gt_cases num 0) as [Hle|Hgt].
    { rewrite int_to_roman_loop_nonpositive; eauto. }
    destruct ss as [|s ss]; [discriminate|]. inv P.
    rewrite int_to_roman_loop_step by lia.
    apply IH; auto.
    + intros ->. simpl in E. subst v. rewrite Z.mod_1_r. lia.
    + destruct vs; [reflexivity | exact E].
Qed.



Lemma int_to_roman_loop_acc vs :
  forall ss num p r,
    int_to_roman_loop vs ss num (p ++ r)
    = match int_to_roman_loop vs ss num r with
      | Ok w => Ok (p ++ w)
      | Raise e => Raise e
      end.
Proof.
  induction vs as [|v vs IH]; intros ss num p r; simpl;
    destruct (num >? 0)%Z; try reflexivity.
  destruct ss as [|s ss]; [reflexivity|].
  rewrite !for_range_spec. cbn [fst snd]. rewrite <- app_assoc. apply IH.
Qed.

Lemma int_to_roman_below_1000 r :
  (0 <= r < 1000)%Z ->
  _int_to_roman r = int_to_roman_loop (tl val) (tl syb) r [].
Proof.
  intros H. unfold _int_to_roman.
  destruct (Z.eq_dec r 0) as [->|N]; [reflexivity|].
  unfold val, syb. cbn [map tl].
  rewrite int_to_roman_loop_step by lia.
  rewrite Z.mod_small, Z.div_small by lia. reflexivity.
Qed.

(** The thousands come first, as that many M. *)
Lemma int_to_roman_thousands n :
  (0 <= n)%Z ->
  _int_to_roman n
  = match _int_to_roman (n mod 1000) with
    | Ok w => Ok (repeat (uchr "M") (Z.to_nat (n / 1000)) ++ w)
    | Raise e => Raise e
    end.
Proof.
  intros H.
  assert (B : (0 <= n mod 1000 < 1000)%Z) by (apply Z.mod_pos_bound; lia).
  rewrite (int_to_roman_below_1000 B).
  destruct (Z.eq_dec n 0) as [->|N]; [reflexivity|].
  unfold _int_to_roman at 1. unfold val, syb. cbn [map tl].
  rewrite int_to_roman_loop_step by lia.
  rewrite <- int_to_roman_loop_acc. f_equal.
  generalize (Z.to_nat (n / 1000)). intros q. simpl.
  induction q as [|q IH]; simpl; [reflexivity|]. f_equal. exact IH.
Qed.

Lemma roman_letter_cases c :
  roman_letter c = true ->
  In c (ustr "MDCLXVI").
Proof.
  unfold roman_letter, contains. rewrite existsb_exists.
  intros [x [HIn E]]. apply N.eqb_eq in E. subst x. exact HIn.
Qed.

Lemma roman_letters_upper py w :
  forallb roman_letter w = true -> upper py w = w.
Proof.
  intros F. unfold upper.
  assert (A : forallb is_ascii w = true /\ map ascii_upper w = w).
  { induction w as [|c w IH]; simpl in *; [auto|].
    apply andb_prop in F. destruct F as [Fc F]. destruct (IH F) as [A U].
    rewrite A, U. apply roman_letter_cases in Fc. simpl in Fc.
    repeat (destruct Fc as [<-|Fc]; [split; reflexivity|]). destruct Fc. }
  destruct A as [A U]. rewrite A. exact U.
Qed.

Lemma roman_value_bound ch : (0 <= dict_get roman_numerals ch 0 <= 1000)%Z.
Proof.
  unfold roman_numerals. simpl.
  repeat match goal with |- context [if ?b then _ else _] => destruct b end;
    lia.
Qed.

Lemma roman_fold_prev l : forall a p,
  (p <= 1000)%Z -> (snd (fold_left roman_step l (a, p)) <= 1000)%Z.
Proof.
  induction l as [|ch l IH]; intros a p H; cbn [fold_left]; [exact H|].
  unfold roman_step at 2. cbn [fst snd]. apply IH.
  pose proof (roman_value_bound ch). lia.
Qed.

Lemma roman_fold_thousands q : forall a p,
  (p <= 1000)%Z ->
  fst (fold_left roman_step (repeat (uchr "M") q) (a, p))
  = (a + 1000 * Z.of_nat q)%Z.
Proof.
  induction q as [|q IH]; intros a p H; [simpl; lia|].
  cbn [repeat fold_left]. unfold roman_step at 2. cbn [fst snd].
  change (dict_get roman_numerals (uchr "M") 0) with 1000%Z.
  destruct (Z.ltb_spec 1000 p); [lia|]. rewrite IH by lia. lia.
Qed.

Lemma rev_repeat_char (c : char) q : rev (repeat c q) = repeat c q.
Proof.
  induction q as [|q IH]; [reflexivity|]. simpl. rewrite IH.
  clear IH. induction q as [|q IH]; [reflexivity|]. simpl. rewrite IH.
  reflexivity.
Qed.

Lemma roman_to_int_thousands py q w :
  forallb roman_letter w = true ->
  _roman_to_int py (repeat (uchr "M") q ++ w)
  = (1000 * Z.of_nat q + _roman_to_int py w)%Z.
Proof.
  intros F. unfold _roman_to_int.
  rewrite (roman_letters_upper py _ F), roman_letters_upper.
  - rewrite rev_app_distr, rev_repeat_char, fold_left_app.
    destruct (fold_left roman_step (rev w) (0, 0)%Z) as [a p] eqn:E.
    rewrite roman_fold_thousands.
    + simpl. lia.
    + pose proof (roman_fold_prev (rev w) 0%Z (p := 0%Z)) as B.
      rewrite E in B. apply B. lia.
  - rewrite forallb_app, F, andb_true_r.
    clear. induction q; simpl; auto.
Qed.

Lemma roman_below_1000_checked py :
  forallb (roman_below_1000_at py) (seq 0 1000) = true.
Proof. vm_compute. reflexivity. Qed.

Lemma roman_below_1000_at_spec py n :
  roman_below_1000_at py n = true ->
  exists w, _int_to_roman (Z.of_nat n) = Ok w
            /\ forallb roman_letter w = true
            /\ _roman_to_int py w = Z.of_nat n.
Proof.
  unfold roman_below_1000_at.
  destruct (_int_to_roman (Z.of_nat n)) as [w|]; [|discriminate].
  intros K. apply andb_prop in K. destruct K as [K1 K2].
  apply Z.eqb_eq in K2. eauto.
Qed.

Lemma roman_below_1000 py r :
  (0 <= r < 1000)%Z ->
  exists w, _int_to_roman r = Ok w /\ forallb roman_letter w = true
            /\ _roman_to_int py w = r.
Proof.
  intros H. pose proof (roman_below_1000_checked py) as C.
  rewrite forallb_forall in C.
  assert (K : In (Z.to_nat r) (seq 0 1000)) by (apply in_seq; lia).
  apply C, roman_below_1000_at_spec in K.
  rewrite Z2Nat.id in K by lia. exact K.
Qed.



(** ** What a match consumed *)

Lemma dropwhile_app_all p (w t : str) :
  forallb p w = true -> dropwhile p (w ++ t) = dropwhile p t.
Proof.
  induction w as [|c w IH]; simpl; [reflexivity|].
  destruct (p c); simpl; [exact IH | discriminate].
Qed.

Lemma dropwhile_id (t : str) :
  starts_blank t = false -> dropwhile isspace t = t.
Proof. destruct t as [|c t]; simpl; [reflexivity|]. intros ->. reflexivity. Qed.

Lemma forallb_rev (p : char -> bool) (w : str) :
  forallb p w = true -> forallb p (rev w) = true.
Proof.
  rewrite !forallb_forall. intros H x Hx. apply H, in_rev, Hx.
Qed.

(** Blanks around a core without blanks at its ends are what [strip]
    removes. *)
Lemma strip_core ws core ws2 :
  blank ws -> blank ws2 -> trimmed core ->
  strip (ws ++ core ++ ws2) = core.
Proof.
  unfold blank, trimmed, strip, lstrip, rstrip. intros B B2 [T1 T2].
  rewrite dropwhile_app_all by exact B.
  destruct core as [|a core].
  - simpl. rewrite (@dropwhile_all isspace ws2 B2). reflexivity.
  - simpl in T1. simpl app at 1. cbn [dropwhile]. rewrite T1.
    change (a :: core ++ ws2) with ((a :: core) ++ ws2).
    rewrite rev_app_distr, dropwhile_app_all by (apply forallb_rev, B2).
    rewrite dropwhile_id by exact T2. apply rev_involutive.
Qed.

Lemma matches_prefix r :
  aheadless r = true ->
  forall c c', matches r c c' ->
  exists pre, rest c = pre ++ rest c'
              /\ at_pos c' = at_pos c + length pre.
Proof.
  induction r; simpl; intros A c c' M; inv M;
    try (apply andb_prop in A; destruct A as [A1 A2]); try discriminate.
  - exists []. simpl. auto.
  - exists [x]. simpl.
    match goal with H : rest c = _ |- _ => rewrite H end. split; [auto | lia].
  - match goal with H1 : matches r1 _ ?c1, H2 : matches r2 ?c1 _ |- _ =>
      destruct (IHr1 A1 _ _ H1) as [p1 [E1 L1]];
      destruct (IHr2 A2 _ _ H2) as [p2 [E2 L2]] end.
    exists (p1 ++ p2). rewrite E1, E2, length_app, <- app_assoc.
    split; [reflexivity | lia].
  - eauto.
  - eauto.
  - match goal with H : iter _ _ _ _ |- _ => rename H into I end.
    clear - IHr A I. induction I as [c|n c c1 c2 M1 I IH].
    + exists []. simpl. auto.
    + destruct (IHr A _ _ M1) as [p1 [E1 L1]]. destruct IH as [p2 [E2 L2]].
      exists (p1 ++ p2). rewrite E1, E2, length_app, <- app_assoc.
      split; [reflexivity | lia].
  - simpl. eauto.
Qed.

Lemma iter_space_blank n c c' :
  iter (matches space) n c c' ->
  exists ws, rest c = ws ++ rest c' /\ blank ws /\ length ws = n
             /\ at_pos c' = at_pos c + n /\ caps c' = caps c.
Proof.
  intros I. pose proof I as I'. apply iter_cls in I.
  destruct I as [ds [E [L [F A]]]]. exists ds. repeat split; auto.
  assert (G : groupless (Rep space 0 None false) = true) by reflexivity.
  apply (@matches_groupless _ G). apply M_rep with (n := n); simpl; auto. lia.
Qed.

(** The head of every pattern: blanks, as few as can be. *)
Lemma anchored_head text r c :
  matches (Cat Bol (Cat (lazy_star space) r)) (start text) c ->
  exists ws c1, text = ws ++ rest c1 /\ blank ws /\ at_pos c1 = length ws
                /\ caps c1 = [] /\ stands_in text c1 /\ matches r c1 c.
Proof.
  intros M. inv M.
  match goal with H : matches Bol _ _ |- _ => inv H end.
  match goal with H : matches (Cat _ _) _ _ |- _ => inv H end.
  match goal with H : matches (lazy_star space) _ ?c1 |- _ =>
    pose proof (matches_stands_in H (start_stands_in text)) as S1;
    unfold lazy_star in H; inv H end.
  match goal with H : iter _ _ _ _ |- _ =>
    apply iter_space_blank in H; destruct H as [ws [E [B [L [A C]]]]] end.
  simpl in E, A, C. exists ws, c1.
  split; [exact E|]. split; [exact B|]. split; [lia|]. auto.
Qed.

(** The tail of the numbered, lettered and Roman patterns, after the
    group. *)
Lemma anchored_tail r c1 c :
  aheadless r = true ->
  matches (Cat (Grp 1 r) (Cat dot_or_paren (plus space))) c1 c ->
  exists c2 g d ws2,
    matches r c1 c2 /\ rest c1 = g ++ d :: ws2 ++ rest c
    /\ rest c1 = g ++ rest c2
    /\ contains (ustr ".)") d = true /\ blank ws2 /\ ws2 <> []
    /\ span_of 1 (caps c) = Some (at_pos c1, at_pos c1 + length g)
    /\ at_pos c = at_pos c1 + length g + 1 + length ws2.
Proof.
  intros A M. inv M.
  match goal with H : matches (Grp _ _) _ _ |- _ => inv H end.
  match goal with H : matches r _ ?c2 |- _ =>
    rename H into Mr; destruct (@matches_prefix r A _ _ Mr) as [g [Eg Lg]] end.
  match goal with H : matches (Cat _ _) _ _ |- _ =>
    assert (Sp : caps c = caps (close_group 1 c1 c3))
      by (apply matches_groupless in H; [exact H | reflexivity]);
    inv H end.
  match goal with H : matches dot_or_paren _ _ |- _ =>
    unfold dot_or_paren, one_of in H; inv H end.
  match goal with H : matches (plus space) _ _ |- _ =>
    unfold plus in H; inv H end.
  match goal with H : iter _ _ _ _ |- _ =>
    apply iter_space_blank in H; destruct H as [ws2 [E2 [B2 [L2 [A2 _]]]]] end.
  cbn [rest at_pos caps close_group advance] in *.
  match goal with H : rest c3 = _ :: _ |- _ => rename H into Ed end.
  exists c3, g, x, ws2. repeat split; auto.
  - rewrite Eg, Ed, E2. reflexivity.
  - destruct ws2; [simpl in L2; lia | discriminate].
  - rewrite Sp. simpl. rewrite Lg. reflexivity.
  - lia.
Qed.

Lemma firstn_exact (pre tl : str) : firstn (length pre) (pre ++ tl) = pre.
Proof.
  rewrite firstn_app, firstn_all, Nat.sub_diag. simpl. apply app_nil_r.
Qed.

Lemma skipn_exact (pre tl : str) : skipn (length pre) (pre ++ tl) = tl.
Proof.
  rewrite skipn_app, skipn_all, Nat.sub_diag. reflexivity.
Qed.

(** The anatomy of a match of [blanks (group) delimiter blanks]. *)
Lemma delimited_from text ws c1 c r m :
  text = ws ++ rest c1 -> at_pos c1 = length ws -> stands_in text c1 ->
  aheadless r = true ->
  matches (Cat (Grp 1 r) (Cat dot_or_paren (plus space))) c1 c ->
  m_string m = text -> m_end m = at_pos c -> m_groups m = caps c ->
  exists g d ws2 c2,
    matches r c1 c2 /\ rest c1 = g ++ rest c2
    /\ contains (ustr ".)") d = true /\ blank ws2 /\ ws2 <> []
    /\ text = ws ++ g ++ d :: ws2 ++ skipn (m_end m) text
    /\ group m 1 = Some g
    /\ group0 m = ws ++ (g ++ [d]) ++ ws2.
Proof.
  intros Et At St A M Es Ee Eg.
  apply anchored_tail in M; [|exact A].
  destruct M as [c2 [g [d [ws2 [Mr [E1 [E2 [D [B2 [N2 [Sp Ac]]]]]]]]]]].
  assert (Etext : text = (ws ++ (g ++ [d]) ++ ws2) ++ rest c).
  { rewrite Et, E1, <- !app_assoc. reflexivity. }
  assert (Elen : m_end m = length (ws ++ (g ++ [d]) ++ ws2)).
  { rewrite Ee, Ac, At, !length_app. simpl. lia. }
  exists g, d, ws2, c2. repeat split; auto.
  - rewrite Elen. rewrite Etext at 2. rewrite skipn_exact.
    rewrite Etext, <- !app_assoc. reflexivity.
  - unfold group. rewrite Eg, Sp, Es. f_equal.
    apply slice_run with (tl := rest c2); assumption.
  - unfold group0. rewrite Es, Elen. rewrite Etext at 1. apply firstn_exact.
Qed.

Lemma delimiter_cases d :
  contains (ustr ".)") d = true -> d = uchr "." \/ d = uchr ")".
Proof.
  unfold contains. simpl. rewrite !orb_true_iff, !N.eqb_eq.
  intros [->|[->|F]]; auto. discriminate.
Qed.

Lemma trimmed_delimited g d :
  contains (ustr ".)") d = true -> starts_blank g = false ->
  trimmed (g ++ [d]).
Proof.
  intros D G. apply delimiter_cases in D. split.
  - destruct g as [|a g]; [|exact G]. destruct D as [->| ->]; reflexivity.
  - rewrite rev_app_distr. destruct D as [->| ->]; reflexivity.
Qed.

(** ** How an item was detected *)

Section Inversion.

Variable py : Interp.

Lemma try_patterns_inv ps text lvl item :
  try_patterns py ps text lvl = Some (Ok item) ->
  exists kind pattern m,
    In (kind, pattern) ps /\ re_match pattern text = Some m
    /\ item = {| item_type := kind; marker := strip (group0 m);
                 content := strip (skipn (m_end m) text);
                 level := lvl; index := index item;
                 is_continuation := false |}
    /\ index_of py kind m = Ok (index item).
Proof.
  induction ps as [|[kind pattern] ps IH]; simpl; [discriminate|].
  destruct (re_match pattern text) as [m|] eqn:M.
  - destruct (index_of py kind m) as [i|] eqn:I; simpl; intros H; inv H.
    exists kind, pattern, m. simpl. auto.
  - intros H. destruct (IH H) as [k [p [m [HIn R]]]].
    exists k, p, m. split; [right; exact HIn | exact R].
Qed.

Lemma scan_bullets_inv bs text w lvl item :
  scan_bullets bs text w lvl = Some item ->
  exists bullet pos,
    In bullet bs /\ contains w bullet = true
    /\ str_find text bullet = Some pos
    /\ item = {| item_type := BULLET; marker := firstn (pos + 1) text;
                 content := strip (skipn (pos + 1) text);
                 level := lvl; index := 0; is_continuation := false |}.
Proof.
  induction bs as [|b bs IH]; simpl; [discriminate|].
  destruct (contains w b) eqn:C.
  - destruct (str_find text b) as [pos|] eqn:F.
    + intros H. inv H. exists b, pos. auto.
    + intros H. destruct (IH H) as [b' [pos [HIn R]]]. exists b', pos. auto.
  - intros H. destruct (IH H) as [b' [pos [HIn R]]]. exists b', pos. auto.
Qed.

(** An item comes from the first pattern that matches, or else from the
    scan for a bullet. *)
Lemma detect_inv text x item :
  detect_list_item py text x = Ok (Some item) ->
  (exists kind pattern m,
      In (kind, pattern) (PATTERNS py) /\ re_match pattern text = Some m
      /\ item_type item = kind /\ marker item = strip (group0 m)
      /\ content item = strip (skipn (m_end m) text)
      /\ index_of py kind m = Ok (index item))
  \/ (try_patterns py (PATTERNS py) text (level item) = None
      /\ exists bullet pos,
          In bullet (set_iter py)
          /\ contains (firstn 10 (lstrip text)) bullet = true
          /\ str_find text bullet = Some pos
          /\ item_type item = BULLET /\ index item = 0%Z
          /\ marker item = firstn (pos + 1) text
          /\ content item = strip (skipn (pos + 1) text)).
Proof.
  rewrite detect_unfold. destruct (strip text); [discriminate|].
  destruct (level_of py x) as [lvl|]; cbn [bind]; [|discriminate].
  destruct (try_patterns py (PATTERNS py) text lvl) as [[it|]|] eqn:T;
    cbn [bind]; intros H; inv H.
  - left. apply try_patterns_inv in T.
    destruct T as [kind [pattern [m [HIn [M [E I]]]]]].
    exists kind, pattern, m.
    repeat split; try assumption; rewrite E; reflexivity.
  - right. match goal with H : scan_bullets _ _ _ _ = _ |- _ =>
      apply scan_bullets_inv in H;
      destruct H as [b [pos [HIn [C [F E]]]]] end.
    subst item. cbn [level]. split; [exact T|]. exists b, pos.
    repeat split; assumption || reflexivity.
Qed.

End Inversion.

(** ** What every detected item satisfies *)

(** X3.  The content of a detected item has no blank at either end, on both
    paths; and so has the marker of an item that is not a bullet, which can
    only come from a pattern. *)
Theorem detected_item_trimmed : forall (py : Interp) text x item,
  detect_list_item py text x = Ok (Some item) ->
  trimmed (content item)
  /\ (item_type item <> BULLET -> trimmed (marker item)).
Proof.
  intros py text x item H. apply detect_inv in H.
  destruct H as [[kind [pattern [m [_ [_ [_ [Em [Ec _]]]]]]]]
                |[_ [b [pos [_ [_ [_ [Ek [_ [_ Ec]]]]]]]]]].
  - rewrite Em, Ec. split; [|intros _]; apply strip_trimmed.
  - rewrite Ec. split; [apply strip_trimmed | congruence].
Qed.

Lemma detected_item_trimmed_witness :
  trimmed (ustr "Second option")
  /\ (LETTERED <> BULLET -> trimmed (ustr "b)")).
Proof.
  apply (@detected_item_trimmed py0 (ustr "  b)   Second option  ") (PyInt 0)
           {| item_type := LETTERED; marker := ustr "b)";
              content := ustr "Second option"; level := 0; index := 2;
              is_continuation := false |}).
  vm_compute. reflexivity.
Defined.

(** X4.  A detected item is never of kind [NONE], and a bullet item has
    index 0 whichever path found it. *)
Theorem detected_item_kind : forall (py : Interp) text x item,
  detect_list_item py text x = Ok (Some item) ->
  item_type item <> NONE
  /\ (item_type item = BULLET -> index item = 0%Z).
Proof.
  intros py text x item H. apply detect_inv in H.
  destruct H as [[kind [pattern [m [HIn [_ [Ek [_ [_ Ei]]]]]]]]
                |[_ [b [pos [_ [_ [_ [Ek [Ei _]]]]]]]]].
  - rewrite Ek. simpl in HIn.
    destruct HIn as [E|[E|[E|[E|[]]]]]; inv E;
      (split; [discriminate|]); try discriminate.
    intros _.
    match goal with H : BULLET = item_type item |- _ => rewrite <- H in Ei end.
    unfold index_of in Ei. cbn [ListType_eqb] in Ei. congruence.
  - rewrite Ek. split; [discriminate | auto].
Qed.

Lemma detected_item_kind_witness :
  BULLET <> NONE /\ (BULLET = BULLET -> 0%Z = 0%Z).
Proof.
  apply (@detected_item_kind py0 (ustr "well-known fact") (PyInt 0)
           {| item_type := BULLET; marker := ustr "well-";
              content := ustr "known fact"; level := 0; index := 0;
              is_continuation := false |}).
  vm_compute. reflexivity.
Defined.

Lemma pattern_of_kind py kind pattern :
  In (kind, pattern) (PATTERNS py) ->
  (kind = BULLET /\ pattern = BULLET_PATTERN)
  \/ (kind = NUMBERED /\ pattern = NUMBERED_PATTERN py)
  \/ (kind = LETTERED /\ pattern = LETTERED_PATTERN)
  \/ (kind = ROMAN /\ pattern = ROMAN_PATTERN).
Proof.
  intros H. simpl in H.
  destruct H as [E|[E|[E|[E|[]]]]]; inv E; auto 6.
Qed.

Lemma cons_app_inv (a : char) s g : a :: s = g ++ s -> g = [a].
Proof.
  intros E. assert (L := f_equal (@length char) E).
  rewrite length_app in L. simpl in L.
  destruct g as [|b [|b' g]]; simpl in L; try lia.
  inv E. reflexivity.
Qed.

Lemma letter_lower_range c :
  letter c = true ->
  (97 <= Z.of_N (ascii_lower c) <= 122)%Z /\ isspace c = false.
Proof.
  unfold letter, ascii_lower, isspace, between.
  change (uchr "a") with 97%N. change (uchr "z") with 122%N.
  change (uchr "A") with 65%N. change (uchr "Z") with 90%N.
  rewrite orb_true_iff, !andb_true_iff, !N.leb_le.
  intros H.
  assert (S : (65 <= c <= 122)%N) by lia. split.
  - destruct (N.leb_spec 65 c), (N.leb_spec c 90); simpl; lia.
  - repeat match goal with
           | |- context [(?a <=? ?b)%N] => destruct (N.leb_spec a b); try lia
           | |- context [(?a =? ?b)%N] => destruct (N.eqb_spec a b); try lia
           end; reflexivity.
Qed.

(** What a lettered item is made of. *)
Lemma lettered_anatomy_of_item : forall (py : Interp) text x item,
  detect_list_item py text x = Ok (Some item) ->
  item_type item = LETTERED ->
  exists c d,
    letter c = true /\ (d = uchr "." \/ d = uchr ")")
    /\ marker item = [c; d]
    /\ index item = (Z.of_N (ascii_lower c) - 96)%Z
    /\ (1 <= index item <= 26)%Z
    /\ forall translated target,
         reconstructs py item translated target
           ([ascii_lower c] ++ ustr ". " ++ translated).
Proof.
  intros py text xc item H K. apply detect_inv in H.
  destruct H as [[kind [pattern [m [HIn [M [Ek [Em [_ Ei]]]]]]]]
                |[_ [b [pos [_ [_ [_ [Ek _]]]]]]]]; [|congruence].
  apply pattern_of_kind in HIn.
  destruct HIn as [[E _]|[[E _]|[[_ ->]|[E _]]]]; try congruence.
  apply re_match_sound in M. destruct M as [cf [M [Es [Ee Eg]]]].
  apply anchored_head in M.
  destruct M as [ws [c1 [Et [B [At [_ [St M]]]]]]].
  destruct (@delimited_from text ws c1 cf (Cls letter) m)
    as [g [d [ws2 [c2 [Mr [Er [D [B2 [_ [_ [G G0]]]]]]]]]]]; auto.
  inv Mr. cbn [advance rest] in Er.
  match goal with H : rest c1 = _ :: _ |- _ => rewrite H in Er end.
  apply cons_app_inv in Er. subst g.
  match goal with H : letter x = true |- _ => rename H into Lx end.
  destruct (letter_lower_range _ Lx) as [R S].
  assert (Ei' : index item = (Z.of_N (ascii_lower x) - 96)%Z).
  { rewrite K in Ei. unfold index_of in Ei. cbn [ListType_eqb] in Ei.
    rewrite G in Ei. unfold lower in Ei. cbn [forallb] in Ei.
    rewrite (letter_ascii _ Lx) in Ei. cbn [andb map ord bind] in Ei.
    inv Ei. lia. }
  exists x, d. split; [exact Lx|]. split; [apply delimiter_cases, D|].
  split.
  { rewrite Em, G0. change [x; d] with ([x] ++ [d]). apply strip_core; auto.
    apply trimmed_delimited; [exact D | exact S]. }
  split; [exact Ei'|]. split; [lia|].
  intros translated target. apply reconstructs_by. intros indent SI.
  unfold reconstruct_list_text. rewrite SI. cbn [bind].
  rewrite K. cbn [ListType_eqb]. rewrite Ei'.
  replace (97 + (Z.of_N (ascii_lower x) - 96) - 1)%Z
    with (Z.of_N (ascii_lower x)) by lia.
  unfold chr.
  destruct (Z.ltb_spec (Z.of_N (ascii_lower x)) (- 2 ^ 31)); [lia|].
  destruct (Z.leb_spec (2 ^ 31) (Z.of_N (ascii_lower x))); [lia|].
  destruct (Z.leb_spec 0 (Z.of_N (ascii_lower x))); [|lia].
  destruct (Z.ltb_spec (Z.of_N (ascii_lower x)) 1114112); [|lia].
  cbn [orb andb bind]. rewrite N2Z.id. reflexivity.
Qed.

(** X5.  A lettered item: the marker is the letter and its delimiter, the
    index is the place of the letter in the alphabet whatever its case,
    from 1 to 26.  Reconstruction writes four spaces a level, the letter in
    lower case, then a dot, whatever the delimiter was; it fails only when
    that indentation cannot be built, with [OverflowError] or
    [MemoryError]. *)
Theorem lettered_item : forall (py : Interp) text x item,
  detect_list_item py text x = Ok (Some item) ->
  item_type item = LETTERED ->
  exists c d,
    letter c = true /\ (d = uchr "." \/ d = uchr ")")
    /\ marker item = [c; d]
    /\ index item = (Z.of_N (ascii_lower c) - 96)%Z
    /\ (1 <= index item <= 26)%Z
    /\ forall translated target,
         reconstructs py item translated target
           ([ascii_lower c] ++ ustr ". " ++ translated).
Proof. exact lettered_anatomy_of_item. Qed.

Lemma lettered_item_witness :
  exists c d,
    letter c = true /\ (d = uchr "." \/ d = uchr ")")
    /\ ustr "B)" = [c; d]
    /\ 2%Z = (Z.of_N (ascii_lower c) - 96)%Z
    /\ (1 <= 2 <= 26)%Z
    /\ forall translated target,
         reconstructs py0
           {| item_type := LETTERED; marker := ustr "B)";
              content := ustr "Second option"; level := 1; index := 2;
              is_continuation := false |}
           translated target ([ascii_lower c] ++ ustr ". " ++ translated).
Proof.
  apply (@lettered_item py0 (ustr "B) Second option") (PyInt 40)
           {| item_type := LETTERED; marker := ustr "B)";
              content := ustr "Second option"; level := 1; index := 2;
              is_continuation := false |}).
  - vm_compute. reflexivity.
  - reflexivity.
Defined.

(** ** Numbers read and written *)

Lemma todecimal_sound py c v :
  decimals_sound py -> todecimal py c = Some v ->
  (0 <= v <= 9)%Z /\ isspace c = false.
Proof.
  intros S. unfold todecimal, is_ascii, between.
  change (uchr "0") with 48%N. change (uchr "9") with 57%N.
  destruct (N.ltb_spec c 128); [|apply S].
  destruct (N.leb_spec 48 c); [|discriminate].
  destruct (N.leb_spec c 57); [|discriminate].
  simpl. intros E. inv E. split; [lia|].
  unfold isspace.
  repeat match goal with
         | |- context [(?a <=? ?b)%N] => destruct (N.leb_spec a b); try lia
         | |- context [(?a =? ?b)%N] => destruct (N.eqb_spec a b); try lia
         end; reflexivity.
Qed.

Lemma of_lu_digit_before v u :
  (0 <= v <= 9)%Z ->
  Z.of_N (DecimalPos.Unsigned.of_lu (digit_before v u))
  = (10 * Z.of_N (DecimalPos.Unsigned.of_lu u) + v)%Z.
Proof.
  intros H.
  assert (C : (v = 0 \/ v = 1 \/ v = 2 \/ v = 3 \/ v = 4 \/ v = 5 \/ v = 6
               \/ v = 7 \/ v = 8 \/ v = 9)%Z) by lia.
  repeat (destruct C as [->|C]); try subst v;
    cbn [digit_before DecimalPos.Unsigned.of_lu]; lia.
Qed.

Lemma nb_digits_digit_before v u :
  Decimal.nb_digits (digit_before v u) = S (Decimal.nb_digits u).
Proof.
  destruct v as [|p|p]; [reflexivity| |reflexivity].
  do 4 (try destruct p as [p|p|]; try reflexivity).
Qed.

(** Reading digits builds, least digit first, the numeral of the value. *)
Lemma digits_value_numeral py ds :
  decimals_sound py ->
  forall u v,
    digits_value py (Z.of_N (DecimalPos.Unsigned.of_lu u)) ds = Some v ->
    exists u', v = Z.of_N (DecimalPos.Unsigned.of_lu u')
               /\ Decimal.nb_digits u' = length ds + Decimal.nb_digits u.
Proof.
  intros S. induction ds as [|c ds IH]; cbn [digits_value length];
    intros u v H.
  - inv H. exists u. auto.
  - destruct (todecimal py c) as [d|] eqn:T; [|discriminate].
    destruct (todecimal_sound _ S T) as [R _].
    rewrite <- (of_lu_digit_before u R) in H.
    apply IH in H. destruct H as [u' [E L]]. exists u'. split; [exact E|].
    rewrite L, nb_digits_digit_before. lia.
Qed.

Lemma length_string_of_uint u :
  length (ustr (NilZero.string_of_uint u))
  = match u with Decimal.Nil => 1 | _ => Decimal.nb_digits u end.
Proof.
  assert (G : forall w, length (ustr (NilEmpty.string_of_uint w))
                        = Decimal.nb_digits w).
  { induction w; simpl; unfold ustr in *; simpl; try rewrite length_map in *;
      simpl; auto. }
  destruct u; try apply G. reflexivity.
Qed.

(** The index of a run of digits prints in no more digits than were read. *)
Lemma decimal_digits_short py ds v :
  decimals_sound py -> ds <> [] ->
  digits_value py 0 ds = Some v ->
  (0 <= v)%Z /\ length (decimal_digits v) <= length ds.
Proof.
  intros S N H.
  change 0%Z with (Z.of_N (DecimalPos.Unsigned.of_lu Decimal.Nil)) in H.
  apply digits_value_numeral in H; [|exact S].
  destruct H as [u [E L]]. simpl in L. rewrite Nat.add_0_r in L.
  split; [lia|]. unfold decimal_digits. rewrite E, Zabs2N.id.
  rewrite <- DecimalPos.Unsigned.of_lu_rev.
  change (Pos.of_uint (Decimal.rev u)) with (N.of_uint (Decimal.rev u)).
  rewrite DecimalN.Unsigned.to_of, length_string_of_uint.
  assert (Nu : Decimal.rev u <> Decimal.Nil).
  { apply nb_digits_n0. rewrite nb_digits_rev, L.
    destruct ds; [congruence | simpl; lia]. }
  pose proof (nb_digits_unorm _ Nu) as B. rewrite nb_digits_rev, L in B.
  destruct (Decimal.unorm (Decimal.rev u)) eqn:U; try exact B.
  destruct ds; [congruence | simpl; lia].
Qed.

(** What a numbered item is made of. *)
Lemma numbered_anatomy_of_item : forall (py : Interp) text x item,
  decimals_sound py ->
  detect_list_item py text x = Ok (Some item) ->
  item_type item = NUMBERED ->
  exists ds d,
    ds <> [] /\ forallb (isdecimal py) ds = true
    /\ (d = uchr "." \/ d = uchr ")")
    /\ marker item = ds ++ [d]
    /\ digits_value py 0 ds = Some (index item)
    /\ (0 <= index item)%Z
    /\ length (decimal_digits (index item)) <= length ds
    /\ forall translated target,
         reconstructs py item translated target
           (decimal_digits (index item) ++ ustr ". " ++ translated).
Proof.
  intros py text xc item S H K. apply detect_inv in H.
  destruct H as [[kind [pattern [m [HIn [M [Ek [Em [_ Ei]]]]]]]]
                |[_ [b [pos [_ [_ [_ [Ek _]]]]]]]]; [|congruence].
  apply pattern_of_kind in HIn.
  destruct HIn as [[E _]|[[_ ->]|[[E _]|[E _]]]]; try congruence.
  apply re_match_sound in M. destruct M as [cf [M [Es [Ee Eg]]]].
  apply anchored_head in M.
  destruct M as [ws [c1 [Et [B [At [_ [St M]]]]]]].
  destruct (@delimited_from text ws c1 cf (plus (Cls (isdecimal py))) m)
    as [g [d [ws2 [c2 [Mr [Er [D [B2 [_ [_ [G G0]]]]]]]]]]]; auto.
  unfold plus in Mr. inv Mr.
  match goal with H : iter _ _ _ _ |- _ =>
    apply iter_cls in H; destruct H as [ds [Eds [Lds [Fds _]]]] end.
  rewrite Eds in Er. apply app_inv_tail in Er. subst g.
  assert (Nds : ds <> []) by (destruct ds; [simpl in Lds; lia | discriminate]).
  rewrite K in Ei. unfold index_of in Ei. cbn [ListType_eqb] in Ei.
  rewrite G in Ei. unfold int_of_str in Ei.
  destruct ds as [|c0 ds0] eqn:Eq; [congruence|]. rewrite <- Eq in *.
  destruct (digits_value py 0 ds) as [v|] eqn:V; [|discriminate].
  destruct (over_digit_limit py (length ds)) eqn:O; [discriminate|].
  inv Ei.
  destruct (decimal_digits_short S Nds V) as [P Sh].
  exists (c0 :: ds0), d.
  split; [exact Nds|]. split; [exact Fds|].
  split; [apply delimiter_cases, D|]. split.
  { rewrite Em, G0. apply strip_core; auto. apply trimmed_delimited; [exact D|].
    simpl. simpl in Fds. apply andb_prop in Fds. destruct Fds as [F0 _].
    unfold isdecimal in F0. destruct (todecimal py c0) eqn:T; [|discriminate].
    apply (todecimal_sound _ S T). }
  split; [exact V|]. split; [exact P|]. split; [exact Sh|].
  intros translated target. apply reconstructs_by. intros indent SI.
  unfold reconstruct_list_text. rewrite SI. cbn [bind].
  rewrite K. cbn [ListType_eqb]. unfold str_of_int.
  rewrite (over_digit_limit_mono py Sh O).
  destruct (Z.ltb_spec (index item) 0); [lia|]. reflexivity.
Qed.

(** X6.  A numbered item: the marker is the run of digits and its
    delimiter, the index is the decimal value of the run, at least 0.
    Reconstruction writes four spaces a level, the index in decimal, in no
    more digits than were read (leading zeros are lost), then a dot; it
    fails only when that indentation cannot be built, with [OverflowError]
    or [MemoryError]. *)
Theorem numbered_item : forall (py : Interp) text x item,
  decimals_sound py ->
  detect_list_item py text x = Ok (Some item) ->
  item_type item = NUMBERED ->
  exists ds d,
    ds <> [] /\ forallb (isdecimal py) ds = true
    /\ (d = uchr "." \/ d = uchr ")")
    /\ marker item = ds ++ [d]
    /\ digits_value py 0 ds = Some (index item)
    /\ (0 <= index item)%Z
    /\ length (decimal_digits (index item)) <= length ds
    /\ forall translated target,
         reconstructs py item translated target
           (decimal_digits (index item) ++ ustr ". " ++ translated).
Proof. exact numbered_anatomy_of_item. Qed.

Lemma py0_decimals_sound : decimals_sound py0.
Proof. intros c v H. discriminate H. Qed.

Lemma numbered_item_witness :
  exists ds d,
    ds <> [] /\ forallb (isdecimal py0) ds = true
    /\ (d = uchr "." \/ d = uchr ")")
    /\ ustr "007)" = ds ++ [d]
    /\ digits_value py0 0 ds = Some 7%Z
    /\ (0 <= 7)%Z
    /\ length (decimal_digits 7) <= length ds
    /\ forall translated target,
         reconstructs py0
           {| item_type := NUMBERED; marker := ustr "007)";
              content := ustr "Bond"; level := 0; index := 7;
              is_continuation := false |}
           translated target (decimal_digits 7 ++ ustr ". " ++ translated).
Proof.
  apply (@numbered_item py0 (ustr "007) Bond") (PyInt 0)
           {| item_type := NUMBERED; marker := ustr "007)";
              content := ustr "Bond"; level := 0; index := 7;
              is_continuation := false |}).
  - exact py0_decimals_sound.
  - vm_compute. reflexivity.
  - reflexivity.
Defined.

(** ** The words of the Roman pattern *)

Lemma str_eqb_eq a : forall b, str_eqb a b = true -> a = b.
Proof.
  induction a as [|x a IH]; intros [|y b]; simpl; try discriminate; auto.
  intros H. apply andb_prop in H. destruct H as [E H].
  apply N.eqb_eq in E. subst y. f_equal. auto.
Qed.

Lemma matches_lit a c c' :
  matches (lit a) c c' -> rest c = uchr a :: rest c'.
Proof.
  unfold lit. intros M. inv M.
  match goal with H : (_ =? _)%N = true |- _ => apply N.eqb_eq in H; subst end.
  simpl. assumption.
Qed.

Lemma matches_up_to n a c c' :
  matches (up_to n (lit a)) c c' ->
  exists k, k <= n /\ rest c = repeat (uchr a) k ++ rest c'.
Proof.
  unfold up_to, lit. intros M. inv M.
  match goal with H : iter _ _ _ _ |- _ =>
    apply iter_cls in H; destruct H as [ds [E [L [F _]]]] end.
  match goal with H : within _ _ |- _ => simpl in H end.
  exists (length ds). split; [lia|]. rewrite E. f_equal.
  clear - F. induction ds as [|x ds IH]; simpl in *; [reflexivity|].
  apply andb_prop in F. destruct F as [Fx F]. apply N.eqb_eq in Fx.
  subst x. f_equal. auto.
Qed.

Lemma matches_digit_group one five ten c c' :
  matches (Alt (Cat (lit one) (lit ten))
               (Alt (Cat (lit one) (lit five))
                    (Cat (opt (lit five)) (up_to 3 (lit one))))) c c' ->
  exists w, In w (digit_words one five ten) /\ rest c = w ++ rest c'.
Proof.
  intros M. inv M; [|match goal with H : matches (Alt _ _) _ _ |- _ =>
                       inv H end].
  - match goal with H : matches (Cat _ _) _ _ |- _ => inv H end.
    repeat match goal with H : matches (lit _) _ _ |- _ =>
      apply matches_lit in H end.
    exists [uchr one; uchr ten]. split; [simpl; auto|]. simpl. congruence.
  - match goal with H : matches (Cat _ _) _ _ |- _ => inv H end.
    repeat match goal with H : matches (lit _) _ _ |- _ =>
      apply matches_lit in H end.
    exists [uchr one; uchr five]. split; [simpl; auto|]. simpl. congruence.
  - match goal with H : matches (Cat _ _) _ _ |- _ => inv H end.
    match goal with H : matches (opt _) _ _ |- _ =>
      change (opt (lit five)) with (up_to 1 (lit five)) in H;
      apply matches_up_to in H; destruct H as [k1 [L1 E1]] end.
    match goal with H : matches (up_to 3 _) _ _ |- _ =>
      apply matches_up_to in H; destruct H as [k2 [L2 E2]] end.
    exists (repeat (uchr five) k1 ++ repeat (uchr one) k2).
    split; [|rewrite E1, E2, app_assoc; reflexivity].
    destruct k1 as [|[|k1]]; [| |lia];
      destruct k2 as [|[|[|[|k2]]]]; try lia; simpl; auto 12.
Qed.

Lemma matches_roman_words c c' :
  matches (Cat (up_to 4 (lit "M"))
            (Cat (Grp 2 (Alt (Cat (lit "C") (lit "M"))
                        (Alt (Cat (lit "C") (lit "D"))
                             (Cat (opt (lit "D")) (up_to 3 (lit "C"))))))
            (Cat (Grp 3 (Alt (Cat (lit "X") (lit "C"))
                        (Alt (Cat (lit "X") (lit "L"))
                             (Cat (opt (lit "L")) (up_to 3 (lit "X"))))))
                 (Grp 4 (Alt (Cat (lit "I") (lit "X"))
                        (Alt (Cat (lit "I") (lit "V"))
                             (Cat (opt (lit "V")) (up_to 3 (lit "I"))))))))) c c' ->
  exists w, In w roman_words /\ rest c = w ++ rest c'.
Proof.
  intros M. inv M.
  match goal with H : matches (up_to 4 _) _ _ |- _ =>
    apply matches_up_to in H; destruct H as [k [Lk Em]] end.
  match goal with H : matches (Cat _ _) _ _ |- _ => inv H end.
  match goal with H : matches (Cat _ _) _ _ |- _ => inv H end.
  repeat match goal with H : matches (Grp _ _) _ _ |- _ => inv H end.
  repeat match goal with H : matches (Alt _ _) _ _ |- _ =>
    apply matches_digit_group in H; destruct H as [? [? ?]] end.
  cbn [rest close_group] in *.
  match goal with
  | Hh : In ?h (digit_words "C" "D" "M"), Ht : In ?t (digit_words "X" "L" "C"),
    Ho : In ?o (digit_words "I" "V" "X") |- _ =>
      exists (repeat (uchr "M") k ++ h ++ t ++ o); split;
      [ unfold roman_words; apply in_flat_map;
        exists (repeat (uchr "M") k); split;
        [ destruct k as [|[|[|[|[|k]]]]]; try lia; simpl; auto 6
        | apply in_flat_map; exists h; split; [exact Hh|];
          apply in_flat_map; exists t; split; [exact Ht|];
          apply (in_map (fun o0 => repeat (uchr "M") k ++ h ++ t ++ o0)),
                Ho ]
      | rewrite <- !app_assoc; congruence ]
  end.
Qed.

Lemma roman_words_checked py :
  forallb (roman_word_ok py) roman_words = true.
Proof. vm_compute. reflexivity. Qed.

Lemma roman_word_spec py w :
  In w roman_words -> w <> [] ->
  (1 <= _roman_to_int py (upper py w) <= 4999)%Z
  /\ starts_blank w = false
  /\ _int_to_roman (_roman_to_int py (upper py w)) = Ok w.
Proof.
  intros HIn N. pose proof (roman_words_checked py) as C.
  rewrite forallb_forall in C. apply C in HIn. clear C.
  unfold roman_word_ok in HIn. destruct w as [|a w]; [congruence|].
  set (v := _roman_to_int py (upper py (a :: w))) in *.
  apply andb_prop in HIn. destruct HIn as [HIn E].
  apply andb_prop in HIn. destruct HIn as [HIn S].
  apply andb_prop in HIn. destruct HIn as [L U].
  apply Z.leb_le in L, U. apply negb_true_iff in S.
  destruct (_int_to_roman v) as [w'|]; [|discriminate].
  apply str_eqb_eq in E. subst w'. auto.
Qed.

(** X7.  A Roman item: the marker is the numeral and its delimiter, the
    index is from 1 to 4999, and [_int_to_roman] of the index is the numeral
    as it stood in the text.  Reconstruction writes four spaces a level,
    that same numeral, then a dot; it fails only when that indentation
    cannot be built, with [OverflowError] or [MemoryError]. *)
Theorem roman_item : forall (py : Interp) text x item,
  detect_list_item py text x = Ok (Some item) ->
  item_type item = ROMAN ->
  exists numeral d,
    numeral <> [] /\ In numeral roman_words
    /\ (d = uchr "." \/ d = uchr ")")
    /\ marker item = numeral ++ [d]
    /\ (1 <= index item <= 4999)%Z
    /\ _int_to_roman (index item) = Ok numeral
    /\ forall translated target,
         reconstructs py item translated target
           (numeral ++ ustr ". " ++ translated).
Proof.
  intros py text xc item H K. apply detect_inv in H.
  destruct H as [[kind [pattern [m [HIn [M [Ek [Em [_ Ei]]]]]]]]
                |[_ [b [pos [_ [_ [_ [Ek _]]]]]]]]; [|congruence].
  apply pattern_of_kind in HIn.
  destruct HIn as [[E _]|[[E _]|[[E _]|[_ ->]]]]; try congruence.
  apply re_match_sound in M. destruct M as [cf [M [Es [Ee Eg]]]].
  apply anchored_head in M.
  destruct M as [ws [c1 [Et [B [At [_ [St M]]]]]]].
  inv M.
  match goal with H : matches (Ahead _) _ _ |- _ => inv H end.
  match goal with H : matches (one_of _) _ _ |- _ =>
    unfold one_of in H; inv H end.
  match goal with H : rest c1 = ?a :: _, H' : contains _ ?a = true |- _ =>
    rename H into Ehead; rename H' into Rhead end.
  match goal with H : matches (Cat (Grp 1 ?r) _) ?c0 _ |- _ =>
    assert (A : aheadless r = true) by reflexivity;
    destruct (@delimited_from (ws ++ rest c1) ws c0 cf r m Logic.eq_refl At St
                A H Es Ee Eg)
      as [g [d [ws2 [c2 [Mr [Er [D [B2 [_ [Et' [G G0]]]]]]]]]]] end.
  cbn [rest look_back] in Er.
  apply matches_roman_words in Mr. destruct Mr as [w [Hw Ew]].
  cbn [rest look_back] in Ew. rewrite Ew in Er. apply app_inv_tail in Er.
  subst w.
  assert (N : g <> []).
  { intros ->. apply app_inv_head in Et'. simpl in Et'.
    rewrite Ehead in Et'. inv Et'. apply delimiter_cases in D.
    destruct D as [->| ->]; vm_compute in Rhead; discriminate. }
  destruct (roman_word_spec py Hw N) as [R [Sb Back]].
  rewrite K in Ei. unfold index_of in Ei. cbn [ListType_eqb] in Ei.
  rewrite G in Ei. inv Ei.
  match goal with H : _ = index item |- _ => rewrite H in * end.
  exists g, d. split; [exact N|]. split; [exact Hw|].
  split; [apply delimiter_cases, D|]. split.
  { rewrite Em, G0. apply strip_core; auto.
    apply trimmed_delimited; assumption. }
  split; [exact R|]. split; [exact Back|].
  intros translated target. apply reconstructs_by. intros indent SI.
  unfold reconstruct_list_text. rewrite SI. cbn [bind].
  rewrite K. cbn [ListType_eqb]. rewrite Back. reflexivity.
Qed.

Lemma roman_item_witness :
  exists numeral d,
    numeral <> [] /\ In numeral roman_words
    /\ (d = uchr "." \/ d = uchr ")")
    /\ ustr "MCMXCIV)" = numeral ++ [d]
    /\ (1 <= 1994 <= 4999)%Z
    /\ _int_to_roman 1994 = Ok numeral
    /\ forall translated target,
         reconstructs py0
           {| item_type := ROMAN; marker := ustr "MCMXCIV)";
              content := ustr "x"; level := 0; index := 1994;
              is_continuation := false |}
           translated target (numeral ++ ustr ". " ++ translated).
Proof.
  apply (@roman_item py0 (ustr "MCMXCIV) x") (PyInt 0)
           {| item_type := ROMAN; marker := ustr "MCMXCIV)";
              content := ustr "x"; level := 0; index := 1994;
              is_continuation := false |}).
  - vm_compute. reflexivity.
  - reflexivity.
Defined.

(** ** Bullets *)

Lemma bullet_class_chars g :
  contains bullet_class g = true ->
  In g BULLET_CHARS /\ isspace g = false.
Proof.
  unfold contains. rewrite existsb_exists. intros [y [HIn E]].
  apply N.eqb_eq in E. subst y. simpl in HIn.
  repeat (destruct HIn as [<-|HIn];
          [split; [simpl; tauto | reflexivity]|]).
  destruct HIn.
Qed.

Lemma str_find_split text b : forall pos,
  str_find text b = Some pos ->
  exists pre tl, text = pre ++ b :: tl /\ length pre = pos.
Proof.
  induction text as [|y text IH]; simpl; intros pos H; [discriminate|].
  destruct (N.eqb_spec y b) as [->|N].
  - inv H. exists [], text. auto.
  - destruct (str_find text b) as [i|]; [|discriminate]. inv H.
    destruct (IH i Logic.eq_refl) as [pre [tl [E L]]].
    exists (y :: pre), tl. simpl. rewrite E, L. auto.
Qed.

(** X8.  A bullet item: the marker ends with a glyph of [BULLET_CHARS] (it
    is that glyph alone when the bullet pattern matched).  Reconstruction
    writes four spaces a level, the one glyph U+2022 and a space, whichever
    glyph, and whatever text before it, the marker held; it fails only when
    that indentation cannot be built, with [OverflowError] or
    [MemoryError]. *)
Theorem bullet_item : forall (py : Interp) text x item,
  Permutation (set_iter py) BULLET_CHARS ->
  detect_list_item py text x = Ok (Some item) ->
  item_type item = BULLET ->
  (exists before glyph,
      In glyph BULLET_CHARS /\ marker item = before ++ [glyph]
      /\ (try_patterns py (PATTERNS py) text (level item) <> None ->
          before = []))
  /\ forall translated target,
       reconstructs py item translated target
           ([8226%N] ++ ustr " " ++ translated).
Proof.
  intros py text xc item P H K. split.
  2:{ intros translated target. apply reconstructs_by. intros indent SI.
      unfold reconstruct_list_text. rewrite SI. cbn [bind].
      rewrite K. reflexivity. }
  apply detect_inv in H.
  destruct H as [[kind [pattern [m [HIn [M [Ek [Em [_ Ei]]]]]]]]
                |[T [b [pos [Hb [_ [F [_ [_ [Em _]]]]]]]]]].
  - apply pattern_of_kind in HIn.
    destruct HIn as [[_ ->]|[[E _]|[[E _]|[E _]]]]; try congruence.
    apply re_match_sound in M. destruct M as [cf [M [Es [Ee Eg]]]].
    apply anchored_head in M.
    destruct M as [ws [c1 [Et [B [At [_ [St M]]]]]]].
    inv M.
    match goal with H : matches (Grp _ _) _ _ |- _ => inv H end.
    match goal with H : matches (one_of _) _ _ |- _ =>
      unfold one_of in H; inv H end.
    match goal with H : matches (plus space) _ _ |- _ =>
      unfold plus in H; inv H end.
    match goal with H : iter _ _ _ _ |- _ =>
      apply iter_space_blank in H;
      destruct H as [ws2 [E2 [B2 [L2 [A2 _]]]]] end.
    cbn [rest at_pos close_group advance] in *.
    match goal with H : rest c1 = ?g :: _, H' : contains _ ?g = true |- _ =>
      rename H into Eg1; destruct (bullet_class_chars _ H') as [Gin Gs];
      exists [], g end.
    split; [exact Gin|]. split; [|reflexivity].
    rewrite Em. unfold group0. rewrite Es, Ee, A2, At.
    rewrite Eg1, E2.
    match goal with |- strip (firstn _ (ws ++ ?g :: ws2 ++ ?tl)) = _ =>
      replace (ws ++ g :: ws2 ++ tl) with ((ws ++ [g] ++ ws2) ++ tl)
        by (rewrite <- !app_assoc; reflexivity);
      replace (S (length ws) + n)
        with (length (ws ++ [g] ++ ws2))
        by (rewrite !length_app; simpl; lia)
    end.
    rewrite firstn_exact. apply strip_core; auto.
    split; simpl; exact Gs.
  - apply str_find_split in F. destruct F as [pre [tl [E L]]].
    exists pre, b. split; [eapply Permutation_in; eassumption|].
    split; [|intros N; congruence].
    rewrite Em, E, <- L.
    replace (pre ++ b :: tl) with ((pre ++ [b]) ++ tl)
      by (rewrite <- app_assoc; reflexivity).
    replace (length pre + 1) with (length (pre ++ [b]))
      by (rewrite length_app; simpl; lia).
    apply firstn_exact.
Qed.

Lemma bullet_item_witness :
  (exists before glyph,
      In glyph BULLET_CHARS /\ ustr "well-" = before ++ [glyph]
      /\ (try_patterns py0 (PATTERNS py0) (ustr "well-known fact") 0 <> None ->
          before = []))
  /\ forall translated target,
       reconstructs py0
         {| item_type := BULLET; marker := ustr "well-";
            content := ustr "known fact"; level := 0; index := 0;
            is_continuation := false |}
         translated target ([8226%N] ++ ustr " " ++ translated).
Proof.
  apply (@bullet_item py0 (ustr "well-known fact") (PyInt 0)
           {| item_type := BULLET; marker := ustr "well-";
              content := ustr "known fact"; level := 0; index := 0;
              is_continuation := false |}).
  - apply Permutation_refl.
  - vm_compute. reflexivity.
  - reflexivity.
Defined.

(** ** When nothing is detected *)

Lemma strip_nil_blank s : strip s = [] -> blank s.
Proof.
  unfold strip, blank. intros H.
  destruct (dropwhile_split isspace s) as [w [E F]].
  destruct (rstrip_prefix (lstrip s)) as [w' [E' F']].
  rewrite H in E'. simpl in E'. unfold lstrip in E'.
  rewrite E, E', forallb_app, F, F'. reflexivity.
Qed.

Lemma try_patterns_none_inv py ps text lvl :
  try_patterns py ps text lvl = None ->
  forall kind pattern, In (kind, pattern) ps -> re_match pattern text = None.
Proof.
  induction ps as [|[k p] ps IH]; simpl; intros H kind pattern HIn;
    [destruct HIn|].
  destruct (re_match p text) eqn:M; [discriminate|].
  destruct HIn as [E|HIn]; [inv E; exact M | eauto].
Qed.

Lemma contains_in w b : contains w b = true <-> In b w.
Proof.
  unfold contains. rewrite existsb_exists. split.
  - intros [y [HIn E]]. apply N.eqb_eq in E. subst y. exact HIn.
  - intros HIn. exists b. split; [exact HIn | apply N.eqb_refl].
Qed.

Lemma str_find_in text b : In b text -> exists pos, str_find text b = Some pos.
Proof.
  induction text as [|y text IH]; simpl; [intros []|].
  intros H. destruct (N.eqb_spec y b); [eauto|].
  destruct H as [E|H]; [congruence|].
  destruct (IH H) as [pos ->]. eauto.
Qed.

Lemma window_in_text text b :
  In b (firstn 10 (lstrip text)) -> In b text.
Proof.
  intros H.
  assert (H' : In b (lstrip text)).
  { rewrite <- (firstn_skipn 10 (lstrip text)). apply in_or_app. left.
    exact H. }
  unfold lstrip in H'.
  destruct (dropwhile_split isspace text) as [w [E _]].
  rewrite E. apply in_or_app. right. exact H'.
Qed.

Lemma scan_bullets_none_inv bs text w lvl :
  (forall b, In b w -> In b text) ->
  scan_bullets bs text w lvl = None ->
  forall b, In b bs -> contains w b = false.
Proof.
  intros W. induction bs as [|b0 bs IH]; simpl; intros H b HIn;
    [destruct HIn|].
  destruct (contains w b0) eqn:C.
  - apply contains_in, W, str_find_in in C.
    destruct C as [pos F]. rewrite F in H. discriminate H.
  - destruct HIn as [<-|HIn]; [exact C | eauto].
Qed.

(** X9.  When [detect_list_item] returns (the coordinate is finite, the
    digit limit lets the text through), it returns no item exactly for a
    blank text and for a text that no pattern matches and whose window of
    ten characters after the leading blanks holds no glyph. *)
Theorem detect_absent_iff : forall (py : Interp) (text : str) (x : number),
  Permutation (set_iter py) BULLET_CHARS ->
  finite x -> over_digit_limit py (length text) = false ->
  (detect_list_item py text x = Ok None <->
   blank text
   \/ ((forall kind pattern,
          In (kind, pattern) (PATTERNS py) -> re_match pattern text = None)
       /\ no_glyph (firstn 10 (lstrip text)) = true)).
Proof.
  intros py text x P F L. rewrite detect_unfold. split.
  - destruct (strip text) eqn:S; [left; apply strip_nil_blank, S|].
    destruct (level_of_finite py x F) as [lvl E]. rewrite E. cbn [bind].
    destruct (try_patterns py (PATTERNS py) text lvl) as [r|] eqn:T.
    + apply try_patterns_total in T; [|apply incl_refl | exact L].
      destruct T as [item ->]. discriminate.
    + intros H. right. split; [apply (try_patterns_none_inv _ _ _ _ T)|].
      inv H. unfold no_glyph. apply forallb_forall. intros b Hb.
      apply negb_true_iff.
      eapply scan_bullets_none_inv;
        [apply window_in_text | eassumption |].
      eapply Permutation_in; [apply Permutation_sym|]; eassumption.
  - intros [B|[M G]].
    + rewrite (strip_blank B). reflexivity.
    + destruct (strip text); [reflexivity|].
      destruct (level_of_finite py x F) as [lvl E]. rewrite E. cbn [bind].
      rewrite (try_patterns_none py _ _ lvl M).
      rewrite scan_no_glyph; [reflexivity | exact P | exact G].
Qed.

Lemma detect_absent_iff_witness :
  detect_list_item py0 (ustr "well-known fact") (PyInt 0) = Ok None <->
  blank (ustr "well-known fact")
  \/ ((forall kind pattern,
         In (kind, pattern) (PATTERNS py0) ->
         re_match pattern (ustr "well-known fact") = None)
      /\ no_glyph (firstn 10 (lstrip (ustr "well-known fact"))) = true).
Proof.
  apply (@detect_absent_iff py0 (ustr "well-known fact") (PyInt 0)).
  - apply Permutation_refl.
  - exact I.
  - reflexivity.
Defined.

(** ** Lines of a known shape *)

Lemma blank_prefix_unique ws : forall ws' a a' (t t' : str),
  ws ++ a :: t = ws' ++ a' :: t' -> blank ws -> blank ws' ->
  isspace a = false -> isspace a' = false ->
  ws = ws' /\ a = a' /\ t = t'.
Proof.
  unfold blank.
  induction ws as [|y ws IH]; intros [|y' ws'] a a' t t' E B B' S S';
    simpl in *.
  - inv E. auto.
  - inv E. apply andb_prop in B'. destruct B'. congruence.
  - inv E. apply andb_prop in B. destruct B. congruence.
  - inv E. apply andb_prop in B. apply andb_prop in B'.
    destruct B as [_ B], B' as [_ B'].
    match goal with H : ws ++ _ = ws' ++ _ |- _ =>
      destruct (IH _ _ _ _ _ H B B' S S') as [-> [-> ->]] end.
    auto.
Qed.

Lemma strip_nonblank a (pre post : str) :
  isspace a = false -> strip (pre ++ a :: post) <> [].
Proof.
  intros S H. apply strip_nil_blank in H. unfold blank in H.
  rewrite forallb_app in H. apply andb_prop in H. destruct H as [_ H].
  simpl in H. rewrite S in H. discriminate.
Qed.

Lemma strip_app_blank ws (t : str) : blank ws -> strip (ws ++ t) = strip t.
Proof.
  intros B. unfold strip, lstrip. rewrite dropwhile_app_all by exact B.
  reflexivity.
Qed.

(** A run of characters of a class is matched by the repetition of the
    class. *)
Lemma cls_run p ds : forall c tl,
  rest c = ds ++ tl -> forallb p ds = true ->
  exists c', iter (matches (Cls p)) (length ds) c c'
             /\ rest c' = tl /\ at_pos c' = at_pos c + length ds
             /\ caps c' = caps c.
Proof.
  induction ds as [|y ds IH]; intros c tl E F; simpl in *.
  - exists c. repeat split; auto. constructor.
  - apply andb_prop in F. destruct F as [Fy F].
    destruct (IH (advance c (ds ++ tl)) tl Logic.eq_refl F)
      as [c' [I [R [A C]]]].
    exists c'. simpl in A, C. repeat split; auto; [|lia].
    econstructor; [|exact I]. eapply M_cls; eassumption.
Qed.

Lemma anchored_anatomy text r m :
  aheadless r = true ->
  re_match (Cat Bol (Cat (lazy_star space)
              (Cat (Grp 1 r) (Cat dot_or_paren (plus space))))) text
  = Some m ->
  exists ws c1 c2 g d ws2,
    blank ws /\ matches r c1 c2 /\ rest c1 = g ++ rest c2
    /\ contains (ustr ".)") d = true /\ blank ws2
    /\ text = ws ++ g ++ d :: ws2 ++ skipn (m_end m) text
    /\ group m 1 = Some g
    /\ group0 m = ws ++ (g ++ [d]) ++ ws2.
Proof.
  intros A M. apply re_match_sound in M.
  destruct M as [cf [M [Es [Ee Eg]]]].
  apply anchored_head in M.
  destruct M as [ws [c1 [Et [B [At [_ [St M]]]]]]].
  destruct (@delimited_from text ws c1 cf r m Et At St A M Es Ee Eg)
    as [g [d [ws2 [c2 [Mr [Er [D [B2 [_ [Et' [G G0]]]]]]]]]]].
  exists ws, c1, c2, g, d, ws2. repeat split; assumption.
Qed.

(** The patterns match the lines written as they describe. *)
Lemma anchored_matches text r ws g d w tl :
  text = ws ++ g ++ d :: w :: tl -> blank ws ->
  (forall c, rest c = g ++ d :: w :: tl ->
             exists c', matches r c c' /\ rest c' = d :: w :: tl) ->
  contains (ustr ".)") d = true -> isspace w = true ->
  steady r = true ->
  re_match (Cat Bol (Cat (lazy_star space)
              (Cat (Grp 1 r) (Cat dot_or_paren (plus space))))) text
  <> None.
Proof.
  intros Et B Mr D W S N.
  assert (St : steady (Cat Bol (Cat (lazy_star space)
              (Cat (Grp 1 r) (Cat dot_or_paren (plus space))))) = true).
  { simpl. rewrite S. reflexivity. }
  rewrite re_match_none_iff in N by exact St.
  destruct (@cls_run isspace ws (start text) (g ++ d :: w :: tl))
    as [c1 [I1 [R1 _]]]; [exact Et | exact B |].
  destruct (Mr c1 R1) as [c2 [M2 R2]].
  apply (N (advance (advance (close_group 1 c1 c2) (w :: tl)) tl)).
  apply M_cat with (c1 := start text); [constructor; reflexivity|].
  apply M_cat with (c1 := c1).
  { unfold lazy_star. apply M_rep with (n := length ws); simpl; auto. lia. }
  apply M_cat with (c1 := close_group 1 c1 c2); [constructor; exact M2|].
  apply M_cat with (c1 := advance (close_group 1 c1 c2) (w :: tl)).
  { unfold dot_or_paren, one_of. eapply M_cls; [exact R2 | exact D]. }
  unfold plus. apply M_rep with (n := 1); simpl; auto.
  econstructor; [|constructor]. unfold space.
  eapply M_cls; [reflexivity | exact W].
Qed.

Lemma bullet_anatomy text m :
  re_match BULLET_PATTERN text = Some m ->
  exists ws g ws2,
    blank ws /\ contains bullet_class g = true /\ blank ws2
    /\ text = ws ++ g :: ws2 ++ skipn (m_end m) text
    /\ group0 m = ws ++ [g] ++ ws2.
Proof.
  intros M. apply re_match_sound in M. destruct M as [cf [M [Es [Ee Eg]]]].
  apply anchored_head in M.
  destruct M as [ws [c1 [Et [B [At [_ [St M]]]]]]].
  inv M.
  match goal with H : matches (Grp _ _) _ _ |- _ => inv H end.
  match goal with H : matches (one_of _) _ _ |- _ =>
    unfold one_of in H; inv H end.
  match goal with H : matches (plus space) _ _ |- _ =>
    unfold plus in H; inv H end.
  match goal with H : iter _ _ _ _ |- _ =>
    apply iter_space_blank in H;
    destruct H as [ws2 [E2 [B2 [L2 [A2 _]]]]] end.
  cbn [rest at_pos close_group advance] in *.
  match goal with H : rest c1 = ?g :: _, H' : contains _ ?g = true |- _ =>
    rename H into Eg1; rename H' into Gc; exists ws, g, ws2 end.
  assert (Etext : ws ++ rest c1 = (ws ++ [x] ++ ws2) ++ rest cf).
  { rewrite Eg1, E2, <- !app_assoc. reflexivity. }
  assert (Elen : m_end m = length (ws ++ [x] ++ ws2)).
  { rewrite Ee, A2, At, !length_app. simpl. lia. }
  repeat split; auto.
  - rewrite Elen, Etext, skipn_exact, <- !app_assoc. reflexivity.
  - unfold group0. rewrite Es, Elen, Etext. apply firstn_exact.
Qed.

Lemma bullet_no_match text ws a t :
  text = ws ++ a :: t -> blank ws -> isspace a = false ->
  contains bullet_class a = false ->
  re_match BULLET_PATTERN text = None.
Proof.
  intros Et B S C. destruct (re_match BULLET_PATTERN text) as [m|] eqn:M;
    [|reflexivity].
  apply bullet_anatomy in M.
  destruct M as [ws' [g [ws2 [B' [G [_ [E _]]]]]]].
  rewrite Et in E at 1.
  destruct (bullet_class_chars _ G) as [_ Sg].
  destruct (blank_prefix_unique _ _ _ _ E B B' S Sg) as [_ [-> _]].
  congruence.
Qed.

Lemma numbered_no_match py text ws a t :
  decimals_sound py ->
  text = ws ++ a :: t -> blank ws -> isspace a = false ->
  isdecimal py a = false ->
  re_match (NUMBERED_PATTERN py) text = None.
Proof.
  intros Snd Et B S C. subst text.
  destruct (re_match (NUMBERED_PATTERN py) (ws ++ a :: t)) as [m|] eqn:M;
    [|reflexivity].
  apply anchored_anatomy in M; [|reflexivity].
  destruct M as [ws' [c1 [c2 [g [d [ws2 [B' [Mr [Er [_ [_ [E _]]]]]]]]]]]].
  unfold plus in Mr. inv Mr.
  match goal with H : iter _ _ _ _ |- _ =>
    apply iter_cls in H; destruct H as [ds [Eds [Lds [Fds _]]]] end.
  rewrite Eds in Er. apply app_inv_tail in Er. subst g.
  destruct ds as [|y ds]; [simpl in Lds; lia|].
  simpl in Fds. apply andb_prop in Fds. destruct Fds as [Fy _].
  assert (Sy : isspace y = false).
  { unfold isdecimal in Fy. destruct (todecimal py y) eqn:T; [|discriminate].
    apply (todecimal_sound _ Snd T). }
  simpl in E.
  destruct (blank_prefix_unique _ _ _ _ E B B' S Sy) as [_ [-> _]].
  congruence.
Qed.

Lemma lettered_anatomy text m :
  re_match LETTERED_PATTERN text = Some m ->
  exists ws c d ws2,
    blank ws /\ letter c = true /\ contains (ustr ".)") d = true
    /\ blank ws2
    /\ text = ws ++ c :: d :: ws2 ++ skipn (m_end m) text
    /\ group m 1 = Some [c]
    /\ group0 m = ws ++ ([c] ++ [d]) ++ ws2.
Proof.
  intros M. apply anchored_anatomy in M; [|reflexivity].
  destruct M as [ws [c1 [c2 [g [d [ws2 [B [Mr [Er [D [B2 [E [G G0]]]]]]]]]]]]].
  inv Mr. cbn [advance rest] in Er.
  match goal with H : rest c1 = _ :: _ |- _ => rewrite H in Er end.
  apply cons_app_inv in Er. subst g.
  exists ws, x, d, ws2. repeat split; auto.
Qed.

Lemma lettered_no_match text ws a b t :
  text = ws ++ a :: b :: t -> blank ws -> isspace a = false ->
  letter a = false \/ contains (ustr ".)") b = false ->
  re_match LETTERED_PATTERN text = None.
Proof.
  intros Et B S C. destruct (re_match LETTERED_PATTERN text) as [m|] eqn:M;
    [|reflexivity].
  apply lettered_anatomy in M.
  destruct M as [ws' [c [d [ws2 [B' [L [D [_ [E _]]]]]]]]].
  rewrite Et in E at 1.
  destruct (letter_lower_range _ L) as [_ Sc].
  destruct (blank_prefix_unique _ _ _ _ E B B' S Sc) as [_ [-> E']].
  inv E'. destruct C; congruence.
Qed.

Lemma letter_not_bullet_nor_digit py c :
  letter c = true ->
  contains bullet_class c = false /\ isdecimal py c = false.
Proof.
  intros L. split.
  - destruct (contains bullet_class c) eqn:C; [|reflexivity].
    apply bullet_class_chars in C. destruct C as [HIn _]. simpl in HIn.
    repeat (destruct HIn as [<-|HIn]; [discriminate L|]). destruct HIn.
  - unfold isdecimal, todecimal. rewrite (letter_ascii _ L).
    revert L. unfold letter, between.
    change (uchr "a") with 97%N. change (uchr "z") with 122%N.
    change (uchr "A") with 65%N. change (uchr "Z") with 90%N.
    change (uchr "0") with 48%N. change (uchr "9") with 57%N.
    rewrite orb_true_iff, !andb_true_iff, !N.leb_le. intros L.
    destruct (N.leb_spec 48 c), (N.leb_spec c 57); simpl; try reflexivity.
    lia.
Qed.

(** The lettered pattern on a lettered line. *)
Lemma detect_lettered_line py ws c d w tl x lvl :
  decimals_sound py ->
  blank ws -> letter c = true -> contains (ustr ".)") d = true ->
  isspace w = true -> level_of py x = Ok lvl ->
  detect_list_item py (ws ++ c :: d :: w :: tl) x
  = Ok (Some {| item_type := LETTERED; marker := [c; d];
                content := strip tl; level := lvl;
                index := (Z.of_N (ascii_lower c) - 96)%Z;
                is_continuation := false |}).
Proof.
  intros Snd B L D W Lv.
  destruct (letter_lower_range _ L) as [_ Sc].
  destruct (letter_not_bullet_nor_digit py _ L) as [Nb Nd].
  set (text := ws ++ c :: d :: w :: tl).
  rewrite detect_unfold.
  destruct (strip text) eqn:St; [exfalso; revert St; apply strip_nonblank, Sc|].
  rewrite Lv. cbn [bind]. unfold PATTERNS. cbn [try_patterns].
  rewrite (@bullet_no_match text ws c (d :: w :: tl)) by auto.
  rewrite (@numbered_no_match py text ws c (d :: w :: tl)) by auto.
  destruct (re_match LETTERED_PATTERN text) as [m|] eqn:M.
  2:{ exfalso. revert M.
      apply (@anchored_matches text (Cls letter) ws [c] d w tl); auto.
      intros cur R. exists (advance cur (d :: w :: tl)).
      split; [eapply M_cls; eassumption | reflexivity]. }
  apply lettered_anatomy in M.
  destruct M as [ws' [c' [d' [ws2 [B' [L' [D' [B2 [E [G G0]]]]]]]]]].
  destruct (letter_lower_range _ L') as [_ Sc'].
  unfold text in E at 1.
  destruct (blank_prefix_unique _ _ _ _ E B B' Sc Sc') as [<- [<- E']].
  inv E'.
  match goal with H : w :: tl = _ |- _ => rename H into Etl end.
  unfold index_of. cbn [ListType_eqb]. rewrite G. unfold lower.
  cbn [forallb]. rewrite (letter_ascii _ L). cbn [andb map ord bind].
  rewrite G0, strip_core; auto; [|apply trimmed_delimited; auto].
  f_equal. f_equal. f_equal; [|lia].
  rewrite <- (strip_app_blank (skipn (m_end m) text) B2), <- Etl.
  apply (@strip_app_blank [w] tl). unfold blank. simpl. rewrite W. reflexivity.
Qed.

Lemma run_prefix_unique (p : char -> bool) ds : forall ds' a a' (t t' : str),
  ds ++ a :: t = ds' ++ a' :: t' ->
  forallb p ds = true -> forallb p ds' = true ->
  p a = false -> p a' = false ->
  ds = ds' /\ a = a' /\ t = t'.
Proof.
  induction ds as [|y ds IH]; intros [|y' ds'] a a' t t' E B B' S S';
    simpl in *.
  - inv E. auto.
  - inv E. apply andb_prop in B'. destruct B'. congruence.
  - inv E. apply andb_prop in B. destruct B. congruence.
  - inv E. apply andb_prop in B. apply andb_prop in B'.
    destruct B as [_ B], B' as [_ B'].
    match goal with H : ds ++ _ = ds' ++ _ |- _ =>
      destruct (IH _ _ _ _ _ H B B' S S') as [-> [-> ->]] end.
    auto.
Qed.

(** The bullet pattern on a line that starts with a glyph and a blank. *)
Lemma detect_bullet_line py ws g w tl x lvl :
  blank ws -> contains bullet_class g = true -> isspace w = true ->
  level_of py x = Ok lvl ->
  detect_list_item py (ws ++ g :: w :: tl) x
  = Ok (Some {| item_type := BULLET; marker := [g]; content := strip tl;
                level := lvl; index := 0; is_continuation := false |}).
Proof.
  intros B G W Lv. destruct (bullet_class_chars _ G) as [_ Sg].
  set (text := ws ++ g :: w :: tl).
  rewrite detect_unfold.
  destruct (strip text) eqn:St; [exfalso; revert St; apply strip_nonblank, Sg|].
  rewrite Lv. cbn [bind]. unfold PATTERNS. cbn [try_patterns].
  destruct (re_match BULLET_PATTERN text) as [m|] eqn:M.
  2:{ exfalso. revert M. rewrite re_match_none_iff by reflexivity.
      intros N.
      destruct (@cls_run isspace ws (start text) (g :: w :: tl))
        as [c1 [I1 [R1 _]]]; [reflexivity | exact B |].
      apply (N (advance (close_group 1 c1 (advance c1 (w :: tl))) tl)).
      apply M_cat with (c1 := start text); [constructor; reflexivity|].
      apply M_cat with (c1 := c1).
      { unfold lazy_star. apply M_rep with (n := length ws); simpl; auto.
        lia. }
      apply M_cat with (c1 := close_group 1 c1 (advance c1 (w :: tl))).
      { constructor. unfold one_of. eapply M_cls; eassumption. }
      unfold plus. apply M_rep with (n := 1); simpl; auto.
      econstructor; [|constructor]. unfold space.
      eapply M_cls; [reflexivity | exact W]. }
  apply bullet_anatomy in M.
  destruct M as [ws' [g' [ws2 [B' [G' [B2 [E G0]]]]]]].
  destruct (bullet_class_chars _ G') as [_ Sg'].
  unfold text in E at 1.
  destruct (blank_prefix_unique _ _ _ _ E B B' Sg Sg') as [<- [<- E']].
  unfold index_of. cbn [ListType_eqb bind].
  rewrite G0, strip_core; auto; [|split; simpl; exact Sg].
  f_equal. f_equal. f_equal.
  rewrite <- (strip_app_blank (skipn (m_end m) text) B2), <- E'.
  apply (@strip_app_blank [w] tl). unfold blank. simpl. rewrite W. reflexivity.
Qed.

Lemma digit_char c :
  between "0" "9" c = true ->
  forall py, todecimal py c = Some (Z.of_N (c - 48))
             /\ contains bullet_class c = false /\ letter c = false
             /\ isspace c = false.
Proof.
  unfold between. change (uchr "0") with 48%N. change (uchr "9") with 57%N.
  rewrite andb_true_iff, !N.leb_le. intros R py.
  assert (C : (c = 48 \/ c = 49 \/ c = 50 \/ c = 51 \/ c = 52 \/ c = 53
               \/ c = 54 \/ c = 55 \/ c = 56 \/ c = 57)%N) by lia.
  repeat (destruct C as [->|C]); try subst c; repeat split; reflexivity.
Qed.

Lemma delimiter_not_digit py d :
  contains (ustr ".)") d = true ->
  isdecimal py d = false /\ isspace d = false.
Proof.
  intros D. apply delimiter_cases in D. destruct D as [->| ->];
    split; reflexivity.
Qed.

Lemma digits_all_decimal py ds :
  forallb (between "0" "9") ds = true -> forallb (isdecimal py) ds = true.
Proof.
  induction ds as [|c ds IH]; simpl; [reflexivity|].
  intros F. apply andb_prop in F. destruct F as [Fc F].
  destruct (digit_char _ Fc py) as [T _]. unfold isdecimal at 1.
  rewrite T. simpl. auto.
Qed.

Lemma matches_plus_cls p c1 c2 :
  matches (plus (Cls p)) c1 c2 ->
  exists y ds, rest c1 = (y :: ds) ++ rest c2
               /\ forallb p (y :: ds) = true.
Proof.
  unfold plus. intros M. inv M.
  match goal with H : iter _ _ _ _ |- _ =>
    apply iter_cls in H; destruct H as [ds [E [L [F _]]]] end.
  destruct ds as [|y ds]; [simpl in L; lia|]. eauto.
Qed.

(** What the numbered pattern captures is a numbered head of the text. *)
Lemma numbered_capture py text m :
  re_match (NUMBERED_PATTERN py) text = Some m ->
  exists ds, group m 1 = Some ds /\ numbered_head py text ds.
Proof.
  intros M. apply re_match_sound in M.
  destruct M as [cf [M [Es [Ee Eg]]]].
  apply anchored_head in M.
  destruct M as [ws [c1 [Et [B [At [_ [St M]]]]]]].
  assert (A : aheadless (plus (Cls (isdecimal py))) = true) by reflexivity.
  destruct (@delimited_from text ws c1 cf (plus (Cls (isdecimal py))) m
              Et At St A M Es Ee Eg)
    as [g [d [ws2 [c2 [Mr [Er [D [B2 [N2 [Et' [G _]]]]]]]]]]].
  apply matches_plus_cls in Mr. destruct Mr as [y [ds [Eds F]]].
  rewrite Eds in Er. apply app_inv_tail in Er. subst g.
  exists (y :: ds). split; [exact G|].
  destruct ws2 as [|w tl]; [congruence|].
  exists ws, d, w, (tl ++ skipn (m_end m) text).
  split; [exact Et'|]. split; [exact B|]. split; [discriminate|].
  split; [exact F|]. split; [exact D|].
  unfold blank in B2. simpl in B2. apply andb_prop in B2. tauto.
Qed.

(** The numbered pattern on a line that starts with a number in ASCII
    digits, a delimiter and a blank. *)
Lemma detect_numbered_line py ws ds d w tl x lvl v :
  decimals_sound py ->
  blank ws -> ds <> [] -> forallb (between "0" "9") ds = true ->
  contains (ustr ".)") d = true -> isspace w = true ->
  level_of py x = Ok lvl -> int_of_str py ds = Ok v ->
  detect_list_item py (ws ++ ds ++ d :: w :: tl) x
  = Ok (Some {| item_type := NUMBERED; marker := ds ++ [d];
                content := strip tl; level := lvl; index := v;
                is_continuation := false |}).
Proof.
  intros Snd B N F D W Lv V.
  destruct ds as [|c0 ds0] eqn:Eds; [congruence|].
  assert (F0 : between "0" "9" c0 = true)
    by (simpl in F; apply andb_prop in F; tauto).
  destruct (digit_char _ F0 py) as [_ [Nb [Nl S0]]].
  rewrite <- Eds in *. clear N.
  set (text := ws ++ ds ++ d :: w :: tl).
  assert (Et : text = ws ++ c0 :: (ds0 ++ d :: w :: tl)).
  { unfold text. rewrite Eds. reflexivity. }
  rewrite detect_unfold.
  destruct (strip text) eqn:St.
  { exfalso. revert St. rewrite Et. apply strip_nonblank, S0. }
  rewrite Lv. cbn [bind]. unfold PATTERNS. cbn [try_patterns].
  rewrite (@bullet_no_match text ws c0 _ Et) by auto.
  destruct (re_match (NUMBERED_PATTERN py) text) as [m|] eqn:M.
  2:{ exfalso. revert M.
      apply (@anchored_matches text (plus (Cls (isdecimal py))) ws ds d w tl);
        auto.
      intros cur R.
      destruct (@cls_run (isdecimal py) ds cur (d :: w :: tl) R)
        as [c' [I [R' _]]]; [apply digits_all_decimal, F|].
      exists c'. split; [|exact R'].
      unfold plus. apply M_rep with (n := length ds); simpl; auto.
      rewrite Eds. simpl. lia. }
  apply anchored_anatomy in M; [|reflexivity].
  destruct M as [ws' [c1 [c2 [g [d' [ws2 [B' [Mr [Er [D' [B2 [E [G G0]]]]]]]]]]]]].
  apply matches_plus_cls in Mr. destruct Mr as [y [ds1 [Eds' Fds']]].
  rewrite Eds' in Er. apply app_inv_tail in Er.
  assert (Sy : isspace y = false).
  { simpl in Fds'. apply andb_prop in Fds'. destruct Fds' as [Fy _].
    unfold isdecimal in Fy. destruct (todecimal py y) eqn:T; [|discriminate].
    apply (todecimal_sound _ Snd T). }
  assert (E1 : ws ++ c0 :: (ds0 ++ d :: w :: tl)
               = ws' ++ y :: (ds1 ++ d' :: ws2 ++ skipn (m_end m) text)).
  { rewrite <- Et. rewrite E at 1. rewrite <- Er. reflexivity. }
  destruct (blank_prefix_unique _ _ _ _ E1 B B' S0 Sy) as [<- [<- E2]].
  assert (E3 : ds ++ d :: w :: tl
               = g ++ d' :: ws2 ++ skipn (m_end m) text).
  { rewrite Eds, <- Er. simpl. f_equal. exact E2. }
  destruct (delimiter_not_digit py _ D) as [Nd _].
  destruct (delimiter_not_digit py _ D') as [Nd' _].
  rewrite Er in Fds'.
  destruct (@run_prefix_unique (isdecimal py) _ _ _ _ _ _ E3
              (digits_all_decimal py _ F) Fds' Nd Nd') as [<- [<- E4]].
  unfold index_of. cbn [ListType_eqb]. rewrite G, V. cbn [bind].
  rewrite G0, strip_core; auto.
  2:{ apply trimmed_delimited; [exact D|]. rewrite Eds. exact S0. }
  f_equal. f_equal. f_equal.
  rewrite <- (strip_app_blank (skipn (m_end m) text) B2), <- E4.
  apply (@strip_app_blank [w] tl). unfold blank. simpl. rewrite W. reflexivity.
Qed.

(** ** What is written reads back *)

Lemma ustr_cons a s : ustr (String a s) = N_of_ascii a :: ustr s.
Proof. reflexivity. Qed.

Lemma digits_of_numeral py u : forall a,
  forallb (between "0" "9") (ustr (NilEmpty.string_of_uint u)) = true
  /\ digits_value py (Z.of_N (DecimalPos.Unsigned.of_lu a))
       (ustr (NilEmpty.string_of_uint u))
     = Some (Z.of_N (DecimalPos.Unsigned.of_lu (Decimal.revapp u a))).
Proof.
  induction u; intros a; cbn [NilEmpty.string_of_uint Decimal.revapp];
    try (rewrite ustr_cons; cbn [forallb digits_value];
         match goal with
         | |- context [todecimal py (N_of_ascii ?k)] =>
             change (todecimal py (N_of_ascii k))
               with (Some (Z.of_N (N_of_ascii k - 48)));
             change (between "0" "9" (N_of_ascii k)) with true
         end;
         match goal with
         | |- context [Decimal.revapp _ (?D a)] =>
             destruct (IHu (D a)) as [F V]; split; [exact F|];
             rewrite <- V; f_equal;
             cbn [DecimalPos.Unsigned.of_lu]; simpl (N_of_ascii _ - 48)%N; lia
         end).
  split; reflexivity.
Qed.

(** A number that is not negative, written in decimal, reads back. *)
Lemma decimal_digits_read py z :
  (0 <= z)%Z ->
  decimal_digits z <> []
  /\ forallb (between "0" "9") (decimal_digits z) = true
  /\ digits_value py 0 (decimal_digits z) = Some z.
Proof.
  intros H. unfold decimal_digits.
  set (u := N.to_uint (Z.abs_N z)).
  assert (Nu : u <> Decimal.Nil).
  { unfold u. destruct (Z.abs_N z); [discriminate|].
    apply DecimalPos.Unsigned.to_uint_nonnil. }
  assert (E : NilZero.string_of_uint u = NilEmpty.string_of_uint u).
  { destruct u; [congruence|..]; reflexivity. }
  rewrite E.
  destruct (digits_of_numeral py u Decimal.Nil) as [F V]. split; [|split].
  - pose proof (length_string_of_uint u) as L. rewrite E in L.
    destruct u; try congruence;
      (intros K; rewrite K in L; simpl in L; discriminate).
  - exact F.
  - change 0%Z with (Z.of_N (DecimalPos.Unsigned.of_lu Decimal.Nil)).
    rewrite V. f_equal.
    change (Decimal.revapp u Decimal.Nil) with (Decimal.rev u).
    rewrite <- DecimalPos.Unsigned.of_uint_alt.
    change (Pos.of_uint u) with (N.of_uint u). unfold u.
    rewrite DecimalN.Unsigned.of_to, N2Z.inj_abs_N. apply Z.abs_eq, H.
Qed.

(** X10.  A line made of blanks, a glyph of the bullet pattern, a blank and
    a rest is a bullet item: the marker is the glyph, the content the rest
    without the blanks at its ends. *)
Theorem bullet_line : forall (py : Interp) ws g w tl x lvl,
  blank ws -> contains bullet_class g = true -> isspace w = true ->
  level_of py x = Ok lvl ->
  detect_list_item py (ws ++ g :: w :: tl) x
  = Ok (Some {| item_type := BULLET; marker := [g]; content := strip tl;
                level := lvl; index := 0; is_continuation := false |}).
Proof. intros. apply detect_bullet_line; assumption. Qed.

Lemma bullet_line_witness :
  detect_list_item py0 (ustr "  " ++ uchr "-" :: uchr " " :: ustr "dash  ")
    (PyInt 80)
  = Ok (Some {| item_type := BULLET; marker := [uchr "-"];
                content := strip (ustr "dash  ");
                level := 2; index := 0; is_continuation := false |}).
Proof.
  apply (@bullet_line py0 (ustr "  ") (uchr "-") (uchr " ") (ustr "dash  ")
           (PyInt 80) 2%Z); reflexivity.
Defined.

(** X11.  A line made of blanks, a number in ASCII digits, a dot or a
    closing parenthesis, a blank and a rest is a numbered item whose index
    is the number, when [int] accepts its digits: neither the bullet pattern
    nor any later one takes it. *)
Theorem numbered_line : forall (py : Interp) ws ds d w tl x lvl v,
  decimals_sound py ->
  blank ws -> ds <> [] -> forallb (between "0" "9") ds = true ->
  contains (ustr ".)") d = true -> isspace w = true ->
  level_of py x = Ok lvl -> int_of_str py ds = Ok v ->
  detect_list_item py (ws ++ ds ++ d :: w :: tl) x
  = Ok (Some {| item_type := NUMBERED; marker := ds ++ [d];
                content := strip tl; level := lvl; index := v;
                is_continuation := false |}).
Proof. intros. apply detect_numbered_line; assumption. Qed.

Lemma numbered_line_witness :
  detect_list_item py0
    (ustr " " ++ ustr "042" ++ uchr ")" :: uchr " " :: ustr "answer") (PyInt 0)
  = Ok (Some {| item_type := NUMBERED; marker := ustr "042" ++ [uchr ")"];
                content := strip (ustr "answer");
                level := 0; index := 42; is_continuation := false |}).
Proof.
  apply (@numbered_line py0 (ustr " ") (ustr "042") (uchr ")") (uchr " ")
           (ustr "answer") (PyInt 0) 0%Z 42%Z);
    try reflexivity; [exact py0_decimals_sound | discriminate].
Defined.

(** X12.  A line made of blanks, one ASCII letter, a dot or a closing
    parenthesis, a blank and a rest is a lettered item whose index is the
    place of the letter in the alphabet.  This holds of the seven letters
    that are Roman numerals too: a one-letter numeral, as in "I. ", is never
    a Roman item. *)
Theorem lettered_line : forall (py : Interp) ws c d w tl x lvl,
  decimals_sound py ->
  blank ws -> letter c = true -> contains (ustr ".)") d = true ->
  isspace w = true -> level_of py x = Ok lvl ->
  detect_list_item py (ws ++ c :: d :: w :: tl) x
  = Ok (Some {| item_type := LETTERED; marker := [c; d];
                content := strip tl; level := lvl;
                index := (Z.of_N (ascii_lower c) - 96)%Z;
                is_continuation := false |}).
Proof. intros. apply detect_lettered_line; assumption. Qed.

Lemma lettered_line_witness :
  detect_list_item py0
    ([] ++ uchr "I" :: uchr "." :: uchr " " :: ustr "Introduction") (PyInt 0)
  = Ok (Some {| item_type := LETTERED; marker := [uchr "I"; uchr "."];
                content := strip (ustr "Introduction"); level := 0;
                index := (Z.of_N (ascii_lower (uchr "I")) - 96)%Z;
                is_continuation := false |}).
Proof.
  apply (@lettered_line py0 [] (uchr "I") (uchr ".") (uchr " ")
           (ustr "Introduction") (PyInt 0) 0%Z);
    try reflexivity. exact py0_decimals_sound.
Defined.

(** The line written for a bullet, a number or a letter is detected again. *)
Lemma redetected_line :
  forall (py : Interp) item translated target x lvl,
  decimals_sound py -> level_of py x = Ok lvl ->
  item_type item = BULLET
  \/ (item_type item = NUMBERED /\ (0 <= index item)%Z
      /\ over_digit_limit py (length (decimal_digits (index item))) = false)
  \/ (item_type item = LETTERED /\ (1 <= index item <= 26)%Z) ->
  exists body mk,
    reconstructs py item translated target body
    /\ detect_list_item py (indentation (level item) ++ body) x
       = Ok (Some {| item_type := item_type item; marker := mk;
                     content := strip translated; level := lvl;
                     index := if ListType_eqb (item_type item) BULLET
                              then 0 else index item;
                     is_continuation := false |}).
Proof.
  intros py item translated target x lvl Snd Lv K.
  destruct K as [K|[[K [P O]]|[K R]]].
  - exists ([8226%N] ++ ustr " " ++ translated), [8226%N]. split.
    { apply reconstructs_by. intros indent SI.
      unfold reconstruct_list_text. rewrite SI. cbn [bind].
      rewrite K. reflexivity. }
    rewrite K. cbn [ListType_eqb].
    apply (@detect_bullet_line py _ 8226%N 32%N translated x lvl);
      auto using indentation_blank.
  - destruct (decimal_digits_read py P) as [N [F V]].
    exists (decimal_digits (index item) ++ ustr ". " ++ translated),
           (decimal_digits (index item) ++ [46%N]). split.
    { apply reconstructs_by. intros indent SI.
      unfold reconstruct_list_text. rewrite SI. cbn [bind].
      rewrite K. cbn [ListType_eqb]. unfold str_of_int. rewrite O.
      destruct (Z.ltb_spec (index item) 0); [lia | reflexivity]. }
    rewrite K. cbn [ListType_eqb].
    apply (@detect_numbered_line py _ _ 46%N 32%N translated x lvl);
      auto using indentation_blank.
    unfold int_of_str. rewrite V, O.
    destruct (decimal_digits (index item)); [congruence | reflexivity].
  - set (l := Z.to_N (96 + index item)).
    assert (El : Z.of_N l = (96 + index item)%Z) by (unfold l; lia).
    assert (Ll : letter l = true /\ ascii_lower l = l).
    { unfold letter, ascii_lower, between.
      change (uchr "a") with 97%N. change (uchr "z") with 122%N.
      change (uchr "A") with 65%N. change (uchr "Z") with 90%N.
      destruct (N.leb_spec 97 l); [|lia]. destruct (N.leb_spec l 122); [|lia].
      destruct (N.leb_spec 65 l); [|lia]. destruct (N.leb_spec l 90); [lia|].
      auto. }
    destruct Ll as [Ll Lo].
    exists ([l] ++ ustr ". " ++ translated), [l; 46%N]. split.
    { apply reconstructs_by. intros indent SI.
      unfold reconstruct_list_text. rewrite SI. cbn [bind].
      rewrite K. cbn [ListType_eqb]. unfold chr.
      replace (97 + index item - 1)%Z with (96 + index item)%Z by lia.
      destruct (Z.ltb_spec (96 + index item) (- 2 ^ 31)); [lia|].
      destruct (Z.leb_spec (2 ^ 31) (96 + index item)); [lia|].
      destruct (Z.leb_spec 0 (96 + index item)); [|lia].
      destruct (Z.ltb_spec (96 + index item) 1114112); [|lia].
      reflexivity. }
    rewrite K. cbn [ListType_eqb].
    replace (index item) with (Z.of_N (ascii_lower l) - 96)%Z
      by (rewrite Lo; lia).
    apply (@detect_lettered_line py (indentation (level item))
             l 46%N 32%N translated x lvl);
      auto using indentation_blank.
Qed.



(** ** The Roman pattern on the lines it describes *)

Lemma roman_words_letters : forallb (forallb roman_letter) roman_words = true.
Proof. vm_compute. reflexivity. Qed.

Lemma roman_letter_char c :
  roman_letter c = true ->
  letter c = true /\ contains (ustr ".)") c = false.
Proof.
  intros R. apply roman_letter_cases in R. simpl in R.
  repeat (destruct R as [<-|R]; [split; reflexivity|]). destruct R.
Qed.

Lemma lit_run a n k :
  k <= n -> forall c tl,
  rest c = repeat (uchr a) k ++ tl ->
  exists c', matches (up_to n (lit a)) c c' /\ rest c' = tl.
Proof.
  intros L c tl E.
  destruct (@cls_run (N.eqb (uchr a)) (repeat (uchr a) k) c tl E)
    as [c' [I [R _]]].
  { clear. induction k as [|k IH]; simpl; [reflexivity|].
    rewrite N.eqb_refl. exact IH. }
  exists c'. split; [|exact R]. rewrite repeat_length in I.
  unfold up_to, lit. apply M_rep with (n := k); [lia | exact L | exact I].
Qed.

Lemma lit_pair a b c tl :
  rest c = uchr a :: uchr b :: tl ->
  exists c', matches (Cat (lit a) (lit b)) c c' /\ rest c' = tl.
Proof.
  intros E. exists (advance (advance c (uchr b :: tl)) tl).
  split; [|reflexivity].
  apply M_cat with (c1 := advance c (uchr b :: tl)); unfold lit.
  - eapply M_cls; [exact E | apply N.eqb_refl].
  - eapply M_cls; [reflexivity | apply N.eqb_refl].
Qed.

Lemma digit_group_matches one five ten w :
  In w (digit_words one five ten) -> forall c tl,
  rest c = w ++ tl ->
  exists c',
    matches (Alt (Cat (lit one) (lit ten))
                 (Alt (Cat (lit one) (lit five))
                      (Cat (opt (lit five)) (up_to 3 (lit one))))) c c'
    /\ rest c' = tl.
Proof.
  intros HIn c tl E. simpl in HIn. destruct HIn as [<-|[<-|HIn]].
  - destruct (@lit_pair one ten c tl E) as [c' [M R]].
    exists c'. split; [apply M_alt_l, M | exact R].
  - destruct (@lit_pair one five c tl E) as [c' [M R]].
    exists c'. split; [apply M_alt_r, M_alt_l, M | exact R].
  - assert (K : exists k1 k2, k1 <= 1 /\ k2 <= 3
                  /\ w = repeat (uchr five) k1 ++ repeat (uchr one) k2).
    { destruct HIn as [<-|[<-|[<-|[<-|[<-|[<-|[<-|[<-|[]]]]]]]]];
        [ exists 0, 0 | exists 0, 1 | exists 0, 2 | exists 0, 3
        | exists 1, 0 | exists 1, 1 | exists 1, 2 | exists 1, 3 ];
        repeat split; lia. }
    destruct K as [k1 [k2 [L1 [L2 ->]]]]. rewrite <- app_assoc in E.
    destruct (@lit_run five 1 k1 L1 c _ E) as [c1 [M1 R1]].
    destruct (@lit_run one 3 k2 L2 c1 tl R1) as [c2 [M2 R2]].
    exists c2. split; [|exact R2].
    apply M_alt_r, M_alt_r. eapply M_cat; [exact M1 | exact M2].
Qed.

Lemma roman_words_match w :
  In w roman_words -> forall c tl,
  rest c = w ++ tl ->
  exists c',
    matches (Cat (up_to 4 (lit "M"))
              (Cat (Grp 2 (Alt (Cat (lit "C") (lit "M"))
                          (Alt (Cat (lit "C") (lit "D"))
                               (Cat (opt (lit "D")) (up_to 3 (lit "C"))))))
              (Cat (Grp 3 (Alt (Cat (lit "X") (lit "C"))
                          (Alt (Cat (lit "X") (lit "L"))
                               (Cat (opt (lit "L")) (up_to 3 (lit "X"))))))
                   (Grp 4 (Alt (Cat (lit "I") (lit "X"))
                          (Alt (Cat (lit "I") (lit "V"))
                               (Cat (opt (lit "V")) (up_to 3 (lit "I")))))))))
            c c'
    /\ rest c' = tl.
Proof.
  unfold roman_words. intros HIn c tl E.
  apply in_flat_map in HIn. destruct HIn as [m [Hm HIn]].
  apply in_flat_map in HIn. destruct HIn as [h [Hh HIn]].
  apply in_flat_map in HIn. destruct HIn as [t [Ht HIn]].
  apply in_map_iff in HIn. destruct HIn as [o [<- Ho]].
  assert (K : exists k, k <= 4 /\ m = repeat (uchr "M") k).
  { simpl in Hm. destruct Hm as [<-|[<-|[<-|[<-|[<-|[]]]]]];
      [exists 0 | exists 1 | exists 2 | exists 3 | exists 4];
      split; (lia || reflexivity). }
  destruct K as [k [Lk ->]]. rewrite <- !app_assoc in E.
  destruct (@lit_run "M" 4 k Lk c _ E) as [c1 [M1 R1]].
  destruct (@digit_group_matches _ _ _ h Hh c1 _ R1) as [c2 [M2 R2]].
  destruct (@digit_group_matches _ _ _ t Ht (close_group 2 c1 c2) _ R2)
    as [c3 [M3 R3]].
  destruct (@digit_group_matches _ _ _ o Ho
              (close_group 3 (close_group 2 c1 c2) c3) _ R3)
    as [c4 [M4 R4]].
  exists (close_group 4 (close_group 3 (close_group 2 c1 c2) c3) c4).
  split; [|exact R4].
  eapply M_cat; [exact M1|].
  eapply M_cat; [apply M_grp, M2|].
  eapply M_cat; [apply M_grp, M3|]. apply M_grp, M4.
Qed.

Lemma roman_matches text ws a g d w tl :
  text = ws ++ (a :: g) ++ d :: w :: tl -> blank ws ->
  In (a :: g) roman_words ->
  contains (ustr ".)") d = true -> isspace w = true ->
  re_match ROMAN_PATTERN text <> None.
Proof.
  intros Et B HIn D W N.
  assert (St : steady ROMAN_PATTERN = true) by reflexivity.
  rewrite re_match_none_iff in N by exact St.
  assert (Ra : roman_letter a = true).
  { pose proof roman_words_letters as F. rewrite forallb_forall in F.
    apply F in HIn. simpl in HIn. apply andb_prop in HIn. tauto. }
  destruct (@cls_run isspace ws (start text) ((a :: g) ++ d :: w :: tl))
    as [c1 [I1 [R1 _]]]; [exact Et | exact B |].
  set (c1' := look_back c1 (advance c1 (g ++ d :: w :: tl))).
  destruct (@roman_words_match (a :: g) HIn c1' (d :: w :: tl) R1)
    as [c2 [M2 R2]].
  apply (N (advance (advance (close_group 1 c1' c2) (w :: tl)) tl)).
  apply M_cat with (c1 := start text); [constructor; reflexivity|].
  apply M_cat with (c1 := c1).
  { unfold lazy_star. apply M_rep with (n := length ws); simpl; auto. lia. }
  apply M_cat with (c1 := c1').
  { apply M_ahead. unfold one_of. eapply M_cls; [exact R1 | exact Ra]. }
  apply M_cat with (c1 := close_group 1 c1' c2); [apply M_grp, M2|].
  apply M_cat with (c1 := advance (close_group 1 c1' c2) (w :: tl)).
  { unfold dot_or_paren, one_of. eapply M_cls; [exact R2 | exact D]. }
  unfold plus. apply M_rep with (n := 1); simpl; auto.
  econstructor; [|constructor]. unfold space.
  eapply M_cls; [reflexivity | exact W].
Qed.

Lemma roman_anatomy text m :
  re_match ROMAN_PATTERN text = Some m ->
  exists ws g d ws2,
    blank ws /\ g <> [] /\ In g roman_words
    /\ contains (ustr ".)") d = true /\ blank ws2 /\ ws2 <> []
    /\ text = ws ++ g ++ d :: ws2 ++ skipn (m_end m) text
    /\ group m 1 = Some g
    /\ group0 m = ws ++ (g ++ [d]) ++ ws2.
Proof.
  intros M. apply re_match_sound in M. destruct M as [cf [M [Es [Ee Eg]]]].
  apply anchored_head in M.
  destruct M as [ws [c1 [Et [B [At [_ [St M]]]]]]].
  inv M.
  match goal with H : matches (Ahead _) _ _ |- _ => inv H end.
  match goal with H : matches (one_of _) _ _ |- _ =>
    unfold one_of in H; inv H end.
  match goal with H : rest c1 = ?a :: _, H' : contains _ ?a = true |- _ =>
    rename H into Ehead; rename H' into Rhead end.
  match goal with H : matches (Cat (Grp 1 ?r) _) ?c0 _ |- _ =>
    assert (A : aheadless r = true) by reflexivity;
    destruct (@delimited_from (ws ++ rest c1) ws c0 cf r m Logic.eq_refl At St
                A H Es Ee Eg)
      as [g [d [ws2 [c2 [Mr [Er [D [B2 [N2 [Et' [G G0]]]]]]]]]]] end.
  cbn [rest look_back] in Er.
  apply matches_roman_words in Mr. destruct Mr as [w [Hw Ew]].
  cbn [rest look_back] in Ew. rewrite Ew in Er. apply app_inv_tail in Er.
  subst w.
  exists ws, g, d, ws2. repeat split; auto.
  intros ->. apply app_inv_head in Et'. simpl in Et'.
  rewrite Ehead in Et'. inv Et'. apply delimiter_cases in D.
  destruct D as [->| ->]; vm_compute in Rhead; discriminate.
Qed.

Lemma roman_word_letters w :
  In w roman_words -> forallb roman_letter w = true.
Proof.
  intros HIn. pose proof roman_words_letters as F.
  rewrite forallb_forall in F. apply F, HIn.
Qed.

(** The Roman pattern on a line that starts with a numeral of two letters
    or more. *)
Lemma detect_roman_line py ws a b g d w tl x lvl :
  decimals_sound py ->
  blank ws -> In (a :: b :: g) roman_words ->
  contains (ustr ".)") d = true -> isspace w = true ->
  level_of py x = Ok lvl ->
  detect_list_item py (ws ++ (a :: b :: g) ++ d :: w :: tl) x
  = Ok (Some {| item_type := ROMAN; marker := (a :: b :: g) ++ [d];
                content := strip tl; level := lvl;
                index := _roman_to_int py (a :: b :: g);
                is_continuation := false |}).
Proof.
  intros Snd B HIn D W Lv.
  pose proof (roman_word_letters HIn) as F.
  assert (Fa : roman_letter a = true /\ roman_letter b = true).
  { simpl in F. apply andb_prop in F. destruct F as [Fa F].
    apply andb_prop in F. tauto. }
  destruct Fa as [Fa Fb].
  destruct (roman_letter_char _ Fa) as [La _].
  destruct (roman_letter_char _ Fb) as [_ Nb].
  destruct (letter_lower_range _ La) as [_ Sa].
  destruct (letter_not_bullet_nor_digit py _ La) as [Nbu Nd].
  set (text := ws ++ (a :: b :: g) ++ d :: w :: tl).
  assert (Et : text = ws ++ a :: b :: (g ++ d :: w :: tl)) by reflexivity.
  rewrite detect_unfold.
  destruct (strip text) eqn:St.
  { exfalso. revert St. rewrite Et. apply strip_nonblank, Sa. }
  rewrite Lv. cbn [bind]. unfold PATTERNS. cbn [try_patterns].
  rewrite (@bullet_no_match text ws a _ Et) by auto.
  rewrite (@numbered_no_match py text ws a _ Snd Et) by auto.
  rewrite (@lettered_no_match text ws a b _ Et) by auto.
  destruct (re_match ROMAN_PATTERN text) as [m|] eqn:M.
  2:{ exfalso. revert M.
      apply (@roman_matches text ws a (b :: g) d w tl); auto. }
  apply roman_anatomy in M.
  destruct M as [ws' [g' [d' [ws2 [B' [N' [HIn' [D' [B2 [_ [E [G G0]]]]]]]]]]]].
  pose proof (roman_word_letters HIn') as F'.
  destruct g' as [|a' g']; [congruence|].
  assert (Sa' : isspace a' = false).
  { simpl in F'. apply andb_prop in F'. destruct F' as [Fa' _].
    destruct (roman_letter_char _ Fa') as [La' _].
    apply (letter_lower_range _ La'). }
  rewrite Et in E at 1.
  destruct (blank_prefix_unique _ _ _ _ E B B' Sa Sa') as [<- [<- E2]].
  assert (E3 : (a :: b :: g) ++ d :: w :: tl
               = (a :: g') ++ d' :: ws2 ++ skipn (m_end m) text).
  { simpl. f_equal. exact E2. }
  assert (Rd : forall y, contains (ustr ".)") y = true ->
                         roman_letter y = false).
  { intros y Hy. apply delimiter_cases in Hy.
    destruct Hy as [->| ->]; reflexivity. }
  destruct (@run_prefix_unique roman_letter _ _ _ _ _ _ E3 F F'
              (Rd _ D) (Rd _ D')) as [Eg' [<- E4]].
  rewrite <- Eg' in G, G0.
  unfold index_of. cbn [ListType_eqb]. rewrite G.
  rewrite (roman_letters_upper py _ F). cbn [bind].
  rewrite G0, strip_core; auto.
  2:{ apply trimmed_delimited; [exact D | exact Sa]. }
  f_equal. f_equal. f_equal.
  rewrite <- (strip_app_blank (skipn (m_end m) text) B2), <- E4.
  apply (@strip_app_blank [w] tl). unfold blank. simpl. rewrite W. reflexivity.
Qed.

Lemma str_in_words w l : existsb (str_eqb w) l = true -> In w l.
Proof.
  rewrite existsb_exists. intros [y [HIn E]].
  apply str_eqb_eq in E. subst y. exact HIn.
Qed.

(** X14.  A line made of blanks, a numeral of the Roman pattern of two
    letters or more, a dot or a closing parenthesis, a blank and a rest is
    a Roman item: no earlier pattern takes it, the index is the value of the
    numeral, and [_int_to_roman] writes that value as the numeral again. *)
Theorem roman_line : forall (py : Interp) ws numeral d w tl x lvl,
  decimals_sound py ->
  blank ws -> In numeral roman_words -> 2 <= length numeral ->
  contains (ustr ".)") d = true -> isspace w = true ->
  level_of py x = Ok lvl ->
  detect_list_item py (ws ++ numeral ++ d :: w :: tl) x
  = Ok (Some {| item_type := ROMAN; marker := numeral ++ [d];
                content := strip tl; level := lvl;
                index := _roman_to_int py numeral;
                is_continuation := false |})
  /\ _int_to_roman (_roman_to_int py numeral) = Ok numeral.
Proof.
  intros py ws numeral d w tl x lvl Snd B HIn L D W Lv.
  destruct numeral as [|a [|b g]]; simpl in L; try lia.
  split; [apply detect_roman_line; assumption|].
  assert (N : a :: b :: g <> []) by discriminate.
  destruct (roman_word_spec py HIn N) as [_ [_ Back]].
  rewrite (roman_letters_upper py _ (roman_word_letters HIn)) in Back.
  exact Back.
Qed.

Lemma roman_line_witness :
  detect_list_item py0
    (ustr "  " ++ ustr "XIV" ++ uchr "." :: uchr " " :: ustr "Louis") (PyInt 0)
  = Ok (Some {| item_type := ROMAN; marker := ustr "XIV" ++ [uchr "."];
                content := strip (ustr "Louis"); level := 0;
                index := _roman_to_int py0 (ustr "XIV");
                is_continuation := false |})
  /\ _int_to_roman (_roman_to_int py0 (ustr "XIV")) = Ok (ustr "XIV").
Proof.
  apply (@roman_line py0 (ustr "  ") (ustr "XIV") (uchr ".") (uchr " ")
           (ustr "Louis") (PyInt 0) 0%Z); try reflexivity.
  - exact py0_decimals_sound.
  - apply str_in_words. vm_compute. reflexivity.
  - simpl. lia.
Defined.

(** ** The numeral, place by place *)

Lemma written_by_places_checked :
  forallb written_by_places (seq 0 1000) = true.
Proof. vm_compute. reflexivity. Qed.

Lemma written_by_places_spec n :
  written_by_places n = true ->
  _int_to_roman (Z.of_nat n) = Ok (numeral_by_places (Z.of_nat n)).
Proof.
  unfold written_by_places.
  destruct (_int_to_roman (Z.of_nat n)) as [r|]; [|discriminate].
  intros E. apply str_eqb_eq in E. congruence.
Qed.

Lemma written_below_1000 r :
  (0 <= r < 1000)%Z -> _int_to_roman r = Ok (numeral_by_places r).
Proof.
  intros R. pose proof written_by_places_checked as C.
  rewrite forallb_forall in C.
  assert (HIn : In (Z.to_nat r) (seq 0 1000)) by (apply in_seq; lia).
  apply C, written_by_places_spec in HIn.
  rewrite Z2Nat.id in HIn by lia. exact HIn.
Qed.

Lemma int_to_roman_by_places n :
  (0 <= n)%Z -> _int_to_roman n = Ok (numeral_by_places n).
Proof.
  intros P. rewrite (int_to_roman_thousands P).
  rewrite written_below_1000 by (apply Z.mod_pos_bound; lia).
  unfold numeral_by_places.
  replace (n mod 1000 / 1000)%Z with 0%Z
    by (symmetry; apply Z.div_small, Z.mod_pos_bound; lia).
  replace (n mod 1000 / 100 mod 10)%Z with (n / 100 mod 10)%Z
    by (Z.div_mod_to_equations; lia).
  replace (n mod 1000 / 10 mod 10)%Z with (n / 10 mod 10)%Z
    by (Z.div_mod_to_equations; lia).
  replace (n mod 1000 mod 10)%Z with (n mod 10)%Z
    by (Z.div_mod_to_equations; lia).
  reflexivity.
Qed.



Lemma digit_word_in one five ten d :
  In (digit_word one five ten d) (digit_words one five ten).
Proof.
  unfold digit_word, digit_words.
  destruct d as [|p|p]; [simpl; tauto | | simpl; tauto].
  do 4 (try destruct p as [p|p|]); simpl; tauto.
Qed.

Lemma numeral_in_words n :
  (0 <= n <= 4999)%Z -> In (numeral_by_places n) roman_words.
Proof.
  intros R. unfold numeral_by_places, roman_words.
  apply in_flat_map. exists (repeat (uchr "M") (Z.to_nat (n / 1000))). split.
  { assert (K : Z.to_nat (n / 1000) <= 4)
      by (Z.div_mod_to_equations; lia).
    destruct (Z.to_nat (n / 1000)) as [|[|[|[|[|k]]]]]; simpl; try tauto.
    lia. }
  apply in_flat_map. exists (digit_word "C" "D" "M" (n / 100 mod 10)).
  split; [apply digit_word_in|].
  apply in_flat_map. exists (digit_word "X" "L" "C" (n / 10 mod 10)).
  split; [apply digit_word_in|].
  apply in_map_iff. exists (digit_word "I" "V" "X" (n mod 10)).
  split; [reflexivity | apply digit_word_in].
Qed.

Lemma numeral_value py n :
  (0 <= n)%Z -> _roman_to_int py (numeral_by_places n) = n.
Proof.
  intros P.
  destruct (@roman_below_1000 py (n mod 1000)%Z) as [w [W [F V]]];
    [apply Z.mod_pos_bound; lia|].
  pose proof (int_to_roman_thousands P) as T. rewrite W in T.
  rewrite (int_to_roman_by_places P) in T. inv T.
  match goal with H : numeral_by_places n = _ |- _ => rewrite H end.
  rewrite roman_to_int_thousands by exact F. rewrite V.
  rewrite Z2Nat.id by (Z.div_mod_to_equations; lia).
  Z.div_mod_to_equations; lia.
Qed.

Lemma one_letter_checked : forallb one_letter_at (seq 1 4999) = true.
Proof. vm_compute. reflexivity. Qed.

Lemma one_letter_spec n :
  (1 <= n <= 4999)%Z ->
  (length (numeral_by_places n) <=? 1)%nat
  = existsb (Z.eqb n) one_letter_numerals.
Proof.
  intros R. pose proof one_letter_checked as C.
  rewrite forallb_forall in C.
  assert (HIn : In (Z.to_nat n) (seq 1 4999)) by (apply in_seq; lia).
  apply C in HIn. unfold one_letter_at in HIn.
  rewrite Z2Nat.id in HIn by lia. apply Bool.eqb_prop, HIn.
Qed.



(** ** The scan for a glyph *)

Lemma str_find_first text b : forall pos,
  str_find text b = Some pos ->
  exists pre tl, text = pre ++ b :: tl /\ length pre = pos /\ ~ In b pre.
Proof.
  induction text as [|y text IH]; simpl; intros pos H; [discriminate|].
  destruct (N.eqb_spec y b) as [->|N].
  - inv H. exists [], text. auto.
  - destruct (str_find text b) as [i|]; [|discriminate]. inv H.
    destruct (IH i Logic.eq_refl) as [pre [tl [E [L F]]]].
    exists (y :: pre), tl. simpl. rewrite E, L.
    repeat split; auto. intros [C|C]; auto.
Qed.

Lemma scan_bullets_first seen g later text w lvl pos :
  (forall b, In b seen -> contains w b = false) ->
  contains w g = true -> str_find text g = Some pos ->
  scan_bullets (seen ++ g :: later) text w lvl
  = Some {| item_type := BULLET; marker := firstn (pos + 1) text;
            content := strip (skipn (pos + 1) text);
            level := lvl; index := 0; is_continuation := false |}.
Proof.
  intros S C F. induction seen as [|b seen IH]; simpl.
  - rewrite C, F. reflexivity.
  - rewrite (S b) by (simpl; auto). apply IH.
    intros b' H. apply S. simpl. auto.
Qed.

Lemma window_nonblank text b :
  In b (firstn 10 (lstrip text)) -> strip text <> [].
Proof.
  intros H. destruct (lstrip text) as [|c s] eqn:E.
  - destruct H.
  - unfold lstrip in E. pose proof (dropwhile_head _ _ E) as Hc.
    destruct (dropwhile_split isspace text) as [w [Et _]].
    rewrite Et, E. apply strip_nonblank, Hc.
Qed.

(** X17.  When no pattern matches, the scan takes the first glyph, in the
    iteration order of the set [BULLET_CHARS], that stands in the window
    (the ten characters after the leading blanks), wherever other glyphs
    stand in the text: the marker is the text up to the leftmost occurrence
    of that glyph, the glyph included, and the content is what follows,
    without the blanks at its ends. *)
Theorem scan_takes_first_in_set_order :
  forall (py : Interp) text x lvl seen g later,
  set_iter py = seen ++ g :: later ->
  (forall b, In b seen -> contains (firstn 10 (lstrip text)) b = false) ->
  contains (firstn 10 (lstrip text)) g = true ->
  (forall kind pattern,
      In (kind, pattern) (PATTERNS py) -> re_match pattern text = None) ->
  level_of py x = Ok lvl ->
  exists pre post,
    text = pre ++ g :: post /\ ~ In g pre
    /\ detect_list_item py text x
       = Ok (Some {| item_type := BULLET; marker := pre ++ [g];
                     content := strip post; level := lvl; index := 0;
                     is_continuation := false |}).
Proof.
  intros py text x lvl seen g later Order Seen Win NoMatch Lv.
  pose proof Win as HIn. apply contains_in in HIn.
  pose proof (window_nonblank _ _ HIn) as Nb.
  destruct (str_find_in _ _ (window_in_text _ _ HIn)) as [pos F].
  destruct (str_find_first _ _ F) as [pre [post [Et [L Fst]]]].
  exists pre, post. split; [exact Et|]. split; [exact Fst|].
  rewrite detect_unfold. destruct (strip text) eqn:St; [congruence|].
  rewrite Lv. cbn [bind]. rewrite try_patterns_none by exact NoMatch.
  rewrite Order, (@scan_bullets_first seen g later text _ lvl pos Seen Win F).
  assert (E1 : firstn (pos + 1) text = pre ++ [g]).
  { rewrite Et. replace (pre ++ g :: post) with ((pre ++ [g]) ++ post)
      by (rewrite <- app_assoc; reflexivity).
    replace (pos + 1) with (length (pre ++ [g]))
      by (rewrite length_app; simpl; lia).
    apply firstn_exact. }
  assert (E2 : skipn (pos + 1) text = post).
  { rewrite Et. replace (pre ++ g :: post) with ((pre ++ [g]) ++ post)
      by (rewrite <- app_assoc; reflexivity).
    replace (pos + 1) with (length (pre ++ [g]))
      by (rewrite length_app; simpl; lia).
    apply skipn_exact. }
  rewrite E1, E2. reflexivity.
Qed.

Lemma scan_takes_first_in_set_order_witness :
  exists pre post,
    ustr "a*b-c" = pre ++ uchr "-" :: post /\ ~ In (uchr "-") pre
    /\ detect_list_item py0 (ustr "a*b-c") (PyInt 0)
       = Ok (Some {| item_type := BULLET; marker := pre ++ [uchr "-"];
                     content := strip post; level := 0; index := 0;
                     is_continuation := false |}).
Proof.
  apply (@scan_takes_first_in_set_order py0 (ustr "a*b-c") (PyInt 0) 0%Z
           [8226; 9679; 9675; 9632; 9642; 9643; 8227; 8259; 8268; 8269;
            10686; 10687]%N (uchr "-") [uchr "*"; uchr "+"]).
  - reflexivity.
  - intros b H. simpl in H.
    repeat (destruct H as [<-|H]; [vm_compute; reflexivity|]). destruct H.
  - vm_compute. reflexivity.
  - intros kind pattern H. simpl in H.
    repeat (destruct H as [H|H];
            [injection H as <- <-; vm_compute; reflexivity|]).
    destruct H.
  - reflexivity.
Defined.

(** ** Groups *)

(** X18.  [add_item] appends the item at the end of the items, whatever
    the item is, and leaves the kind and the level of the group as they
    were; so [is_continuation] answers the same after as before, and a
    group whose items all have its kind and level keeps that property
    exactly when the item added is one [is_continuation] accepts. *)
Theorem add_item_homogeneous : forall (g : ListGroup.t) (item : ListItemInfo),
  ListGroup.items (ListGroup.add_item g item) = ListGroup.items g ++ [item]
  /\ ListGroup.list_type (ListGroup.add_item g item) = ListGroup.list_type g
  /\ ListGroup.level (ListGroup.add_item g item) = ListGroup.level g
  /\ (forall other,
        ListGroup.is_continuation (ListGroup.add_item g item) other
        = ListGroup.is_continuation g other)
  /\ (homogeneous g ->
      (homogeneous (ListGroup.add_item g item)
       <-> ListGroup.is_continuation g item = true)).
Proof.
  intros g item. repeat (split; [reflexivity|]). intros H.
  unfold homogeneous, ListGroup.add_item, ListGroup.is_continuation in *.
  cbn [ListGroup.items ListGroup.list_type ListGroup.level].
  rewrite Forall_app, andb_true_iff, ListType_eqb_eq, Z.eqb_eq. split.
  - intros [_ F]. inv F. assumption.
  - intros C. split; [exact H|]. constructor; [exact C | constructor].
Qed.

Lemma add_item_homogeneous_witness :
  homogeneous
    (ListGroup.add_item
       {| ListGroup.items :=
            [{| item_type := NUMBERED; marker := ustr "1.";
                content := ustr "one"; level := 1; index := 1;
                is_continuation := false |}];
          ListGroup.list_type := NUMBERED; ListGroup.level := 1 |}
       {| item_type := BULLET; marker := ustr "-"; content := ustr "dash";
          level := 1; index := 0; is_continuation := false |})
  <-> ListGroup.is_continuation
        {| ListGroup.items :=
             [{| item_type := NUMBERED; marker := ustr "1.";
                 content := ustr "one"; level := 1; index := 1;
                 is_continuation := false |}];
           ListGroup.list_type := NUMBERED; ListGroup.level := 1 |}
        {| item_type := BULLET; marker := ustr "-"; content := ustr "dash";
           level := 1; index := 0; is_continuation := false |} = true.
Proof.
  apply (proj2 (proj2 (proj2 (proj2 (add_item_homogeneous
    {| ListGroup.items :=
         [{| item_type := NUMBERED; marker := ustr "1.";
             content := ustr "one"; level := 1; index := 1;
             is_continuation := false |}];
       ListGroup.list_type := NUMBERED; ListGroup.level := 1 |}
    {| item_type := BULLET; marker := ustr "-"; content := ustr "dash";
       level := 1; index := 0; is_continuation := false |}))))).
  unfold homogeneous. simpl. constructor; [split; reflexivity | constructor].
Defined.

(** ** From a detected item to the line written for it and back *)

(** A Roman item has a numeral of two letters or more: a line with one
    letter before the delimiter is taken by the lettered pattern, which
    comes first. *)
Lemma roman_item_two_letters py text x item :
  detect_list_item py text x = Ok (Some item) ->
  item_type item = ROMAN ->
  exists a b g,
    In (a :: b :: g) roman_words
    /\ index item = _roman_to_int py (a :: b :: g).
Proof.
  intros H K. rewrite detect_unfold in H.
  destruct (strip text); [discriminate|].
  destruct (level_of py x) as [lvl|]; cbn [bind] in H; [|discriminate].
  unfold PATTERNS in H. cbn [try_patterns] in H.
  destruct (re_match BULLET_PATTERN text) as [m|].
  { destruct (index_of py BULLET m); cbn [bind] in H; inv H. discriminate K. }
  destruct (re_match (NUMBERED_PATTERN py) text) as [m|].
  { destruct (index_of py NUMBERED m); cbn [bind] in H; inv H.
    discriminate K. }
  destruct (re_match LETTERED_PATTERN text) as [m|] eqn:Ml.
  { destruct (index_of py LETTERED m); cbn [bind] in H; inv H.
    discriminate K. }
  destruct (re_match ROMAN_PATTERN text) as [m|] eqn:Mr.
  2:{ inv H.
      match goal with H : scan_bullets _ _ _ _ = Some _ |- _ =>
        apply scan_bullets_inv in H;
        destruct H as [bu [pos [_ [_ [_ E]]]]] end.
      rewrite E in K. discriminate K. }
  apply roman_anatomy in Mr.
  destruct Mr as (ws & g & d & ws2 & B & N & HIn & D & B2 & N2 & E & G & G0).
  unfold index_of in H. cbn [ListType_eqb] in H. rewrite G in H.
  cbn [bind] in H. inv H. cbn [index].
  pose proof (roman_word_letters HIn) as F.
  rewrite (roman_letters_upper py _ F).
  destruct g as [|a [|b g]]; [congruence | | eauto].
  exfalso. destruct ws2 as [|w tl]; [congruence|].
  simpl in F. apply andb_prop in F. destruct F as [Fa _].
  destruct (roman_letter_char _ Fa) as [La _].
  revert Ml.
  apply (@anchored_matches text (Cls letter) ws [a] d w
           (tl ++ skipn (m_end m) text)); auto.
  - intros cur R. exists (advance cur (d :: w :: tl ++ skipn (m_end m) text)).
    split; [eapply M_cls; eassumption | reflexivity].
  - unfold blank in B2. simpl in B2. apply andb_prop in B2. tauto.
Qed.

(** The index of a numbered item is within the digit limit when written. *)
Lemma numbered_index_in_limit py text x item :
  decimals_sound py ->
  detect_list_item py text x = Ok (Some item) ->
  item_type item = NUMBERED ->
  (0 <= index item)%Z
  /\ over_digit_limit py (length (decimal_digits (index item))) = false.
Proof.
  intros S H K. apply detect_inv in H.
  destruct H as [[kind [pattern [m [HIn [M [Ek [_ [_ Ei]]]]]]]]
                |[_ [b [pos [_ [_ [_ [Ek _]]]]]]]]; [|congruence].
  apply pattern_of_kind in HIn.
  destruct HIn as [[E _]|[[_ ->]|[[E _]|[E _]]]]; try congruence.
  destruct (numbered_capture _ _ M) as [ds [G Hd]].
  destruct Hd as [ws [d [w [tl [_ [_ [N [F _]]]]]]]].
  rewrite <- Ek, K in Ei. unfold index_of in Ei. cbn [ListType_eqb] in Ei.
  rewrite G in Ei. unfold int_of_str in Ei.
  destruct ds as [|c0 ds0] eqn:Eq; [congruence|]. rewrite <- Eq in *.
  destruct (digits_value py 0 ds) as [v|] eqn:V; [|discriminate].
  destruct (over_digit_limit py (length ds)) eqn:O; [discriminate|].
  inv Ei. destruct (decimal_digits_short S N V) as [P Sh].
  split; [exact P|]. apply (over_digit_limit_mono py Sh O).
Qed.

Lemma detected_round_trip py text x item translated target :
  decimals_sound py ->
  detect_list_item py text x = Ok (Some item) ->
  exists body mk,
    reconstructs py item translated target body
    /\ detect_list_item py (indentation (level item) ++ body) x
       = Ok (Some {| item_type := item_type item; marker := mk;
                     content := strip translated; level := level item;
                     index := index item; is_continuation := false |}).
Proof.
  intros Snd H. pose proof (@detect_level py text x item H) as Lv.
  destruct (item_type item) eqn:K.
  - (* NONE *)
    exfalso. apply detect_inv in H.
    destruct H as [[kind [pattern [m [HIn [_ [Ek _]]]]]]
                  |[_ [b [pos [_ [_ [_ [Ek _]]]]]]]]; [|congruence].
    rewrite K in Ek. subst kind. simpl in HIn.
    destruct HIn as [E|[E|[E|[E|[]]]]]; discriminate E.
  - (* BULLET *)
    assert (I : index item = 0%Z).
    { apply detect_inv in H.
      destruct H as [[kind [pattern [m [HIn [_ [Ek [_ [_ Ei]]]]]]]]
                    |[_ [b [pos [_ [_ [_ [_ [Ei _]]]]]]]]]; [|exact Ei].
      rewrite K in Ek. subst kind. unfold index_of in Ei.
      cbn [ListType_eqb] in Ei. congruence. }
    destruct (@redetected_line py item translated target x (level item)
                Snd Lv) as [body [mk [R D]]]; [left; exact K|].
    exists body, mk. split; [exact R|]. rewrite D, K, I. reflexivity.
  - (* NUMBERED *)
    destruct (@numbered_index_in_limit py text x item Snd H K) as [P O].
    destruct (@redetected_line py item translated target x (level item)
                Snd Lv) as [body [mk [R D]]]; [right; left; auto|].
    exists body, mk. split; [exact R|]. rewrite D, K. reflexivity.
  - (* LETTERED *)
    destruct (@lettered_anatomy_of_item py text x item H K)
      as [c [d [_ [_ [_ [_ [R26 _]]]]]]].
    destruct (@redetected_line py item translated target x (level item)
                Snd Lv) as [body [mk [R D]]]; [right; right; auto|].
    exists body, mk. split; [exact R|]. rewrite D, K. reflexivity.
  - (* ROMAN *)
    destruct (@roman_item_two_letters py text x item H K) as [a [b [g [HIn I]]]].
    assert (N : a :: b :: g <> []) by discriminate.
    destruct (roman_word_spec py HIn N) as [_ [_ Back]].
    rewrite (roman_letters_upper py _ (roman_word_letters HIn)) in Back.
    exists ((a :: b :: g) ++ ustr ". " ++ translated),
           ((a :: b :: g) ++ [46%N]). split.
    { apply reconstructs_by. intros indent SI.
      unfold reconstruct_list_text. rewrite SI. cbn [bind].
      rewrite K. cbn [ListType_eqb]. rewrite I, Back. reflexivity. }
    rewrite I.
    apply (@detect_roman_line py (indentation (level item))
             a b g 46%N 32%N translated x (level item));
      auto using indentation_blank.
Qed.



(** ** Reading any string as a numeral *)

Lemma roman_value_cases ch :
  In (dict_get roman_numerals ch 0) [0; 1; 5; 10; 50; 100; 500; 1000]%Z.
Proof.
  unfold roman_numerals. simpl.
  repeat match goal with |- context [if ?b then _ else _] => destruct b end;
    tauto.
Qed.

Lemma roman_fold_nonneg l : forall r p,
  In p [0; 1; 5; 10; 50; 100; 500; 1000]%Z -> (p <= r)%Z ->
  (0 <= fst (fold_left roman_step l (r, p)))%Z.
Proof.
  induction l as [|ch l IH]; intros r p V L; cbn [fold_left].
  - simpl in V. cbn [fst]. intuition lia.
  - unfold roman_step at 2. cbn [fst snd].
    pose proof (roman_value_cases ch) as Vc.
    apply IH; [exact Vc|].
    revert Vc. generalize (dict_get roman_numerals ch 0). intros v Vc.
    destruct (Z.ltb_spec v p); simpl in V, Vc; intuition lia.
Qed.

Lemma ascii_upper_lower c : ascii_upper (ascii_lower c) = ascii_upper c.
Proof.
  unfold ascii_upper, ascii_lower, between.
  change (uchr "a") with 97%N. change (uchr "z") with 122%N.
  change (uchr "A") with 65%N. change (uchr "Z") with 90%N.
  destruct (N.leb_spec 65 c); destruct (N.leb_spec c 90); cbn [andb];
    repeat match goal with
           | |- context [(?a <=? ?b)%N] =>
               destruct (N.leb_spec a b); cbn [andb]
           end; lia.
Qed.

Lemma ascii_lower_ascii c : is_ascii c = true -> is_ascii (ascii_lower c) = true.
Proof.
  unfold is_ascii, ascii_lower, between.
  change (uchr "A") with 65%N. change (uchr "Z") with 90%N.
  rewrite !N.ltb_lt.
  destruct (N.leb_spec 65 c), (N.leb_spec c 90); cbn [andb]; lia.
Qed.

Lemma ascii_upper_ascii c : is_ascii c = true -> is_ascii (ascii_upper c) = true.
Proof.
  unfold is_ascii, ascii_upper, between.
  change (uchr "a") with 97%N. change (uchr "z") with 122%N.
  rewrite !N.ltb_lt.
  destruct (N.leb_spec 97 c), (N.leb_spec c 122); cbn [andb]; lia.
Qed.

Lemma ascii_upper_upper c : ascii_upper (ascii_upper c) = ascii_upper c.
Proof.
  unfold ascii_upper, between.
  change (uchr "a") with 97%N. change (uchr "z") with 122%N.
  destruct (N.leb_spec 97 c); destruct (N.leb_spec c 122); cbn [andb];
    repeat match goal with
           | |- context [(?a <=? ?b)%N] =>
               destruct (N.leb_spec a b); cbn [andb]
           end; lia.
Qed.

Lemma upper_of_lower py s :
  forallb is_ascii s = true -> upper py (lower py s) = upper py s.
Proof.
  intros A. unfold upper, lower. rewrite A.
  assert (A' : forallb is_ascii (map ascii_lower s) = true).
  { rewrite forallb_forall in *. intros c HIn. apply in_map_iff in HIn.
    destruct HIn as [y [<- HIn]]. apply ascii_lower_ascii, A, HIn. }
  rewrite A', map_map. apply map_ext. intros c. apply ascii_upper_lower.
Qed.

Lemma upper_of_upper py s :
  forallb is_ascii s = true -> upper py (upper py s) = upper py s.
Proof.
  intros A. unfold upper. rewrite A.
  assert (A' : forallb is_ascii (map ascii_upper s) = true).
  { rewrite forallb_forall in *. intros c HIn. apply in_map_iff in HIn.
    destruct HIn as [y [<- HIn]]. apply ascii_upper_ascii, A, HIn. }
  rewrite A', map_map. apply map_ext. intros c. apply ascii_upper_upper.
Qed.

(** X20.  [_roman_to_int] never gives a negative number, whatever the
    string: letters that are no numeral count for 0, and a smaller value
    before a larger one takes off at most what the larger one added. *)
Theorem roman_to_int_nonneg : forall (py : Interp) (s : str),
  (0 <= _roman_to_int py s)%Z.
Proof.
  intros py s. unfold _roman_to_int. apply roman_fold_nonneg; simpl; auto.
  lia.
Qed.

(** X21.  [_roman_to_int] reads an ASCII string whatever its case: the
    value of the string in lower case, and of the string in upper case, is
    the value of the string. *)
Theorem roman_to_int_case_blind : forall (py : Interp) (s : str),
  forallb is_ascii s = true ->
  _roman_to_int py (lower py s) = _roman_to_int py s
  /\ _roman_to_int py (upper py s) = _roman_to_int py s.
Proof.
  intros py s A. unfold _roman_to_int.
  rewrite upper_of_lower, upper_of_upper by exact A. auto.
Qed.

Lemma roman_to_int_case_blind_witness :
  _roman_to_int py0 (lower py0 (ustr "mCmXciV"))
  = _roman_to_int py0 (ustr "mCmXciV")
  /\ _roman_to_int py0 (upper py0 (ustr "mCmXciV"))
     = _roman_to_int py0 (ustr "mCmXciV").
Proof.
  apply (@roman_to_int_case_blind py0 (ustr "mCmXciV")). reflexivity.
Defined.

(** ** When detection returns and when it raises *)

Lemma index_of_returns py list_type pattern text m :
  In (list_type, pattern) (PATTERNS py) ->
  re_match pattern text = Some m ->
  (forall ds, numbered_head py text ds ->
              over_digit_limit py (length ds) = false) ->
  exists i, index_of py list_type m = Ok i.
Proof.
  intros HIn M L. unfold PATTERNS in HIn. simpl in HIn.
  destruct HIn as [E|[E|[E|[E|[]]]]]; inv E; unfold index_of;
    cbn [ListType_eqb].
  - eauto.
  - destruct (numbered_capture _ _ M) as [ds [G Hd]]. rewrite G.
    pose proof (L _ Hd) as O.
    destruct Hd as [ws [d [w [tl [_ [_ [N [F _]]]]]]]].
    apply int_of_str_digits; assumption.
  - destruct (lettered_group _ M) as [c [G Lc]]. rewrite G.
    unfold lower. cbn [forallb]. rewrite (letter_ascii _ Lc).
    cbn [andb map ord bind]. eauto.
  - destruct (roman_group _ M) as [g G]. rewrite G. eauto.
Qed.

Lemma try_patterns_returns py ps text lvl r :
  incl ps (PATTERNS py) ->
  (forall ds, numbered_head py text ds ->
              over_digit_limit py (length ds) = false) ->
  try_patterns py ps text lvl = Some r -> exists item, r = Ok item.
Proof.
  intros I L. induction ps as [|[list_type pattern] ps IH]; simpl;
    [discriminate|].
  destruct (re_match pattern text) as [m|] eqn:M.
  - destruct (@index_of_returns py list_type pattern text m) as [i E]; auto.
    { apply I. left. reflexivity. }
    rewrite E. cbn [bind]. intros H. inv H. eauto.
  - apply IH. intros p Hp. apply I. right. exact Hp.
Qed.

(** The limit is only looked at beyond 640 digits, and a limit of 0 is no
    limit: a text of at most 640 characters has no head that exceeds it. *)
Lemma short_text_heads py text :
  length text <= 640 \/ int_max_str_digits py = 0 ->
  forall ds, numbered_head py text ds ->
             over_digit_limit py (length ds) = false.
Proof.
  intros C ds [ws [d [w [tl [E _]]]]]. unfold over_digit_limit.
  destruct C as [C|C].
  - assert (Len : length ds <= 640).
    { rewrite E, !length_app in C. lia. }
    destruct (Nat.ltb_spec 640 (length ds)); [lia | reflexivity].
  - rewrite C. change (0 <? 0) with false. rewrite andb_false_r.
    reflexivity.
Qed.

(** C10, amended.  [detect_list_item] returns, an item or none, for every
    coordinate that is an [int] or a finite [float] and every text whose
    numbered head, if it has one, is a run of digits within the digit
    limit; and it raises [ValueError] for every coordinate that is NaN or
    infinite and every text that is not blank. *)
Theorem detect_total : forall (py : Interp) (text : str) (x : number),
  (finite x ->
   (forall ds, numbered_head py text ds ->
               over_digit_limit py (length ds) = false) ->
   exists r, detect_list_item py text x = Ok r)
  /\ (~ finite x -> ~ blank text ->
      detect_list_item py text x = Raise ValueError).
Proof.
  intros py text x. split.
  - intros F L. rewrite detect_unfold.
    destruct (strip text); [eauto|].
    destruct (level_of_finite py x F) as [lvl E]. rewrite E. cbn [bind].
    destruct (try_patterns py (PATTERNS py) text lvl) as [r|] eqn:T;
      [|eauto].
    apply try_patterns_returns in T; [|apply incl_refl | exact L].
    destruct T as [item ->]. cbn [bind]. eauto.
  - intros F B. rewrite detect_unfold.
    destruct (strip text) eqn:S.
    { exfalso. apply B, strip_nil_blank, S. }
    destruct x as [z|[|neg|m e]]; simpl in F; try tauto; reflexivity.
Qed.

Lemma detect_total_witness :
  (exists r, detect_list_item py0 (ustr "12) twelve")
               (PyFloat (Ffin 5960464477539062 24)) = Ok r)
  /\ detect_list_item py0 (ustr "- dash") (PyFloat (Finf true))
     = Raise ValueError.
Proof.
  split.
  - apply (proj1 (detect_total py0 (ustr "12) twelve")
                    (PyFloat (Ffin 5960464477539062 24)))).
    + exact I.
    + apply short_text_heads. left. simpl. lia.
  - apply (proj2 (detect_total py0 (ustr "- dash") (PyFloat (Finf true)))).
    + simpl. tauto.
    + unfold blank. simpl. discriminate.
Defined.
